(** * Slide extraction service (app.py): a shallow embedding and its properties

    The development follows the layout of [app.py]:
    - [Text]: Python strings as lists of code points, [str.strip], the two
      [re.sub] calls and the display filename of [create_pdf_task];
    - [Store]: the [jobs] dictionary and the files the service touches;
    - [Download]: [progress_hook] and [download_video];
    - [Video]: [frames_to_pdf_generator] (sampling loop, scene detection);
    - [Pdf]: [save_frames_to_pdf];
    - [Service]: [create_pdf_task] and the three routes.

    Conventions.  Python floats are read as exact rationals ([Q]); every
    [with jobs_lock:] block is one atomic state change; a background task
    runs from its start to its end without another thread in between,
    while a retrieval is cut into its view function and the cleanup that
    Flask calls afterwards, so that two retrievals can overlap.  OpenCV,
    yt-dlp, PIL and FPDF are outside the repository: what they return is
    an input of the model.  So is Flask: the order in which it calls the
    view and the registered cleanup and sends the body is written out in
    [Service]. *)

From Stdlib Require Import ZArith QArith Qround Lqa String Ascii.
From stdpp Require Import gmap strings list fin_maps.

Local Open Scope Z_scope.

(** ** Python strings *)

Module Text.

(** A [str] is a sequence of Unicode code points. *)
Abbreviation pystr := (list N).

(** A literal: the code points of an ASCII string. *)
Definition lit (s : string) : pystr :=
  map N_of_ascii (list_ascii_of_string s).

Definition hyphen : N := 45%N.
Definition underscore : N := 95%N.
Definition percent_sign : N := 37%N.

Section Classes.

(** The Unicode tables of the interpreter: [Py_UNICODE_ISALNUM] and
    [Py_UNICODE_ISSPACE].  The regular expression engine and [str.strip]
    consult the same tables. *)
Variable isalnum : N -> bool.
Variable isspace : N -> bool.

(** [\w] on a [str] pattern: alphanumeric or underscore. *)
Definition re_word (c : N) : bool := isalnum c || (c =? underscore)%N.

(** The class [[^\w\s-]] of the first substitution, negated: the code
    points that survive it. *)
Definition kept (c : N) : bool :=
  re_word c || isspace c || (c =? hyphen)%N.

(** The class [[-\s]] of the second substitution. *)
Definition sep (c : N) : bool := (c =? hyphen)%N || isspace c.

(** [s.lstrip()], [s.rstrip()], [s.strip()] *)
Fixpoint lstrip (s : pystr) : pystr :=
  match s with
  | c :: r => if isspace c then lstrip r else s
  | [] => []
  end.

Definition rstrip (s : pystr) : pystr := rev (lstrip (rev s)).

Definition strip (s : pystr) : pystr := rstrip (lstrip s).

(** [re.sub(r'[^\w\s-]', '', s)]: every code point outside the three
    classes is deleted. *)
Definition sub_delete (s : pystr) : pystr := List.filter kept s.

(** [re.sub(r'[-\s]+', '-', s)]: one left-to-right scan; [in_run] tells
    that the code point before the current one was matched by the class,
    so that the current match is being extended and its hyphen is already
    written. *)
Fixpoint sub_runs (in_run : bool) (s : pystr) : pystr :=
  match s with
  | [] => []
  | c :: r =>
      if sep c
      then if in_run then sub_runs true r else hyphen :: sub_runs true r
      else c :: sub_runs false r
  end.

Definition sub_collapse (s : pystr) : pystr := sub_runs false s.

(** The rest of the text once the match that is being extended ends. *)
Fixpoint skip_run (s : pystr) : pystr :=
  match s with
  | c :: r => if sep c then skip_run r else s
  | [] => []
  end.

(** Lines 160-162 of [create_pdf_task]. *)
Definition safe_filename (video_title : pystr) : pystr :=
  let safe := strip (sub_delete video_title) in
  let safe := sub_collapse safe ++ lit ".pdf" in
  if decide (safe = []) then lit "video-slides.pdf" else safe.

(** The part of the filename before the extension. *)
Definition stem (video_title : pystr) : pystr :=
  sub_collapse (strip (sub_delete video_title)).

(** The same filename, now read off the words of the specification:
    delete what is not alphanumeric, whitespace or hyphen; collapse the
    runs; trim; if nothing is left take the default, else append the
    extension. *)
Definition spec_kept (c : N) : bool :=
  isalnum c || isspace c || (c =? hyphen)%N.

Definition spec_filename (title : pystr) : pystr :=
  let s := strip (sub_collapse (List.filter spec_kept title)) in
  if decide (s = []) then lit "video-slides.pdf" else s ++ lit ".pdf".

(** Trimming and collapsing in words.  [core] is [s] trimmed when [s] is
    [core] between two stretches of whitespace and [core] neither begins
    nor ends with whitespace. *)
Definition no_space_at_ends (s : pystr) : bool :=
  match head s, last s with
  | Some a, Some b => negb (isspace a) && negb (isspace b)
  | _, _ => true
  end.

Definition trimmed (s ws1 core ws2 : pystr) : Prop :=
  s = ws1 ++ core ++ ws2
  /\ forallb isspace ws1 = true
  /\ forallb isspace ws2 = true
  /\ no_space_at_ends core = true.

(** A text cut into its maximal runs.  A run is tagged with [true] when
    its code points are whitespace or hyphens and with [false] when none of
    them is; no run is empty, and two neighbours carry different tags,
    which makes the runs maximal.  [prev] is the tag of the run before. *)
Fixpoint runs_ok (prev : option bool) (runs : list (bool * pystr)) : bool :=
  match runs with
  | [] => true
  | (b, run) :: rest =>
      negb (bool_decide (prev = Some b))
      && negb (bool_decide (run = []))
      && forallb (λ c, Bool.eqb (sep c) b) run
      && runs_ok (Some b) rest
  end.

Definition maximal_runs (runs : list (bool * pystr)) (s : pystr) : Prop :=
  s = concat (map snd runs) /\ runs_ok None runs = true.

(** Every run of whitespace and hyphens replaced by one hyphen, the other
    runs left as they are. *)
Definition replace_runs (runs : list (bool * pystr)) : pystr :=
  concat (map (λ br : bool * pystr, if fst br then [hyphen] else snd br)
               runs).

(** The maximal runs of a text. *)
Fixpoint cut_runs (s : pystr) : list (bool * pystr) :=
  match s with
  | [] => []
  | c :: r =>
      match cut_runs r with
      | (b, run) :: rest =>
          if Bool.eqb b (sep c) then (b, c :: run) :: rest
          else (sep c, [c]) :: (b, run) :: rest
      | [] => [(sep c, [c])]
      end
  end.

End Classes.

(** The two tables on the ASCII range, where they are
    [0-9A-Za-z] and [\t\n\v\f\r\x1c-\x1f ]; code points from 128 on are
    outside these two definitions. *)
Definition ascii_alnum (c : N) : bool :=
  ((48 <=? c) && (c <=? 57) || (65 <=? c) && (c <=? 90)
   || (97 <=? c) && (c <=? 122))%N.

Definition ascii_space (c : N) : bool :=
  ((9 <=? c) && (c <=? 13) || (28 <=? c) && (c <=? 32))%N.

End Text.

Import Text.

(** ** The shared state: job records and files *)

Module Store.

(** The four values the code assigns to [job['status']]. *)
Inductive job_status := pending | processing | complete | failed.

#[global] Instance job_status_eq_dec : EqDecision job_status.
Proof. solve_decision. Defined.

(** A job record: the dictionary stored under a job id.  The first three
    keys are set by [convert]; the last three only by a successful task. *)
Record job := Job {
  status : job_status;
  progress : Q;
  stage : string;
  filepath : option string;
  temp_dir : option string;
  filename : option pystr
}.

Definition set_status (s : job_status) (j : job) : job :=
  Job s (progress j) (stage j) (filepath j) (temp_dir j) (filename j).

Definition set_progress (p : Q) (j : job) : job :=
  Job (status j) p (stage j) (filepath j) (temp_dir j) (filename j).

Definition set_stage (s : string) (j : job) : job :=
  Job (status j) (progress j) s (filepath j) (temp_dir j) (filename j).

Definition set_result (path dir : string) (name : pystr) (j : job) : job :=
  Job (status j) (progress j) (stage j) (Some path) (Some dir) (Some name).

(** The global [jobs] dictionary, and the directories and files that
    exist on disk. *)
Record world := World {
  jobs : gmap string job;
  dirs : gset string;
  files : gset string
}.

Definition with_jobs (js : gmap string job) (w : world) : world :=
  World js (dirs w) (files w).

(** [os.path.join(d, name)] for a directory without a trailing slash and a
    relative name. *)
Definition path_join (d name : string) : string :=
  (d ++ "/" ++ name)%string.

Definition inside (d p : string) : bool := String.prefix (d ++ "/") p.

(** [tempfile.mkdtemp(dir=temp_base)], the operating system having chosen
    the name [d]. *)
Definition mkdtemp (d : string) (w : world) : world :=
  World (jobs w) ({[ d ]} ∪ dirs w) (files w).

(** What a successful removal of the tree rooted at [d] leaves. *)
Definition remove_tree (d : string) (w : world) : world :=
  World (jobs w) (dirs w ∖ {[ d ]})
        (filter (λ p, inside d p = false) (files w)).

(** [shutil.rmtree(d)]: raises ([None]) when [d] is not there. *)
Definition rmtree (d : string) (w : world) : option world :=
  if decide (d ∈ dirs w) then Some (remove_tree d w) else None.

(** [shutil.rmtree(d, ignore_errors=True)] *)
Definition rmtree_ignore_errors (d : string) (w : world) : world :=
  match rmtree d w with
  | Some w' => w'
  | None => w
  end.

(** Every stored progress is short of 100. *)
Definition below_100 (js : gmap string job) : Prop :=
  forall (id : string) (j : job), js !! id = Some j -> (progress j < 100)%Q.

(** Every stored progress of a job that has not failed is short of 100. *)
Definition below_100_unless_failed (js : gmap string job) : Prop :=
  forall (id : string) (j : job),
    js !! id = Some j -> status j <> failed -> (progress j < 100)%Q.

(** A sequence of progress values that never goes down. *)
Definition nondecreasing (l : list Q) : Prop :=
  forall (i : nat) (x y : Q),
    l !! i = Some x -> l !! S i = Some y -> (x <= y)%Q.

End Store.

Import Store.

(** ** The download collaborator *)

Module Download.

(** The dictionary yt-dlp hands to a progress hook: its ['status'] and, when
    present, its ['_percent_str']. *)
Record hook_dict := HookDict {
  d_status : string;
  d_percent_str : option pystr
}.

(** One call of [ydl.extract_info]: the hook calls it makes, in order;
    what it produces: the extension and the title of the downloaded video,
    or [None] when it raises; and the files it leaves in the output
    directory, by their names relative to that directory (the video, a
    partial download, fragments), whether it raises or not. *)
Record download_run := DownloadRun {
  hook_calls : list hook_dict;
  info : option (string * pystr);
  left_behind : list string
}.

Section Hook.

Variable isspace : N -> bool.

(** [float(s)]: [None] stands for [ValueError]. *)
Variable py_float : pystr -> option Q.

(** [s.replace('%', '')] *)
Definition drop_percent (s : pystr) : pystr :=
  List.filter (λ c, negb (c =? percent_sign)%N) s.

(** The text handed to [float] at line 30. *)
Definition percent_str (d : hook_dict) : pystr :=
  strip isspace (drop_percent (default (lit "0%") (d_percent_str d))).

(** Lines 27-32: the value the call assigns to [progress], if it assigns
    one.  Nothing is assigned when the status is not ['downloading'], when
    the job is not in [jobs], or when [float] raises (line 34). *)
Definition hook_write (job_id : string) (d : hook_dict)
    (js : gmap string job) : option Q :=
  if decide (d_status d = "downloading"%string) then
    match js !! job_id with
    | Some _ =>
        match py_float (percent_str d) with
        | Some percent => Some (percent / 2)%Q
        | None => None
        end
    | None => None
    end
  else None.

(** Lines 25-35. *)
Definition progress_hook (job_id : string) (d : hook_dict)
    (js : gmap string job) : gmap string job :=
  match hook_write job_id d js with
  | Some v =>
      alter (λ j, set_stage "Downloading Video" (set_progress v j)) job_id js
  | None => js
  end.

(** The percentages a sequence of hook calls reports: those of the calls
    with status ['downloading'] that [float] accepts. *)
Definition reported (ds : list hook_dict) : list Q :=
  omap (λ d, if decide (d_status d = "downloading"%string)
             then py_float (percent_str d) else None) ds.

Fixpoint run_hooks (job_id : string) (ds : list hook_dict)
    (js : gmap string job) : gmap string job :=
  match ds with
  | [] => js
  | d :: ds => run_hooks job_id ds (progress_hook job_id d js)
  end.

(** The values written to [progress] by a sequence of hook calls. *)
Fixpoint hook_writes (job_id : string) (ds : list hook_dict)
    (js : gmap string job) : list Q :=
  match ds with
  | [] => []
  | d :: ds =>
      option_list (hook_write job_id d js)
      ++ hook_writes job_id ds (progress_hook job_id d js)
  end.

(** Lines 23-55: the hooks run while yt-dlp writes into [output_dir]; the
    result is [(filename, title)] or [(None, None)], the filename being the
    template of line 38 with the extension filled in.  Whether a file of
    that name is among those left behind is up to yt-dlp. *)
Definition download_video (run : download_run) (output_dir job_id : string)
    (w : world) : option (string * pystr) * world :=
  let js := run_hooks job_id (hook_calls run) (jobs w) in
  let fs := list_to_set (path_join output_dir <$> left_behind run)
            ∪ files w in
  match info run with
  | Some (ext, title) =>
      let filename := path_join output_dir ("video." ++ ext) in
      (Some (filename, title), World js (dirs w) fs)
  | None => (None, World js (dirs w) fs)
  end.

End Hook.

(** [float] on plain decimal literals: an optional sign, digits, and
    optionally a point and more digits.  Python's [float] accepts more. *)
Definition digit_val (c : N) : option Z :=
  if ((48 <=? c) && (c <=? 57))%N then Some (Z.of_N c - 48) else None.

Fixpoint digits_val (acc : Z) (s : pystr) : option Z :=
  match s with
  | [] => Some acc
  | c :: r =>
      match digit_val c with
      | Some v => digits_val (10 * acc + v) r
      | None => None
      end
  end.

Fixpoint split_point (s : pystr) : pystr * option pystr :=
  match s with
  | [] => ([], None)
  | c :: r =>
      if (c =? 46)%N then ([], Some r)
      else let '(a, b) := split_point r in (c :: a, b)
  end.

Definition unsigned_decimal (s : pystr) : option Q :=
  match split_point s with
  | ([], None) => None
  | (ip, None) => inject_Z <$> digits_val 0 ip
  | (ip, Some fp) =>
      match ip, fp with
      | [], [] => None
      | _, _ =>
          match digits_val 0 ip, digits_val 0 fp with
          | Some i, Some f =>
              Some (inject_Z i + inject_Z f / inject_Z (10 ^ Z.of_nat (length fp)))%Q
          | _, _ => None
          end
      end
  end.

Definition decimal_float (s : pystr) : option Q :=
  match s with
  | c :: r =>
      if (c =? 45)%N then Qopp <$> unsigned_decimal r
      else if (c =? 43)%N then unsigned_decimal r
      else unsigned_decimal s
  | [] => None
  end.

End Download.

Import Download.

(** ** Sampling and scene detection *)

Module Video.

(** [int(x)] on a float: truncation towards zero. *)
Definition py_int (x : Q) : Z := Z.quot (Qnum x) (Z.pos (Qden x)).

(** [x < y] on floats. *)
Definition Qltb (x y : Q) : bool := negb (Qle_bool y x).

(** [x or y] on floats: [y] when [x] is zero. *)
Definition or_else (x y : Q) : Q := if Qeq_bool x 0 then y else x.

(** Lines 66-67.  [None] stands for the [ZeroDivisionError] of a zero
    sampling rate. *)
Definition effective_fps (reported : Q) : Q := or_else reported 30.

Definition frame_interval (reported_fps sampling_rate_fps : Q) : option Z :=
  if Qeq_bool sampling_rate_fps 0 then None
  else
    let k := py_int (effective_fps reported_fps / sampling_rate_fps) in
    Some (if k =? 0 then 1 else k).

(** Line 83, for a frame index and the total frame count. *)
Definition analysis_progress (frame_count total_frames : Z) : Q :=
  if 0 <? total_frames
  then (inject_Z frame_count / inject_Z total_frames * 100)%Q
  else 0%Q.

(** Lines 85-86. *)
Definition analysis_update (v : Q) (j : job) : job :=
  set_stage "Analyzing Video for Slides" (set_progress v j).

Section Generator.

(** Decoded frames and their histograms. *)
Variables Frame Hist : Type.

(** Lines 88-91: resize, convert to HSV, [calcHist], [normalize]. *)
Variable calc_hist : Frame -> Hist.

(** [cv2.compareHist(_, _, cv2.HISTCMP_CORREL)] *)
Variable compareHist : Hist -> Hist -> Q.

(** An opened capture: whether it opened, its two properties, and what
    [cap.set(cv2.CAP_PROP_POS_FRAMES, i); cap.read()] returns at each
    index ([None] when [ret] is false). *)
Record VideoCapture := Capture {
  isOpened : bool;
  CAP_PROP_FPS : Q;
  CAP_PROP_FRAME_COUNT : Q;
  read_at : Z -> option Frame
}.

(** One pass through the body of the [while] loop that got a frame. *)
Record iteration := Iteration {
  it_index : Z;               (* frame_count *)
  it_frame : Frame;           (* frame *)
  it_written : option Q;      (* the value assigned at line 85, if any *)
  it_emitted : option Frame   (* the frame yielded at line 97, if any *)
}.

Section Loop.

Variable cap : VideoCapture.
Variable job_id : string.
Variable scene_change_threshold : Q.
Variable interval : Z.
Variable total_frames : Z.

(** Lines 81-86. *)
Definition analysis_write (frame_count : Z) (js : gmap string job)
    : option Q :=
  match js !! job_id with
  | Some _ => Some (50 + analysis_progress frame_count total_frames / 2)%Q
  | None => None
  end.

Definition apply_write (v : option Q) (js : gmap string job)
    : gmap string job :=
  match v with
  | Some v => alter (analysis_update v) job_id js
  | None => js
  end.

(** Lines 93-97: the frame yielded while [frame] is the current one. *)
Definition step4 (last_good_frame : option Frame) (prev_hist : option Hist)
    (current_hist : Hist) : option Frame :=
  match prev_hist with
  | Some ph =>
      if Qltb (compareHist ph current_hist) scene_change_threshold
      then last_good_frame
      else None
  | None => None
  end.

(** Lines 75-101.  The result is the list of iterations, the value of
    [last_good_frame] when the loop is left and the job store; [None]
    when [fuel] iterations did not leave the loop. *)
Fixpoint gen_loop (fuel : nat) (last_good_frame : option Frame)
    (prev_hist : option Hist) (frame_count : Z) (js : gmap string job)
    : option (list iteration * option Frame * gmap string job) :=
  match fuel with
  | O => None
  | S fuel =>
      if frame_count <? total_frames then
        match read_at cap frame_count with
        | None => Some ([], last_good_frame, js)
        | Some frame =>
            let written := analysis_write frame_count js in
            let js := apply_write written js in
            let current_hist := calc_hist frame in
            let emitted := step4 last_good_frame prev_hist current_hist in
            match gen_loop fuel (Some frame) (Some current_hist)
                           (frame_count + interval) js with
            | Some (its, lg, js) =>
                Some (Iteration frame_count frame written emitted :: its,
                      lg, js)
            | None => None
            end
        end
      else Some ([], last_good_frame, js)
  end.

End Loop.

(** A finished run of the generator. *)
Record gen_run := GenRun {
  iterations : list iteration;
  flushed : option Frame;         (* the frame yielded at line 104 *)
  jobs_after : gmap string job
}.

Inductive gen_outcome :=
| GenDone (r : gen_run)
| GenZeroDivision          (* line 67 raised *)
| GenNoExit.               (* the loop was not left *)

(** Lines 57-106, run to exhaustion.  The consumer, [save_frames_to_pdf],
    neither reads nor writes the job store, so that running the generator
    first and handing over its frames leaves the same store and the same
    files as the interleaved execution. *)
Definition frames_to_pdf_generator (cap : VideoCapture) (job_id : string)
    (sampling_rate_fps scene_change_threshold : Q) (js : gmap string job)
    : gen_outcome :=
  if negb (isOpened cap) then GenDone (GenRun [] None js)
  else
    match frame_interval (CAP_PROP_FPS cap) sampling_rate_fps with
    | None => GenZeroDivision
    | Some interval =>
        let total_frames := py_int (CAP_PROP_FRAME_COUNT cap) in
        match gen_loop cap job_id scene_change_threshold interval
                total_frames (S (Z.to_nat total_frames)) None None 0 js with
        | Some (its, lg, js') => GenDone (GenRun its lg js')
        | None => GenNoExit
        end
    end.

(** A capture from which the loop gets no frame: it did not open, it
    reports no frames, or its first read fails. *)
Definition no_frame (cap : VideoCapture) : Prop :=
  isOpened cap = false
  \/ py_int (CAP_PROP_FRAME_COUNT cap) <= 0
  \/ read_at cap 0 = None.

(** The sampled frames, the frames the consumer receives and the values
    written to [progress], in order. *)
Definition sampled (r : gen_run) : list Frame :=
  map it_frame (iterations r).

Definition emitted (r : gen_run) : list Frame :=
  omap it_emitted (iterations r) ++ option_list (flushed r).

Definition analysis_writes (r : gen_run) : list Q :=
  omap it_written (iterations r).

End Generator.

Arguments Capture {Frame} _ _ _ _.
Arguments isOpened {Frame} _.
Arguments CAP_PROP_FPS {Frame} _.
Arguments CAP_PROP_FRAME_COUNT {Frame} _.
Arguments read_at {Frame} _ _.
Arguments Iteration {Frame} _ _ _ _.
Arguments it_index {Frame} _.
Arguments it_frame {Frame} _.
Arguments it_written {Frame} _.
Arguments it_emitted {Frame} _.
Arguments GenRun {Frame} _ _ _.
Arguments iterations {Frame} _.
Arguments flushed {Frame} _.
Arguments jobs_after {Frame} _.
Arguments GenDone {Frame} _.
Arguments GenZeroDivision {Frame}.
Arguments GenNoExit {Frame}.
Arguments no_frame {Frame} _.
Arguments sampled {Frame} _.
Arguments emitted {Frame} _.
Arguments analysis_writes {Frame} _.
Arguments step4 {Frame Hist} _ _ _ _ _.
Arguments gen_loop {Frame Hist} _ _ _ _ _ _ _ _ _ _ _.
Arguments frames_to_pdf_generator {Frame Hist} _ _ _ _ _ _ _.

End Video.

Import Video.

(** ** The document assembler *)

Module Pdf.

Definition pdf_w : Q := 210.
Definition margin : Q := 10.

Section Assembler.

Variable Frame : Type.

(** [cv2.imwrite(temp_img_path, frame)]: whether the frame was encoded. *)
Variable imwrite : Frame -> bool.

(** [pil_img.size] of the image written for a frame. *)
Variable image_size : Frame -> positive * positive.

(** The name of the [k]-th temporary file of a call. *)
Variable tempfile_name : nat -> string.

(** One page: the image and its placement (lines 127-132). *)
Record page := Page {
  page_image : Frame;
  page_x : Q;
  page_y : Q;
  page_w : Q;
  page_h : Q
}.

Definition place (frame : Frame) : page :=
  let '(img_w, img_h) := image_size frame in
  let aspect_ratio := (inject_Z (Z.pos img_w) / inject_Z (Z.pos img_h))%Q in
  let display_w := (pdf_w - 2 * margin)%Q in
  let display_h := (display_w / aspect_ratio)%Q in
  Page frame margin margin display_w display_h.

(** Lines 115-136, from the [k]-th frame of the call on: the pages so
    far, [processed_frames] and the files on disk. *)
Fixpoint save_loop (frames : list Frame) (k : nat) (pages : list page)
    (processed_frames : Z) (fs : gset string)
    : list page * Z * gset string :=
  match frames with
  | [] => (pages, processed_frames, fs)
  | frame :: rest =>
      let temp_img_path := tempfile_name k in
      let fs := {[ temp_img_path ]} ∪ fs in
      if imwrite frame then
        let pages := pages ++ [place frame] in
        let processed_frames := processed_frames + 1 in
        let fs := fs ∖ {[ temp_img_path ]} in
        save_loop rest (S k) pages processed_frames fs
      else
        let fs := fs ∖ {[ temp_img_path ]} in
        save_loop rest (S k) pages processed_frames fs
  end.

(** What a call leaves: its return value, the document it wrote, if it
    wrote one, and the files on disk. *)
Record saved := Saved {
  success : bool;
  document : option (list page);
  files_after : gset string
}.

(** Lines 108-141. *)
Definition save_frames_to_pdf (frame_generator : list Frame)
    (output_pdf : string) (fs : gset string) : saved :=
  let '(pages, processed_frames, fs) :=
    save_loop frame_generator 0%nat [] 0 fs in
  if 0 <? processed_frames
  then Saved true (Some pages) ({[ output_pdf ]} ∪ fs)
  else Saved false None fs.

End Assembler.

Arguments Page {Frame} _ _ _ _ _.
Arguments page_image {Frame} _.
Arguments page_w {Frame} _.
Arguments page_h {Frame} _.
Arguments page_x {Frame} _.
Arguments page_y {Frame} _.
Arguments Saved {Frame} _ _ _.
Arguments success {Frame} _.
Arguments document {Frame} _.
Arguments files_after {Frame} _.
Arguments place {Frame} _ _.
Arguments save_loop {Frame} _ _ _ _ _ _ _ _.
Arguments save_frames_to_pdf {Frame} _ _ _ _ _ _.

End Pdf.

Import Pdf.

(** ** The background task and the routes *)

Module Service.

Section Service.

Variable isalnum : N -> bool.
Variable isspace : N -> bool.
Variable py_float : pystr -> option Q.
Variables Frame Hist : Type.
Variable calc_hist : Frame -> Hist.
Variable compareHist : Hist -> Hist -> Q.
Variable imwrite : Frame -> bool.
Variable image_size : Frame -> positive * positive.

(** What the surroundings contribute to one run of the task: the
    directory [mkdtemp] creates, the behaviour of yt-dlp, the capture
    OpenCV opens for a path, and the names of the temporary files. *)
Record task_env := TaskEnv {
  env_temp_dir : string;
  env_download : download_run;
  env_capture : string -> VideoCapture Frame;
  env_tempfile_name : nat -> string
}.

Inductive task_outcome :=
| Finished (w : world)     (* the function returned *)
| Crashed (w : world)      (* KeyError at line 151, outside the [try] *)
| Hung.                    (* the sampling loop was not left *)

(** Lines 178-183. *)
Definition fail_task (job_id temp_dir : string) (w : world) : world :=
  rmtree_ignore_errors temp_dir
    (with_jobs (alter (set_status failed) job_id (jobs w)) w).

(** Lines 170-175. *)
Definition complete_task (job_id output_pdf temp_dir : string)
    (safe_filename : pystr) (w : world) : world :=
  with_jobs
    (alter (λ j, set_result output_pdf temp_dir safe_filename
                   (set_status complete j)) job_id (jobs w)) w.

(** Lines 145-183. *)
Definition create_pdf_task (env : task_env) (job_id : string) (w : world)
    : task_outcome :=
  let temp_dir := env_temp_dir env in
  let w := mkdtemp temp_dir w in
  match jobs w !! job_id with
  | None => Crashed w
  | Some _ =>
      let w := with_jobs (alter (set_status processing) job_id (jobs w)) w in
      match download_video isspace py_float (env_download env)
              temp_dir job_id w with
      | (None, w) => Finished (fail_task job_id temp_dir w)
      | (Some (video_path, video_title), w) =>
          if decide (video_path = ""%string)
          then Finished (fail_task job_id temp_dir w)
          else
            match frames_to_pdf_generator calc_hist compareHist
                    (env_capture env video_path) job_id 1 (7 # 10)
                    (jobs w) with
            | GenNoExit => Hung
            | GenZeroDivision => Finished (fail_task job_id temp_dir w)
            | GenDone r =>
                let safe_filename :=
                  safe_filename isalnum isspace video_title in
                let output_pdf := path_join temp_dir "output.pdf" in
                let res :=
                  save_frames_to_pdf imwrite image_size
                    (env_tempfile_name env) (emitted r) output_pdf
                    (files w) in
                let w := World (jobs_after r) (dirs w) (files_after res) in
                if success res
                then Finished
                       (complete_task job_id output_pdf temp_dir
                          safe_filename w)
                else Finished (fail_task job_id temp_dir w)
            end
      end
  end.

(** The state in which lines 151-154 leave the task: the directory
    made, the job marked as processing, the download over. *)
Definition after_download (env : task_env) (job_id : string) (w : world)
    : world :=
  (download_video isspace py_float (env_download env) (env_temp_dir env)
     job_id
     (with_jobs (alter (set_status processing) job_id (jobs w))
        (mkdtemp (env_temp_dir env) w))).2.

(** Lines 192-203, the identifier being the one [uuid4] returned; the
    thread it starts is [create_pdf_task]. *)
Definition convert (job_id : string) (w : world) : world :=
  with_jobs
    (<[ job_id := Job pending 0 "Initializing" None None None ]> (jobs w)) w.

(** Lines 205-216. *)
Inductive status_response :=
| StatusNotFound                         (* 404, status 'not_found' *)
| StatusOf (s : job_status) (p : Q) (st : string) (name : option pystr).

Definition status_route (job_id : string) (w : world) : status_response :=
  match jobs w !! job_id with
  | None => StatusNotFound
  | Some j => StatusOf (status j) (progress j) (stage j) (filename j)
  end.

(** Lines 218-242. *)
Inductive download_response :=
| NotFound404                (* "Job not found or not complete." *)
| KeyError500                (* a key of line 226 or 227 is missing *)
| NoDocument500              (* [send_file] raised: no file at the path *)
| SendFile (path : string) (download_name : pystr).

(** Lines 231-240: the removal may raise, and then the record stays; the
    [except] clause absorbs the error and the response goes back as it
    came. *)
Definition cleanup (job_id temp_dir : string) (w : world) : world :=
  match rmtree temp_dir w with
  | Some w' => with_jobs (delete job_id (jobs w')) w'
  | None => w
  end.

(** Lines 219-242, the view function.  [job] is the record as lines
    221-228 find it; these lines read the dictionary of the job outside
    the lock, while lines 172-175 write its keys one after the other, so
    that a record can be found complete and without its path.  [w] is the
    state in which line 242 looks for the document.  The result is the
    response and, once line 230 has been reached, the directory that the
    registered [cleanup] is going to remove. *)
Definition download_view (job : option job) (w : world)
    : download_response * option string :=
  match job with
  | None => (NotFound404, None)
  | Some j =>
      if decide (status j = complete) then
        match filepath j, temp_dir j with
        | Some path, Some dir =>
            if decide (path ∈ files w)
            then (SendFile path (default (lit "slides.pdf") (filename j)),
                  Some dir)
            else (NoDocument500, Some dir)
        | _, _ => (KeyError500, None)
        end
      else (NotFound404, None)
  end.

(** What Flask does with a function registered by [after_this_request]:
    it calls it on the response the view returned, before the server
    starts to send the body.  When the view raised, it calls it on the
    response of its error handler, unless exceptions are propagated, as
    they are under [debug=True] (line 245). *)
Definition runs_cleanup (propagate_exceptions : bool)
    (r : download_response) : bool :=
  match r with
  | SendFile _ _ => true
  | NoDocument500 => negb propagate_exceptions
  | NotFound404 | KeyError500 => false
  end.

Definition after_request (propagate_exceptions : bool) (job_id : string)
    (r : download_response) (registered : option string) (w : world)
    : world :=
  match registered with
  | Some dir =>
      if runs_cleanup propagate_exceptions r then cleanup job_id dir w else w
  | None => w
  end.

(** A retrieval served on its own: the view and then what was
    registered.  The state returned is the one in which the body is
    sent. *)
Definition download (propagate_exceptions : bool) (job_id : string)
    (w : world) : download_response * world :=
  let v := download_view (jobs w !! job_id) w in
  (v.1, after_request propagate_exceptions job_id v.1 v.2 w).

(** Two retrievals of one job that overlap: both views have returned
    before either of the two registered functions is called. *)
Definition download_overlapping (propagate_exceptions : bool)
    (job_id : string) (w : world)
    : download_response * download_response * world :=
  let v1 := download_view (jobs w !! job_id) w in
  let v2 := download_view (jobs w !! job_id) w in
  let w1 := after_request propagate_exceptions job_id v1.1 v1.2 w in
  let w2 := after_request propagate_exceptions job_id v2.1 v2.2 w1 in
  (v1.1, v2.1, w2).

(** What a retrieval does to the disk, to the job store and to its
    caller, in the order in which it does it. *)
Inductive effect :=
| Opened (path : string)           (* line 242: [send_file] opens the file *)
| TreeRemoved (dir : string)       (* line 233 *)
| RemovalRaised (dir : string)     (* line 233 raised; line 239 *)
| JobDeleted (job_id : string)  (* line 236 *)
| BodySent (path : string).        (* the server sends the body *)

Definition cleanup_effects (job_id temp_dir : string) (w : world)
    : list effect :=
  match rmtree temp_dir w with
  | Some w' =>
      TreeRemoved temp_dir
      :: match jobs w' !! job_id with
         | Some _ => [JobDeleted job_id]
         | None => []
         end
  | None => [RemovalRaised temp_dir]
  end.

Definition download_effects (propagate_exceptions : bool)
    (job_id : string) (w : world) : list effect :=
  let v := download_view (jobs w !! job_id) w in
  let sent := match v.1 with SendFile path _ => Some path | _ => None end in
  option_list (Opened <$> sent)
  ++ match v.2 with
     | Some dir =>
         if runs_cleanup propagate_exceptions v.1
         then cleanup_effects job_id dir w else []
     | None => []
     end
  ++ option_list (BodySent <$> sent).

(** A request or a background task, and the service running a sequence
    of them from a given state.  A retrieval comes with the setting under
    which the application serves it. *)
Inductive action :=
| Convert (job_id : string)
| Task (env : task_env) (job_id : string)
| Status (job_id : string)
| Download (propagate_exceptions : bool) (job_id : string).

Definition perform (a : action) (w : world) : option world :=
  match a with
  | Convert job_id => Some (convert job_id w)
  | Task env job_id =>
      match create_pdf_task env job_id w with
      | Finished w' | Crashed w' => Some w'
      | Hung => None
      end
  | Status _ => Some w
  | Download propagate_exceptions job_id =>
      Some (snd (download propagate_exceptions job_id w))
  end.

Fixpoint run (acts : list action) (w : world) : option world :=
  match acts with
  | [] => Some w
  | a :: acts =>
      match perform a w with
      | Some w' => run acts w'
      | None => None
      end
  end.

(** The download of a task reports no percentage above 100. *)
Definition within_contract (a : action) : Prop :=
  match a with
  | Task env _ =>
      Forall (λ p, p <= 100)%Q
             (reported isspace py_float (hook_calls (env_download env)))
  | _ => True
  end.

End Service.

Arguments TaskEnv {Frame} _ _ _ _.
Arguments env_temp_dir {Frame} _.
Arguments env_download {Frame} _.
Arguments env_capture {Frame} _ _.
Arguments env_tempfile_name {Frame} _ _.
Arguments create_pdf_task _ _ _ {Frame Hist} _ _ _ _ _ _ _.
Arguments Convert {Frame} _.
Arguments Task {Frame} _ _.
Arguments Status {Frame} _.
Arguments Download {Frame} _ _.
Arguments perform _ _ _ {Frame Hist} _ _ _ _ _ _.
Arguments run _ _ _ {Frame Hist} _ _ _ _ _ _.
Arguments within_contract _ _ {Frame} _.
Arguments after_download _ _ {Frame} _ _ _.

End Service.

Import Service.

Definition initial_world : world := World ∅ ∅ ∅.

(** ** A small instance

    Frames are numbered slides: the histogram of a frame is its slide
    number, two histograms correlate fully when they are the same slide and
    not at all otherwise, and slide 13 cannot be encoded. *)

Module Demo.

Definition calc_hist (f : nat) : nat := f.

Definition compareHist (a b : nat) : Q := if decide (a = b) then 1%Q else 0%Q.

Definition imwrite (f : nat) : bool := negb (f =? 13)%nat.

Definition image_size (f : nat) : positive * positive :=
  (1280%positive, 720%positive).

Definition tempfile_name (k : nat) : string :=
  ("/tmp/tmp" ++ String (ascii_of_nat (97 + k)) ".jpg")%string.

(** Ninety frames at thirty frames per second: slide 1 for two seconds,
    then slide 2. *)
Definition talk : VideoCapture nat :=
  Capture true 30 90
    (λ i, if (0 <=? i) && (i <? 90)
          then Some (if i <? 60 then 1%nat else 2%nat) else None).

(** The same frames behind a capture that reports no frame rate. *)
Definition talk_no_fps : VideoCapture nat :=
  Capture true 0 90 (read_at talk).

(** A capture that could not be opened. *)
Definition broken : VideoCapture nat := Capture false 0 0 (λ _, None).

(** A single frame. *)
Definition still : VideoCapture nat :=
  Capture true 25 1 (λ i, if i =? 0 then Some 7%nat else None).

Definition fresh_job : job := Job pending 0 "Initializing" None None None.

Definition one_job : gmap string job := {[ "j"%string := fresh_job ]}.

(** The finished run of the generator on a capture, as the task calls it. *)
Definition run_of (cap : VideoCapture nat) : gen_run nat :=
  match frames_to_pdf_generator calc_hist compareHist cap "j" 1 (7 # 10)
          one_job with
  | GenDone r => r
  | _ => GenRun [] None ∅
  end.

Definition downloading (s : string) : hook_dict :=
  HookDict "downloading" (Some (lit s)).

Definition good_download : download_run :=
  DownloadRun [downloading " 50.0%"; downloading "100%"]
              (Some ("mp4"%string, lit "Intro to Rocq"))
              ["video.mp4"%string].

Definition env_ok : task_env nat :=
  TaskEnv "/dev/shm/ws1" good_download (λ _, talk) tempfile_name.

Definition env_broken : task_env nat :=
  TaskEnv "/dev/shm/ws2" good_download (λ _, broken) tempfile_name.

Definition task (env : task_env nat) :=
  create_pdf_task ascii_alnum ascii_space decimal_float
    calc_hist compareHist imwrite image_size env.

Definition demo_run (acts : list (action nat)) (w : world) : option world :=
  run ascii_alnum ascii_space decimal_float
    calc_hist compareHist imwrite image_size acts w.

(** The state after one conversion has been requested and carried out,
    and the record of its job. *)
Definition done_world : world :=
  default initial_world
    (demo_run [Convert "j"; Task env_ok "j"] initial_world).

Definition done_job : job := default fresh_job (jobs done_world !! "j"%string).

End Demo.

(** ** Slides, recorded results

    Two notions used to state what the generator and the service do as a
    whole. *)

Module Slides.

Section Slides.

Variables Frame Hist : Type.
Variable calc_hist : Frame -> Hist.
Variable compareHist : Hist -> Hist -> Q.
Variable scene_change_threshold : Q.

(** The test of line 95 for a frame and the frame sampled after it. *)
Definition changed (f g : Frame) : bool :=
  Qltb (compareHist (calc_hist f) (calc_hist g)) scene_change_threshold.

(** The frames of a sequence that are followed by a change, and its last
    frame. *)
Fixpoint slides (fs : list Frame) : list Frame :=
  match fs with
  | [] => []
  | f :: rest =>
      match rest with
      | [] => [f]
      | g :: _ => if changed f g then f :: slides rest else slides rest
      end
  end.

End Slides.

Arguments changed {Frame Hist} _ _ _ _ _.
Arguments slides {Frame Hist} _ _ _ _.

(** Lines 32-33 for a reported percentage. *)
Definition downloading_update (percent : Q) (j : job) : job :=
  set_stage "Downloading Video" (set_progress (percent / 2) j).

End Slides.

Import Slides.

Module Demo2.

(** Four seconds of video at one frame per second: slides 1, 1, 2, 3. *)
Definition lecture : VideoCapture nat :=
  Capture true 1 4
    (λ i, if i =? 0 then Some 1%nat else if i =? 1 then Some 1%nat
          else if i =? 2 then Some 2%nat else if i =? 3 then Some 3%nat
          else None).

(** Five frames announced, the third one unreadable. *)
Definition truncated : VideoCapture nat :=
  Capture true 1 5
    (λ i, if i =? 0 then Some 1%nat else if i =? 1 then Some 2%nat else None).

(** Three seconds of one slide. *)
Definition frozen : VideoCapture nat :=
  Capture true 1 3 (λ i, if (0 <=? i) && (i <? 3) then Some 5%nat else None).

(** Three seconds, a new slide every second. *)
Definition flipping : VideoCapture nat :=
  Capture true 1 3
    (λ i, if (0 <=? i) && (i <? 3) then Some (Z.to_nat i) else None).

Definition gen (cap : VideoCapture nat) (job_id : string) (t : Q)
    (js : gmap string job) : gen_outcome nat :=
  frames_to_pdf_generator Demo.calc_hist Demo.compareHist cap job_id 1 t js.

Definition run_at (cap : VideoCapture nat) (job_id : string) (t : Q)
    (js : gmap string job) : gen_run nat :=
  match gen cap job_id t js with
  | GenDone r => r
  | _ => GenRun [] None ∅
  end.

(** A download that raises after one progress report and leaves a partial
    file. *)
Definition failed_download : download_run :=
  DownloadRun [Demo.downloading "12.5%"] None ["video.mp4.part"%string].

(** A download that reports more than it should and then raises. *)
Definition overreporting_download : download_run :=
  DownloadRun [Demo.downloading "250%"] None [].

Definition env_overreport : task_env nat :=
  TaskEnv "/dev/shm/ws5" overreporting_download (λ _, Demo.talk)
          Demo.tempfile_name.

Definition env_no_video : task_env nat :=
  TaskEnv "/dev/shm/ws3" failed_download (λ _, Demo.talk) Demo.tempfile_name.

(** A video whose only slide cannot be encoded. *)
Definition unlucky : VideoCapture nat :=
  Capture true 1 2 (λ i, if (0 <=? i) && (i <? 2) then Some 13%nat else None).

Definition env_unlucky : task_env nat :=
  TaskEnv "/dev/shm/ws4" Demo.good_download (λ _, unlucky) Demo.tempfile_name.

(** Two jobs, the second one already complete. *)
Definition other_job : job :=
  Job complete (175 # 2) "Analyzing Video for Slides"
      (Some "/dev/shm/old/output.pdf"%string) (Some "/dev/shm/old"%string)
      (Some (lit "Old.pdf")).

Definition two_jobs : world :=
  World {[ "j"%string := Demo.fresh_job; "k"%string := other_job ]}
        {[ "/dev/shm/old"%string ]} {[ "/dev/shm/old/output.pdf"%string ]}.

(** The run of the generator inside the task of [Demo.env_ok]. *)
Definition ok_run : gen_run nat :=
  match frames_to_pdf_generator Demo.calc_hist Demo.compareHist Demo.talk
          "j" 1 (7 # 10)
          (jobs (after_download ascii_space decimal_float Demo.env_ok "j"
                   (convert "j" initial_world))) with
  | GenDone r => r
  | _ => GenRun [] None ∅
  end.

End Demo2.

(** * Properties *)

(** ** The display filename *)

Section TextFacts.

Variable isalnum : N -> bool.
Variable isspace : N -> bool.

Local Abbreviation sep := (sep isspace).
Local Abbreviation kept := (kept isalnum isspace).
Local Abbreviation lstrip := (lstrip isspace).
Local Abbreviation rstrip := (rstrip isspace).
Local Abbreviation strip := (strip isspace).
Local Abbreviation sub_runs := (sub_runs isspace).
Local Abbreviation stem := (stem isalnum isspace).

Lemma sep_hyphen : sep hyphen = true.
Proof. reflexivity. Qed.

Lemma sep_space c : isspace c = true -> sep c = true.
Proof. unfold Text.sep. intros ->. apply orb_true_r. Qed.

Lemma not_sep_not_hyphen c : sep c = false -> c <> hyphen.
Proof. intros H ->. rewrite sep_hyphen in H. discriminate. Qed.

(** Stripping only removes code points, and only whitespace. *)
Lemma lstrip_Forall (P : N -> Prop) s : Forall P s -> Forall P (lstrip s).
Proof.
  induction 1 as [|c r Hc Hr IH]; simpl; [constructor|].
  destruct (isspace c); [exact IH | by constructor].
Qed.

Lemma strip_Forall (P : N -> Prop) s : Forall P s -> Forall P (strip s).
Proof.
  intros H. unfold Text.strip, Text.rstrip.
  by apply List.Forall_rev, lstrip_Forall, List.Forall_rev, lstrip_Forall.
Qed.

Lemma lstrip_app_space ws s :
  Forall (λ c, isspace c = true) ws -> lstrip (ws ++ s) = lstrip s.
Proof. induction 1 as [|c r Hc Hr IH]; simpl; [done | by rewrite Hc]. Qed.

Lemma lstrip_all_space ws :
  Forall (λ c, isspace c = true) ws -> lstrip ws = [].
Proof. induction 1 as [|c r Hc Hr IH]; simpl; [done | by rewrite Hc]. Qed.

Lemma lstrip_snoc_space s ws :
  Forall (λ c, isspace c = true) ws ->
  lstrip (s ++ ws) = lstrip s ++ ws
  \/ (lstrip (s ++ ws) = [] /\ lstrip s = []).
Proof.
  intros Hws. induction s as [|c r IH]; simpl.
  - right. split; [by apply lstrip_all_space | done].
  - destruct (isspace c); [exact IH | by left].
Qed.

Lemma rstrip_snoc_space s ws :
  Forall (λ c, isspace c = true) ws -> rstrip (s ++ ws) = rstrip s.
Proof.
  intros Hws. unfold Text.rstrip. rewrite rev_app_distr.
  rewrite lstrip_app_space; [done|]. by apply List.Forall_rev.
Qed.

Lemma strip_surrounded ws1 s ws2 :
  Forall (λ c, isspace c = true) ws1 ->
  Forall (λ c, isspace c = true) ws2 ->
  strip (ws1 ++ s ++ ws2) = strip s.
Proof.
  intros H1 H2. unfold Text.strip. rewrite lstrip_app_space by done.
  destruct (lstrip_snoc_space s ws2 H2) as [-> | [-> ->]]; [|done].
  by apply rstrip_snoc_space.
Qed.

Lemma filter_lstrip (f : N -> bool) s :
  (forall c, isspace c = true -> f c = false) ->
  List.filter f (lstrip s) = List.filter f s.
Proof.
  intros Hf. induction s as [|c r IH]; simpl; [done|].
  destruct (isspace c) eqn:Hc; [|done].
  by rewrite IH, (Hf c Hc).
Qed.

Lemma filter_strip (f : N -> bool) s :
  (forall c, isspace c = true -> f c = false) ->
  List.filter f (strip s) = List.filter f s.
Proof.
  intros Hf. unfold Text.strip, Text.rstrip.
  rewrite filter_rev, filter_lstrip, <- filter_rev, rev_involutive by done.
  by apply filter_lstrip.
Qed.

(** The second substitution. *)
Lemma sub_runs_Forall b s :
  Forall (λ c, kept c = true) s ->
  Forall (λ c, c = hyphen \/ (re_word isalnum c = true /\ sep c = false))
         (sub_runs b s).
Proof.
  intros H. revert b. induction H as [|c r Hc Hr IH]; intros b; simpl.
  { constructor. }
  destruct (sep c) eqn:Hs.
  - destruct b; [apply IH | constructor; [by left | apply IH]].
  - constructor; [|apply IH]. right. split; [|done].
    unfold Text.kept in Hc. unfold Text.sep in Hs.
    destruct (re_word isalnum c); [done|].
    destruct (isspace c), (c =? hyphen)%N; simpl in *; congruence.
Qed.

Lemma sub_runs_head s : head (sub_runs true s) <> Some hyphen.
Proof.
  induction s as [|c r IH]; simpl; [done|].
  destruct (sep c) eqn:Hs; [exact IH|].
  simpl. intros [= ->]. by rewrite sep_hyphen in Hs.
Qed.

Lemma sub_runs_single b s i :
  sub_runs b s !! i = Some hyphen -> sub_runs b s !! S i <> Some hyphen.
Proof.
  revert b i. induction s as [|c r IH]; intros b i; simpl; [done|].
  destruct (sep c) eqn:Hs.
  - destruct b; [apply IH|].
    destruct i as [|i]; simpl; [|apply IH].
    intros _. rewrite <- head_lookup. apply sub_runs_head.
  - destruct i as [|i]; simpl; [|apply IH].
    intros [= ->]. by rewrite sep_hyphen in Hs.
Qed.

Lemma sub_runs_filter b s :
  List.filter (λ c, negb (sep c)) (sub_runs b s)
  = List.filter (λ c, negb (sep c)) s.
Proof.
  revert b. induction s as [|c r IH]; intros b; simpl; [done|].
  destruct (sep c) eqn:Hs; simpl.
  - destruct b; simpl; apply IH.
  - rewrite Hs. simpl. by rewrite IH.
Qed.

(** A match of [[-\s]+] is maximal: what follows its hyphen is the text
    after the whole run. *)
Lemma sub_runs_skip s : sub_runs true s = sub_runs false (skip_run isspace s).
Proof.
  induction s as [|c r IH]; simpl; [done|].
  destruct (sep c) eqn:Hs; [exact IH|]. simpl. by rewrite Hs.
Qed.

Lemma sub_collapse_run c r :
  sep c = true ->
  sub_collapse isspace (c :: r)
  = hyphen :: sub_collapse isspace (skip_run isspace r).
Proof.
  intros Hs. unfold sub_collapse. simpl. rewrite Hs.
  by rewrite sub_runs_skip.
Qed.

Lemma filter_filter_kept s :
  List.filter (λ c, negb (sep c)) (List.filter kept s)
  = List.filter (λ c, re_word isalnum c && negb (sep c)) s.
Proof.
  induction s as [|c r IH]; simpl; [done|].
  destruct (kept c) eqn:Hk; simpl.
  - destruct (sep c) eqn:Hs; simpl.
    + by rewrite andb_false_r.
    + replace (re_word isalnum c) with true; [simpl; by rewrite IH|].
      unfold Text.kept in Hk. unfold Text.sep in Hs.
      destruct (re_word isalnum c); [done|].
      destruct (isspace c), (c =? hyphen)%N; simpl in *; congruence.
  - replace (re_word isalnum c) with false; [done|].
    unfold Text.kept in Hk. by destruct (re_word isalnum c).
Qed.

Lemma stem_chars title :
  Forall (λ c, c = hyphen \/ (re_word isalnum c = true /\ sep c = false))
         (stem title).
Proof.
  unfold Text.stem, sub_collapse. apply sub_runs_Forall, strip_Forall.
  unfold sub_delete. apply List.Forall_forall. intros c Hc.
  by apply List.filter_In in Hc as [_ Hc].
Qed.

Lemma stem_word_chars title :
  List.filter (λ c, negb (sep c)) (stem title)
  = List.filter (λ c, re_word isalnum c && negb (sep c)) title.
Proof.
  unfold Text.stem, sub_collapse, sub_delete.
  rewrite sub_runs_filter, filter_strip, filter_filter_kept; [done|].
  intros c Hc. by rewrite (sep_space c Hc).
Qed.

Lemma stem_trim ws1 title ws2 :
  Forall (λ c, isspace c = true) ws1 ->
  Forall (λ c, isspace c = true) ws2 ->
  stem (ws1 ++ title ++ ws2) = stem title.
Proof.
  intros H1 H2. unfold Text.stem, sub_delete.
  rewrite !List.filter_app.
  rewrite (strip_surrounded (List.filter kept ws1)); [done| |].
  - apply List.Forall_forall. intros c Hc.
    apply List.filter_In in Hc as [Hc _].
    rewrite List.Forall_forall in H1. by apply H1.
  - apply List.Forall_forall. intros c Hc.
    apply List.filter_In in Hc as [Hc _].
    rewrite List.Forall_forall in H2. by apply H2.
Qed.

Lemma safe_filename_stem title :
  safe_filename isalnum isspace title = stem title ++ lit ".pdf".
Proof.
  unfold safe_filename, Text.stem. case_decide as H; [|done].
  by apply app_eq_nil in H as [_ H].
Qed.

(** Trimming, in the words of [trimmed]. *)
Lemma forallb_space ws :
  forallb isspace ws = true <-> Forall (λ c, isspace c = true) ws.
Proof.
  rewrite forallb_forall, List.Forall_forall. reflexivity.
Qed.

Lemma lstrip_split s :
  exists ws, s = ws ++ lstrip s /\ forallb isspace ws = true.
Proof.
  induction s as [|c r (ws & Hs & Hws)]; [by exists []|].
  simpl. destruct (isspace c) eqn:Hc.
  - exists (c :: ws). split; [simpl; by f_equal | simpl; by rewrite Hc].
  - by exists [].
Qed.

Lemma lstrip_head s c : head (lstrip s) = Some c -> isspace c = false.
Proof.
  induction s as [|a r IH]; simpl; [done|].
  destruct (isspace a) eqn:Ha; [exact IH|]. simpl. by intros [= <-].
Qed.

Lemma lstrip_fixed s :
  (forall c, head s = Some c -> isspace c = false) -> lstrip s = s.
Proof.
  destruct s as [|a r]; [done|]. simpl. intros H. by rewrite (H a eq_refl).
Qed.

Lemma head_rev (s : pystr) : head (rev s) = last s.
Proof.
  induction s as [|a r IH]; [done|]. simpl rev. rewrite last_cons, <- IH.
  by destruct (rev r).
Qed.

Lemma last_rev (s : pystr) : last (rev s) = head s.
Proof. by rewrite <- (rev_involutive s) at 2; rewrite head_rev. Qed.

Lemma rstrip_split s :
  exists ws, s = rstrip s ++ ws /\ forallb isspace ws = true.
Proof.
  destruct (lstrip_split (rev s)) as (ws & Hs & Hws).
  exists (rev ws). split.
  - unfold Text.rstrip. rewrite <- rev_app_distr, <- Hs.
    by rewrite rev_involutive.
  - apply forallb_space, List.Forall_rev. by apply forallb_space.
Qed.

Lemma rstrip_last s c : last (rstrip s) = Some c -> isspace c = false.
Proof. unfold Text.rstrip. rewrite last_rev. apply lstrip_head. Qed.

Lemma rstrip_fixed s :
  (forall c, last s = Some c -> isspace c = false) -> rstrip s = s.
Proof.
  intros H. unfold Text.rstrip. rewrite lstrip_fixed.
  - apply rev_involutive.
  - intros c. rewrite head_rev. apply H.
Qed.

Lemma strip_split s : exists ws1 ws2, trimmed isspace s ws1 (strip s) ws2.
Proof.
  destruct (lstrip_split s) as (ws1 & H1 & Hws1).
  destruct (rstrip_split (lstrip s)) as (ws2 & H2 & Hws2).
  exists ws1, ws2. unfold trimmed. fold (strip s) in H2.
  split; [by rewrite <- H2|]. split; [done|]. split; [done|].
  unfold no_space_at_ends.
  destruct (head (strip s)) as [a|] eqn:Ha; [|done].
  destruct (last (strip s)) as [b|] eqn:Hb; [|done].
  apply rstrip_last in Hb. rewrite Hb.
  assert (Hh : head (lstrip s) = Some a).
  { rewrite H2. by destruct (strip s). }
  apply lstrip_head in Hh. by rewrite Hh.
Qed.

Lemma strip_fixed core : no_space_at_ends isspace core = true -> strip core = core.
Proof.
  unfold no_space_at_ends. intros H.
  destruct core as [|a r]; [done|].
  destruct (last (a :: r)) as [b|] eqn:Hb;
    [|by apply last_None in Hb].
  cbn [head] in H. apply andb_true_iff in H as [Ha Hb'].
  apply negb_true_iff in Ha, Hb'.
  unfold Text.strip. rewrite (lstrip_fixed (a :: r)).
  - apply rstrip_fixed. intros c. rewrite Hb. by intros [= <-].
  - intros c [= <-]. done.
Qed.

Lemma trimmed_strip s ws1 core ws2 :
  trimmed isspace s ws1 core ws2 -> strip s = core.
Proof.
  intros (-> & H1 & H2 & H3).
  rewrite strip_surrounded by by apply forallb_space.
  by apply strip_fixed.
Qed.

(** Collapsing, in the words of [maximal_runs] and [replace_runs]. *)
Lemma sub_runs_in_run run rest :
  forallb (λ c, Bool.eqb (sep c) true) run = true ->
  sub_runs true (run ++ rest) = sub_runs true rest.
Proof.
  induction run as [|c run IH]; [done|].
  cbn [forallb app Text.sub_runs].
  intros H. apply andb_true_iff in H as [Hc Hrun].
  apply Bool.eqb_prop in Hc. rewrite Hc. by apply IH.
Qed.

Lemma sub_runs_sep_run b run rest :
  run <> [] ->
  forallb (λ c, Bool.eqb (sep c) true) run = true ->
  sub_runs b (run ++ rest)
  = (if b then [] else [hyphen]) ++ sub_runs true rest.
Proof.
  destruct run as [|c run]; [done|]. intros _ H. cbn [forallb] in H.
  apply andb_true_iff in H as [Hc Hrun]. apply Bool.eqb_prop in Hc.
  cbn [app Text.sub_runs]. rewrite Hc, sub_runs_in_run by done.
  by destruct b.
Qed.

Lemma sub_runs_out_of_run run rest :
  forallb (λ c, Bool.eqb (sep c) false) run = true ->
  sub_runs false (run ++ rest) = run ++ sub_runs false rest.
Proof.
  induction run as [|c run IH]; [done|].
  cbn [forallb app Text.sub_runs].
  intros H. apply andb_true_iff in H as [Hc Hrun].
  apply Bool.eqb_prop in Hc. rewrite Hc. by rewrite IH.
Qed.

Lemma sub_runs_word_run b run rest :
  run <> [] ->
  forallb (λ c, Bool.eqb (sep c) false) run = true ->
  sub_runs b (run ++ rest) = run ++ sub_runs false rest.
Proof.
  destruct run as [|c run]; [done|]. intros _ H. cbn [forallb] in H.
  apply andb_true_iff in H as [Hc Hrun]. apply Bool.eqb_prop in Hc.
  cbn [app Text.sub_runs]. rewrite Hc. by rewrite sub_runs_out_of_run.
Qed.

Lemma runs_ok_cons prev b run rest :
  runs_ok isspace prev ((b, run) :: rest) = true
  <-> prev <> Some b /\ run <> []
      /\ forallb (λ c, Bool.eqb (sep c) b) run = true
      /\ runs_ok isspace (Some b) rest = true.
Proof.
  cbn [runs_ok]. rewrite !andb_true_iff, !negb_true_iff.
  rewrite !bool_decide_eq_false. tauto.
Qed.

Lemma sub_runs_maximal b prev runs :
  (b = true -> prev = Some true) ->
  runs_ok isspace prev runs = true ->
  sub_runs b (concat (map snd runs)) = replace_runs runs.
Proof.
  revert b prev. induction runs as [|[t run] rest IH]; intros b prev Hb.
  { by destruct b. }
  rewrite runs_ok_cons. intros (Hprev & Hne & Hall & Hrest).
  unfold replace_runs. cbn [map concat fst snd].
  destruct t.
  - rewrite sub_runs_sep_run by done.
    destruct b; [by destruct Hprev; apply Hb|].
    by rewrite (IH true (Some true)).
  - rewrite sub_runs_word_run by done.
    by rewrite (IH false (Some false)).
Qed.

Lemma cut_runs_concat s : concat (map snd (cut_runs isspace s)) = s.
Proof.
  induction s as [|c r IH]; [done|]. cbn [cut_runs].
  destruct (cut_runs isspace r) as [|[b run] rest].
  - simpl in *. by rewrite <- IH.
  - destruct (Bool.eqb b (sep c)); simpl in *; by rewrite IH.
Qed.

Lemma cut_runs_ok s : runs_ok isspace None (cut_runs isspace s) = true.
Proof.
  induction s as [|c r IH]; [done|]. cbn [cut_runs].
  destruct (cut_runs isspace r) as [|[b run] rest].
  - apply runs_ok_cons. split; [done|]. split; [done|]. split; [|done].
    simpl. by rewrite Bool.eqb_reflx.
  - apply runs_ok_cons in IH as (_ & Hne & Hall & Hrest).
    destruct (Bool.eqb b (sep c)) eqn:E.
    + apply Bool.eqb_prop in E. apply runs_ok_cons.
      split; [done|]. split; [done|]. split; [|done].
      simpl. rewrite Hall, <- E. by rewrite Bool.eqb_reflx.
    + apply runs_ok_cons. split; [done|]. split; [done|]. split.
      { simpl. by rewrite Bool.eqb_reflx. }
      apply runs_ok_cons. split; [|done].
      intros [= Heq]. rewrite Heq in E. by rewrite Bool.eqb_reflx in E.
Qed.

(** The stem is the trimmed text with its runs replaced. *)
Lemma stem_runs title ws1 core ws2 runs :
  trimmed isspace (List.filter kept title) ws1 core ws2 ->
  maximal_runs isspace runs core ->
  stem title = replace_runs runs.
Proof.
  intros Ht [Hc Hok]. unfold Text.stem, sub_delete, sub_collapse.
  rewrite (trimmed_strip _ _ _ _ Ht), Hc.
  by apply (sub_runs_maximal false None).
Qed.

Lemma stem_runs_exist title :
  exists ws1 core ws2 runs,
    trimmed isspace (List.filter kept title) ws1 core ws2
    /\ maximal_runs isspace runs core
    /\ stem title = replace_runs runs.
Proof.
  destruct (strip_split (List.filter kept title)) as (ws1 & ws2 & Ht).
  exists ws1, (strip (List.filter kept title)), ws2,
    (cut_runs isspace (strip (List.filter kept title))).
  assert (Hm : maximal_runs isspace
                 (cut_runs isspace (strip (List.filter kept title)))
                 (strip (List.filter kept title))).
  { split; [by rewrite cut_runs_concat | apply cut_runs_ok]. }
  split; [done|]. split; [done|]. by eapply stem_runs.
Qed.

End TextFacts.

(** ** The stride *)

Lemma Qeq_bool_false (x y : Q) : ~ x == y -> Qeq_bool x y = false.
Proof.
  intros H. destruct (Qeq_bool x y) eqn:E; [|done].
  by apply Qeq_bool_eq in E.
Qed.

Lemma Qltb_lt (x y : Q) : Qltb x y = true <-> (x < y)%Q.
Proof.
  unfold Qltb. rewrite negb_true_iff. split.
  - intros H. apply Qnot_le_lt. intros Hle.
    apply Qle_bool_iff in Hle. congruence.
  - intros H. destruct (Qle_bool y x) eqn:E; [|done].
    apply Qle_bool_iff in E. by apply Qlt_not_le in H.
Qed.

Lemma py_int_floor (x : Q) : (0 <= x)%Q -> py_int x = Qfloor x.
Proof.
  destruct x as [n d]. unfold Qle, py_int. simpl. intros H.
  apply Z.quot_div_nonneg; lia.
Qed.

Lemma py_int_inject (z : Z) : py_int (inject_Z z) = z.
Proof. unfold py_int. simpl. apply Z.quot_1_r. Qed.

Lemma effective_fps_pos (fps : Q) : (0 <= fps)%Q -> (0 < effective_fps fps)%Q.
Proof.
  intros H. unfold effective_fps, or_else.
  destruct (Qeq_bool fps 0) eqn:E; [reflexivity|].
  apply Qle_lteq in H as [H | H]; [done|].
  symmetry in H. apply Qeq_eq_bool in H. congruence.
Qed.

Lemma effective_fps_nonzero (fps : Q) :
  ~ fps == 0 -> effective_fps fps = fps.
Proof.
  intros H. unfold effective_fps, or_else. by rewrite Qeq_bool_false.
Qed.

Lemma effective_fps_zero (fps : Q) : fps == 0 -> effective_fps fps = 30%Q.
Proof.
  intros H. unfold effective_fps, or_else.
  by rewrite (Qeq_eq_bool _ _ H).
Qed.

Lemma frame_interval_floor (fps r : Q) :
  (0 <= fps)%Q -> (0 < r)%Q ->
  frame_interval fps r = Some (Z.max 1 (Qfloor (effective_fps fps / r))).
Proof.
  intros Hf Hr. unfold frame_interval.
  rewrite Qeq_bool_false by (intros E; rewrite E in Hr; by apply Qlt_irrefl in Hr).
  assert (H0 : (0 <= effective_fps fps / r)%Q).
  { apply Qle_shift_div_l; [done|]. rewrite Qmult_0_l.
    by apply Qlt_le_weak, effective_fps_pos. }
  rewrite py_int_floor by done.
  assert (Hfl : 0 <= Qfloor (effective_fps fps / r)).
  { change 0 with (Qfloor 0). by apply Qfloor_resp_le. }
  f_equal. destruct (Z.eqb_spec (Qfloor (effective_fps fps / r)) 0); lia.
Qed.

Lemma frame_interval_positive (fps r : Q) (interval : Z) :
  (0 <= fps)%Q -> (0 < r)%Q ->
  frame_interval fps r = Some interval -> 1 <= interval.
Proof.
  intros Hf Hr. rewrite frame_interval_floor by done.
  intros [= <-]. lia.
Qed.

Lemma frame_interval_one (fps : Q) : is_Some (frame_interval fps 1).
Proof. unfold frame_interval. simpl. eauto. Qed.

(** ** The progress formula *)

Lemma analysis_progress_bounds (frame_count total_frames : Z) :
  0 <= frame_count < total_frames ->
  (0 <= analysis_progress frame_count total_frames
   /\ analysis_progress frame_count total_frames < 100)%Q.
Proof.
  intros [H0 H1]. unfold analysis_progress.
  destruct (Z.ltb_spec 0 total_frames); [|lia].
  assert (Ht : (0 < inject_Z total_frames)%Q).
  { change 0%Q with (inject_Z 0). rewrite <- Zlt_Qlt. lia. }
  assert (Hl : (0 <= inject_Z frame_count / inject_Z total_frames)%Q).
  { apply Qle_shift_div_l; [done|]. rewrite Qmult_0_l.
    change 0%Q with (inject_Z 0). rewrite <- Zle_Qle. lia. }
  assert (Hu : (inject_Z frame_count / inject_Z total_frames < 1)%Q).
  { apply Qlt_shift_div_r; [done|]. rewrite Qmult_1_l.
    rewrite <- Zlt_Qlt. lia. }
  split; lra.
Qed.

Lemma analysis_progress_below (frame_count total_frames : Z) :
  frame_count < total_frames ->
  (analysis_progress frame_count total_frames < 100)%Q.
Proof.
  intros H1. unfold analysis_progress.
  destruct (Z.ltb_spec 0 total_frames); [|reflexivity].
  assert (Ht : (0 < inject_Z total_frames)%Q).
  { change 0%Q with (inject_Z 0). rewrite <- Zlt_Qlt. lia. }
  assert (Hu : (inject_Z frame_count / inject_Z total_frames < 1)%Q).
  { apply Qlt_shift_div_r; [done|]. rewrite Qmult_1_l.
    rewrite <- Zlt_Qlt. lia. }
  lra.
Qed.

Lemma analysis_progress_mono (a b total_frames : Z) :
  0 < total_frames -> a < b ->
  (analysis_progress a total_frames < analysis_progress b total_frames)%Q.
Proof.
  intros Ht Hab. unfold analysis_progress.
  destruct (Z.ltb_spec 0 total_frames); [|lia].
  assert (HT : (0 < inject_Z total_frames)%Q).
  { change 0%Q with (inject_Z 0). rewrite <- Zlt_Qlt. lia. }
  assert (Hd : (inject_Z a / inject_Z total_frames
                < inject_Z b / inject_Z total_frames)%Q).
  { unfold Qdiv. apply Qmult_lt_compat_r.
    - by apply Qinv_lt_0_compat.
    - rewrite <- Zlt_Qlt. lia. }
  lra.
Qed.

(** ** The sampling loop *)

Section LoopFacts.

Context {Frame Hist : Type}.
Variable calc_hist : Frame -> Hist.
Variable compareHist : Hist -> Hist -> Q.
Variable cap : VideoCapture Frame.
Variable job_id : string.
Variable threshold : Q.
Variable interval : Z.
Variable total_frames : Z.

Local Abbreviation loop :=
  (gen_loop calc_hist compareHist cap job_id threshold interval total_frames).
Local Abbreviation write := (analysis_write job_id total_frames).
Local Abbreviation apply := (apply_write job_id).
Local Abbreviation detect := (step4 compareHist threshold).

(** What a finished loop tells about its first iteration. *)
Lemma gen_loop_inv fuel lg ph fc js its lg' js' :
  loop fuel lg ph fc js = Some (its, lg', js') ->
  match its with
  | [] => lg' = lg /\ js' = js
          /\ (total_frames <= fc \/ read_at cap fc = None)
  | it :: rest =>
      exists fuel',
        fuel = S fuel'
        /\ fc < total_frames
        /\ read_at cap fc = Some (it_frame it)
        /\ it_index it = fc
        /\ it_written it = write fc js
        /\ it_emitted it = detect lg ph (calc_hist (it_frame it))
        /\ loop fuel' (Some (it_frame it)) (Some (calc_hist (it_frame it)))
                (fc + interval) (apply (it_written it) js)
           = Some (rest, lg', js')
  end.
Proof.
  destruct fuel as [|fuel]; simpl; [done|].
  destruct (Z.ltb_spec fc total_frames) as [Hlt | Hge].
  - destruct (read_at cap fc) as [frame|] eqn:Hread.
    + destruct (loop fuel _ _ _ _) as [[[rest lg0] js0]|] eqn:Hrec; [|done].
      intros [= <- <- <-]. exists fuel. simpl. eauto 10.
    + intros [= <- <- <-]. eauto.
  - intros [= <- <- <-]. split; [done|]. split; [done|]. left. lia.
Qed.

(** The loop is left as soon as the index passes the frame count. *)
Lemma gen_loop_exits fuel lg ph fc js :
  1 <= interval ->
  (Z.to_nat (total_frames - fc) < fuel)%nat ->
  is_Some (loop fuel lg ph fc js).
Proof.
  intros Hi. revert lg ph fc js.
  induction fuel as [|fuel IH]; intros lg ph fc js Hf; [lia|].
  simpl. destruct (Z.ltb_spec fc total_frames) as [Hlt | Hge]; [|eauto].
  destruct (read_at cap fc) as [frame|]; [|eauto].
  destruct (IH (Some frame) (Some (calc_hist frame)) (fc + interval)
               (apply (write fc js) js)) as [[[rest lg0] js0] ->];
    [lia | eauto].
Qed.

(** Indices advance by the stride, and each iteration holds the frame
    read at its index. *)
Lemma gen_loop_index fuel lg ph fc js its lg' js' (k : nat) it :
  loop fuel lg ph fc js = Some (its, lg', js') ->
  its !! k = Some it ->
  it_index it = fc + Z.of_nat k * interval
  /\ it_index it < total_frames
  /\ read_at cap (it_index it) = Some (it_frame it).
Proof.
  revert fuel lg ph fc js k. induction its as [|it0 rest IH];
    intros fuel lg ph fc js k Hloop Hk; [done|].
  apply gen_loop_inv in Hloop
    as (fuel' & -> & Hlt & Hread & Hidx & Hw & He & Hrec).
  destruct k as [|k]; simpl in Hk.
  - injection Hk as ->. rewrite Hidx. split_and!; [lia | done | done].
  - destruct (IH _ _ _ _ _ _ Hrec Hk) as (H1 & H2 & H3).
    split_and!; [lia | done | done].
Qed.

(** Why the loop stopped where it did. *)
Lemma gen_loop_stop fuel lg ph fc js its lg' js' :
  loop fuel lg ph fc js = Some (its, lg', js') ->
  let next := fc + Z.of_nat (length its) * interval in
  total_frames <= next \/ read_at cap next = None.
Proof.
  revert fuel lg ph fc js. induction its as [|it0 rest IH];
    intros fuel lg ph fc js Hloop.
  - apply gen_loop_inv in Hloop as (_ & _ & H). intros next.
    by replace next with fc by (subst next; simpl; lia).
  - apply gen_loop_inv in Hloop
      as (fuel' & -> & Hlt & Hread & Hidx & Hw & He & Hrec).
    specialize (IH _ _ _ _ _ Hrec). simpl in IH. intros next.
    by replace next
      with (fc + interval + Z.of_nat (length rest) * interval)
      by (subst next; cbn [length]; lia).
Qed.

(** Line 97 at the first iteration of a loop, and at a later one. *)
Lemma gen_loop_emit_first fuel lg ph fc js its lg' js' it :
  loop fuel lg ph fc js = Some (its, lg', js') ->
  its !! 0%nat = Some it ->
  it_emitted it = detect lg ph (calc_hist (it_frame it)).
Proof.
  intros Hloop Hk. destruct its as [|it0 rest]; [done|].
  apply gen_loop_inv in Hloop
    as (fuel' & -> & Hlt & Hread & Hidx & Hw & He & Hrec).
  by injection Hk as ->.
Qed.

Lemma gen_loop_emit_next fuel lg ph fc js its lg' js' (k : nat) held it :
  loop fuel lg ph fc js = Some (its, lg', js') ->
  its !! k = Some held ->
  its !! S k = Some it ->
  it_emitted it
  = detect (Some (it_frame held)) (Some (calc_hist (it_frame held)))
           (calc_hist (it_frame it)).
Proof.
  revert fuel lg ph fc js k. induction its as [|it0 rest IH];
    intros fuel lg ph fc js k Hloop Hk HSk; [done|].
  apply gen_loop_inv in Hloop
    as (fuel' & -> & Hlt & Hread & Hidx & Hw & He & Hrec).
  destruct k as [|k]; simpl in Hk, HSk.
  - injection Hk as ->. by eapply gen_loop_emit_first.
  - by eapply IH.
Qed.

(** Line 103: the held frame is the last one read. *)
Lemma gen_loop_held fuel lg ph fc js its lg' js' :
  loop fuel lg ph fc js = Some (its, lg', js') ->
  lg' = match last its with
        | Some it => Some (it_frame it)
        | None => lg
        end.
Proof.
  revert fuel lg ph fc js. induction its as [|it0 rest IH];
    intros fuel lg ph fc js Hloop.
  - by apply gen_loop_inv in Hloop as (-> & _).
  - apply gen_loop_inv in Hloop
      as (fuel' & -> & Hlt & Hread & Hidx & Hw & He & Hrec).
    rewrite (IH _ _ _ _ _ Hrec), last_cons. by destruct (last rest).
Qed.

(** The job store: records are updated in place, never added. *)
Lemma apply_write_lookup v js id :
  apply v js !! id
  = match v with
    | Some x => if decide (job_id = id)
                then analysis_update x <$> js !! id
                else js !! id
    | None => js !! id
    end.
Proof.
  destruct v as [x|]; simpl; [|done]. rewrite lookup_alter.
  by case_decide; subst.
Qed.

Lemma apply_write_present v js :
  is_Some (apply v js !! job_id) <-> is_Some (js !! job_id).
Proof.
  rewrite apply_write_lookup. destruct v; [|done].
  rewrite decide_True by done. by rewrite fmap_is_Some.
Qed.

Lemma gen_loop_written fuel lg ph fc js its lg' js' (k : nat) it :
  loop fuel lg ph fc js = Some (its, lg', js') ->
  its !! k = Some it ->
  it_written it = write (it_index it) js.
Proof.
  revert fuel lg ph fc js k. induction its as [|it0 rest IH];
    intros fuel lg ph fc js k Hloop Hk; [done|].
  apply gen_loop_inv in Hloop
    as (fuel' & -> & Hlt & Hread & Hidx & Hw & He & Hrec).
  destruct k as [|k]; simpl in Hk.
  - injection Hk as ->. by rewrite Hidx.
  - rewrite (IH _ _ _ _ _ _ Hrec Hk). unfold analysis_write.
    destruct (apply_write_present (it_written it0) js) as [H1 H2].
    destruct (js !! job_id) eqn:E1, (apply (it_written it0) js !! job_id)
      eqn:E2; try done.
    + exfalso. by destruct H2 as [? [=]].
    + exfalso. by destruct H1 as [? [=]].
Qed.

(** Any property of the store that every assignment of line 85 keeps is
    kept by the loop. *)
Lemma gen_loop_store (P : gmap string job -> Prop)
    fuel lg ph fc js its lg' js' :
  (forall fc js, fc < total_frames -> P js -> P (apply (write fc js) js)) ->
  loop fuel lg ph fc js = Some (its, lg', js') ->
  P js -> P js'.
Proof.
  intros HP. revert fuel lg ph fc js. induction its as [|it0 rest IH];
    intros fuel lg ph fc js Hloop Hjs.
  - by apply gen_loop_inv in Hloop as (_ & -> & _).
  - apply gen_loop_inv in Hloop
      as (fuel' & -> & Hlt & Hread & Hidx & Hw & He & Hrec).
    eapply IH; [exact Hrec|]. rewrite Hw. by apply HP.
Qed.

(** The values line 85 assigns, in order. *)
Lemma gen_loop_writes fuel lg ph fc js its lg' js' :
  loop fuel lg ph fc js = Some (its, lg', js') ->
  omap it_written its
  = match js !! job_id with
    | Some _ =>
        map (λ it, 50 + analysis_progress (it_index it) total_frames / 2)%Q
            its
    | None => []
    end.
Proof.
  revert fuel lg ph fc js. induction its as [|it0 rest IH];
    intros fuel lg ph fc js Hloop.
  { by destruct (js !! job_id). }
  apply gen_loop_inv in Hloop
    as (fuel' & -> & Hlt & Hread & Hidx & Hw & He & Hrec).
  change (omap it_written (it0 :: rest))
    with (match it_written it0 with
          | Some y => y :: omap it_written rest
          | None => omap it_written rest
          end).
  rewrite (IH _ _ _ _ _ Hrec).
  destruct (apply_write_present (it_written it0) js) as [H1 H2].
  rewrite Hw in *. unfold analysis_write in *.
  destruct (js !! job_id) as [j|] eqn:E.
  - destruct H2 as [j' ->]; [by eauto|]. cbn [map]. by rewrite Hidx.
  - destruct (apply None js !! job_id) eqn:E'; [|done].
    by destruct H1 as [? [=]].
Qed.

End LoopFacts.

(** ** The generator *)

Section GeneratorFacts.

Context {Frame Hist : Type}.
Variable calc_hist : Frame -> Hist.
Variable compareHist : Hist -> Hist -> Q.

Local Abbreviation generator :=
  (frames_to_pdf_generator calc_hist compareHist).

(** A finished run is either that of a capture that did not open or a
    finished loop started with nothing held. *)
Lemma generator_done cap job_id r t js run :
  generator cap job_id r t js = GenDone run ->
  (isOpened cap = false /\ run = GenRun [] None js)
  \/ (isOpened cap = true
      /\ exists interval fuel,
           frame_interval (CAP_PROP_FPS cap) r = Some interval
           /\ gen_loop calc_hist compareHist cap job_id t interval
                (py_int (CAP_PROP_FRAME_COUNT cap)) fuel None None 0 js
              = Some (iterations run, flushed run, jobs_after run)).
Proof.
  unfold frames_to_pdf_generator.
  destruct (isOpened cap); cbn [negb]; [|intros [= <-]; by left].
  destruct (frame_interval _ r) as [interval|]; [|done]. cbv zeta.
  destruct (gen_loop calc_hist compareHist cap job_id t interval _ _
              None None 0 js) as [[[its lg] js']|] eqn:E; [|done].
  intros [= <-]. right. split; [done|]. eauto.
Qed.

(** With a frame rate that is not negative and a positive sampling rate
    the generator finishes. *)
Lemma generator_finishes cap job_id r t js :
  (0 <= CAP_PROP_FPS cap)%Q -> (0 < r)%Q ->
  exists run, generator cap job_id r t js = GenDone run.
Proof.
  intros Hf Hr. unfold frames_to_pdf_generator.
  destruct (isOpened cap); cbn [negb]; [|eauto].
  rewrite frame_interval_floor by done. cbv zeta.
  set (total := py_int (CAP_PROP_FRAME_COUNT cap)).
  destruct (gen_loop_exits calc_hist compareHist cap job_id t
              (Z.max 1 (Qfloor (effective_fps (CAP_PROP_FPS cap) / r)))
              total (S (Z.to_nat total)) None None 0 js)
    as [[[its lg] js'] ->]; [lia | | eauto].
  replace (total - 0) with total by lia. lia.
Qed.

Lemma generator_index cap job_id r t js run interval (k : nat) it :
  generator cap job_id r t js = GenDone run ->
  frame_interval (CAP_PROP_FPS cap) r = Some interval ->
  iterations run !! k = Some it ->
  it_index it = Z.of_nat k * interval
  /\ read_at cap (it_index it) = Some (it_frame it).
Proof.
  intros Hrun Hi Hk.
  apply generator_done in Hrun
    as [[_ ->] | (_ & i & fuel & Hi' & Hloop)]; [done|].
  rewrite Hi in Hi'. injection Hi' as <-.
  destruct (gen_loop_index _ _ _ _ _ _ _ _ _ _ _ _ _ _ _ _ _ Hloop Hk)
    as (H1 & _ & H3).
  split; [lia | done].
Qed.

Lemma step4_nothing_held t (h : Hist) :
  step4 compareHist t (@None Frame) None h = None.
Proof. reflexivity. Qed.

Lemma step4_held t (held : Frame) (h : Hist) :
  step4 compareHist t (Some held) (Some (calc_hist held)) h
  = if Qltb (compareHist (calc_hist held) h) t then Some held else None.
Proof. reflexivity. Qed.

(** Line 97 along a finished run. *)
Lemma generator_first_silent cap job_id r t js run it :
  generator cap job_id r t js = GenDone run ->
  iterations run !! 0%nat = Some it ->
  it_emitted it = None.
Proof.
  intros Hrun Hk.
  apply generator_done in Hrun
    as [[_ ->] | (_ & i & fuel & _ & Hloop)]; [done|].
  by rewrite (gen_loop_emit_first _ _ _ _ _ _ _ _ _ _ _ _ _ _ _ _
                Hloop Hk).
Qed.

Lemma generator_emit cap job_id r t js run (k : nat) held it :
  generator cap job_id r t js = GenDone run ->
  iterations run !! k = Some held ->
  iterations run !! S k = Some it ->
  it_emitted it
  = if Qltb (compareHist (calc_hist (it_frame held))
                         (calc_hist (it_frame it))) t
    then Some (it_frame held) else None.
Proof.
  intros Hrun Hk HSk.
  apply generator_done in Hrun
    as [[_ ->] | (_ & i & fuel & _ & Hloop)]; [done|].
  by rewrite (gen_loop_emit_next _ _ _ _ _ _ _ _ _ _ _ _ _ _ _ _ _ _
                Hloop Hk HSk).
Qed.

Lemma last_map {A B} (f : A -> B) (l : list A) :
  last (map f l) = f <$> last l.
Proof.
  induction l as [|x l IH]; [done|]. cbn [map]. rewrite !last_cons, IH.
  by destruct (last l).
Qed.

(** Line 104 along a finished run. *)
Lemma generator_flush cap job_id r t js run :
  generator cap job_id r t js = GenDone run ->
  flushed run = last (sampled run).
Proof.
  intros Hrun. unfold sampled.
  apply generator_done in Hrun
    as [[_ ->] | (_ & i & fuel & _ & Hloop)]; [done|].
  rewrite (gen_loop_held _ _ _ _ _ _ _ _ _ _ _ _ _ _ _ Hloop).
  rewrite last_map. by destruct (last (iterations run)).
Qed.

Lemma omap_length {A B} (f : A -> option B) (l : list A) :
  (length (omap f l) <= length l)%nat.
Proof.
  induction l as [|x l IH]; [done|].
  change (omap f (x :: l))
    with (match f x with Some y => y :: omap f l | None => omap f l end).
  destruct (f x); cbn [length]; lia.
Qed.

Lemma generator_emitted_length cap job_id r t js run :
  generator cap job_id r t js = GenDone run ->
  (length (emitted run) <= length (sampled run))%nat.
Proof.
  intros Hrun. unfold emitted, sampled.
  rewrite length_app, length_map, (generator_flush _ _ _ _ _ _ Hrun).
  unfold sampled. rewrite last_map.
  destruct (iterations run) as [|it0 rest] eqn:E; [simpl; lia|].
  cbn [length].
  assert (H0 : it_emitted it0 = None).
  { eapply generator_first_silent; [exact Hrun|]. by rewrite E. }
  change (omap it_emitted (it0 :: rest))
    with (match it_emitted it0 with
          | Some y => y :: omap it_emitted rest
          | None => omap it_emitted rest
          end).
  rewrite H0.
  pose proof (omap_length it_emitted rest).
  rewrite last_cons. destruct (last rest); simpl; lia.
Qed.

(** What the capture decides about the sampled frames: whether there is
    one, which one comes first, and when it stays alone. *)
Lemma generator_sampled_nil cap job_id r t js run :
  generator cap job_id r t js = GenDone run ->
  sampled run = [] <-> no_frame cap.
Proof.
  intros Hrun. unfold sampled, no_frame.
  apply generator_done in Hrun as [[Ho ->] | (Ho & i & fuel & _ & Hloop)].
  { simpl. split; [by left | done]. }
  apply gen_loop_inv in Hloop.
  destruct (iterations run) as [|it rest]; simpl.
  - destruct Hloop as (_ & _ & Hstop). split; [|done]. intros _. by right.
  - destruct Hloop as (fuel' & _ & Hlt & Hread & _). split; [done|].
    intros [H | [H | H]]; [congruence | lia | congruence].
Qed.

Lemma generator_sampled_first cap job_id r t js run f :
  generator cap job_id r t js = GenDone run ->
  isOpened cap = true ->
  0 < py_int (CAP_PROP_FRAME_COUNT cap) ->
  read_at cap 0 = Some f ->
  head (sampled run) = Some f.
Proof.
  intros Hrun Ho Ht Hf.
  apply generator_done in Hrun
    as [[Ho' _] | (_ & i & fuel & _ & Hloop)]; [congruence|].
  apply gen_loop_inv in Hloop. unfold sampled.
  destruct (iterations run) as [|it rest].
  - destruct Hloop as (_ & _ & [H | H]); [lia | congruence].
  - destruct Hloop as (fuel' & _ & _ & Hread & _). simpl. congruence.
Qed.

Lemma generator_sampled_single cap job_id r t js run f stride :
  generator cap job_id r t js = GenDone run ->
  isOpened cap = true ->
  0 < py_int (CAP_PROP_FRAME_COUNT cap) ->
  read_at cap 0 = Some f ->
  frame_interval (CAP_PROP_FPS cap) r = Some stride ->
  py_int (CAP_PROP_FRAME_COUNT cap) <= stride \/ read_at cap stride = None ->
  sampled run = [f].
Proof.
  intros Hrun Ho Ht Hf Hi Hgap.
  apply generator_done in Hrun
    as [[Ho' _] | (_ & i & fuel & Hi' & Hloop)]; [congruence|].
  rewrite Hi in Hi'. injection Hi' as <-.
  apply gen_loop_inv in Hloop. unfold sampled.
  destruct (iterations run) as [|it rest].
  - destruct Hloop as (_ & _ & [H | H]); [lia | congruence].
  - destruct Hloop as (fuel' & _ & _ & Hread & _ & _ & _ & Hrec).
    apply gen_loop_inv in Hrec. rewrite Z.add_0_l in Hrec.
    destruct rest as [|it2 rest].
    + simpl. f_equal. congruence.
    + destruct Hrec as (fuel'' & _ & Hlt & Hread2 & _).
      destruct Hgap; [lia | congruence].
Qed.

(** Line 104 after a frame was sampled, and after exactly one was. *)
Lemma generator_flush_last cap job_id r t js run :
  generator cap job_id r t js = GenDone run ->
  sampled run <> [] ->
  (1 <= length (emitted run))%nat
  /\ exists f, flushed run = Some f /\ last (sampled run) = Some f
               /\ last (emitted run) = Some f.
Proof.
  intros Hrun Hne.
  pose proof (generator_flush _ _ _ _ _ _ Hrun) as Hflush.
  destruct (last (sampled run)) as [f|] eqn:Hlast.
  - unfold emitted. rewrite Hflush. simpl. rewrite length_app. simpl.
    split; [lia|]. exists f. split; [done|]. split; [done|].
    by rewrite last_snoc.
  - by apply last_None in Hlast.
Qed.

Lemma generator_single_frame cap job_id r t js run f :
  generator cap job_id r t js = GenDone run ->
  sampled run = [f] ->
  emitted run = [f] /\ flushed run = Some f
  /\ omap it_emitted (iterations run) = [].
Proof.
  intros Hrun Hone.
  pose proof (generator_flush _ _ _ _ _ _ Hrun) as Hflush.
  unfold emitted. rewrite Hflush, Hone. simpl.
  unfold sampled in Hone.
  destruct (iterations run) as [|it0 [|it1 rest]] eqn:E; try done.
  assert (H0 : it_emitted it0 = None).
  { eapply generator_first_silent; [exact Hrun|]. by rewrite E. }
  change (omap it_emitted [it0])
    with (match it_emitted it0 with Some y => [y] | None => [] end).
  by rewrite H0.
Qed.

End GeneratorFacts.

(** ** Scene detection: C1 and C2 *)

(** C1.  In a finished run of the generator, an iteration yields a frame at
    line 97 only if it is not the first one and the correlation between the
    histogram of the frame of the iteration before it and the histogram of
    its own frame is below the threshold; the frame it yields is the frame
    of that earlier iteration, the one held in [last_good_frame], not its
    own. *)
Theorem C1_step4_emits_held_frame {Frame Hist : Type}
    (calc_hist : Frame -> Hist) (compareHist : Hist -> Hist -> Q)
    (cap : VideoCapture Frame) (job_id : string) (r t : Q)
    (js : gmap string job) (run : gen_run Frame)
    (k : nat) (it : iteration Frame) (g : Frame) :
  frames_to_pdf_generator calc_hist compareHist cap job_id r t js
  = GenDone run ->
  iterations run !! k = Some it ->
  it_emitted it = Some g ->
  exists (k' : nat) (held : iteration Frame),
    k = S k'
    /\ iterations run !! k' = Some held
    /\ g = it_frame held
    /\ (compareHist (calc_hist (it_frame held)) (calc_hist (it_frame it))
        < t)%Q.
Proof.
  intros Hrun Hk Hg. destruct k as [|k'].
  - rewrite (generator_first_silent _ _ _ _ _ _ _ _ _ Hrun Hk) in Hg.
    discriminate.
  - destruct (lookup_lt_is_Some_2 (iterations run) k') as [held Hheld].
    { apply lookup_lt_Some in Hk. lia. }
    exists k', held. split; [done|]. split; [done|].
    rewrite (generator_emit _ _ _ _ _ _ _ _ _ _ _ Hrun Hheld Hk) in Hg.
    destruct (Qltb _ t) eqn:Hlt; [|discriminate].
    injection Hg as <-. split; [done|]. by apply Qltb_lt.
Qed.

Lemma C1_step4_emits_held_frame_witness :
  exists (k' : nat) (held : iteration nat),
    2%nat = S k'
    /\ iterations (Demo.run_of Demo.talk) !! k' = Some held
    /\ 1%nat = it_frame held
    /\ (Demo.compareHist (Demo.calc_hist (it_frame held)) (Demo.calc_hist 2%nat)
        < 7 # 10)%Q.
Proof.
  apply (C1_step4_emits_held_frame Demo.calc_hist Demo.compareHist Demo.talk
           "j" 1 (7 # 10) Demo.one_job (Demo.run_of Demo.talk) 2
           (Iteration 60 2%nat (Some (15000 # 180)) (Some 1%nat)) 1%nat);
    vm_compute; reflexivity.
Defined.

(** C2.  The generator finishes, and the frames it yields are at most as
    many as the frames it sampled.  It samples no frame exactly when the
    capture did not open, announces no frame or fails at its first read.
    When the capture opened, announces a frame and gives one at index 0,
    that frame is the first sampled one, line 104 yields the last sampled
    frame, and so at least one frame is yielded.  When, moreover, the next
    index, one stride further, is not below the frame count or cannot be
    read, that frame is the only sampled one, and it is yielded exactly
    once, by line 104, line 97 yielding nothing.  The last two statements
    hold of every run by what it sampled: a run that sampled a frame
    yields its last sampled frame at line 104, and a run that sampled
    exactly one frame yields exactly that frame, at line 104. *)
Theorem C2_emitted_length {Frame Hist : Type}
    (calc_hist : Frame -> Hist) (compareHist : Hist -> Hist -> Q)
    (cap : VideoCapture Frame) (job_id : string) (r t : Q)
    (js : gmap string job) :
  (0 <= CAP_PROP_FPS cap)%Q -> (0 < r)%Q ->
  exists run,
    frames_to_pdf_generator calc_hist compareHist cap job_id r t js
    = GenDone run
    /\ (length (emitted run) <= length (sampled run))%nat
    /\ (sampled run = [] <-> no_frame cap)
    /\ (forall f,
          isOpened cap = true ->
          0 < py_int (CAP_PROP_FRAME_COUNT cap) ->
          read_at cap 0 = Some f ->
          head (sampled run) = Some f
          /\ (1 <= length (emitted run))%nat
          /\ exists g, flushed run = Some g /\ last (sampled run) = Some g
                       /\ last (emitted run) = Some g)
    /\ (forall f stride,
          isOpened cap = true ->
          0 < py_int (CAP_PROP_FRAME_COUNT cap) ->
          read_at cap 0 = Some f ->
          frame_interval (CAP_PROP_FPS cap) r = Some stride ->
          py_int (CAP_PROP_FRAME_COUNT cap) <= stride
          \/ read_at cap stride = None ->
          sampled run = [f]
          /\ emitted run = [f] /\ flushed run = Some f
          /\ omap it_emitted (iterations run) = [])
    /\ (sampled run <> [] ->
        (1 <= length (emitted run))%nat
        /\ exists f, flushed run = Some f /\ last (sampled run) = Some f
                     /\ last (emitted run) = Some f)
    /\ (forall f, sampled run = [f] ->
        emitted run = [f] /\ flushed run = Some f
        /\ omap it_emitted (iterations run) = []).
Proof.
  intros Hf Hr.
  destruct (generator_finishes calc_hist compareHist cap job_id r t js Hf Hr)
    as [run Hrun].
  exists run. split; [done|].
  split; [by eapply generator_emitted_length|].
  split; [by eapply generator_sampled_nil|]. split.
  { intros f Ho Ht Hread.
    pose proof (generator_sampled_first _ _ _ _ _ _ _ _ _ Hrun Ho Ht Hread)
      as Hhead.
    split; [done|]. eapply generator_flush_last; [exact Hrun|].
    intros E. by rewrite E in Hhead. }
  split.
  { intros f stride Ho Ht Hread Hi Hgap.
    pose proof (generator_sampled_single _ _ _ _ _ _ _ _ _ _ Hrun Ho Ht
                  Hread Hi Hgap) as Hone.
    split; [done|]. by eapply generator_single_frame. }
  split; [by eapply generator_flush_last|].
  intros f. by eapply generator_single_frame.
Qed.

Lemma C2_emitted_length_witness :
  exists run,
    frames_to_pdf_generator Demo.calc_hist Demo.compareHist Demo.still
      "j" 1 (7 # 10) Demo.one_job = GenDone run
    /\ sampled run = [7%nat]
    /\ emitted run = [7%nat] /\ flushed run = Some 7%nat
    /\ omap it_emitted (iterations run) = [].
Proof.
  destruct (C2_emitted_length Demo.calc_hist Demo.compareHist Demo.still
              "j" 1 (7 # 10) Demo.one_job)
    as (run & Hrun & _ & _ & _ & Hsingle & _); [discriminate | reflexivity |].
  exists run. split; [exact Hrun|].
  apply (Hsingle 7%nat 25);
    [reflexivity | reflexivity | reflexivity | reflexivity |].
  left. vm_compute. discriminate.
Defined.

(** Scenarios A and B of the specification on the small instance: frames
    that do not change give one frame, by the flush; a change of slide
    gives the held frame and then the flush. *)
Example still_emits_once : emitted (Demo.run_of Demo.still) = [7%nat].
Proof. reflexivity. Qed.

Example talk_emits_both : emitted (Demo.run_of Demo.talk) = [1%nat; 2%nat].
Proof. reflexivity. Qed.

(** ** The stride: C8 and C9 *)

(** C8, the claim as it stands, at a reported frame rate of 0 and a
    sampling rate of 1: the stride of the code is 30, the floor of 0 / 1
    raised to the minimum of 1 is 1. *)
Lemma C8_counterexample_zero_rate :
  frame_interval 0 1 = Some 30 /\ Z.max 1 (Qfloor (0 / 1)) = 1.
Proof. split; reflexivity. Qed.

(** C8, amended.  For a reported frame rate above 0 and a sampling rate
    above 0 the stride is the floor of their quotient, or 1 when that
    floor is 0; the generator finishes, and its [k]-th iteration reads the
    frame at index [k] times the stride, starting at 0. *)
Theorem C8_stride {Frame Hist : Type}
    (calc_hist : Frame -> Hist) (compareHist : Hist -> Hist -> Q)
    (cap : VideoCapture Frame) (job_id : string) (r t : Q)
    (js : gmap string job) :
  (0 < CAP_PROP_FPS cap)%Q -> (0 < r)%Q ->
  let stride := Z.max 1 (Qfloor (CAP_PROP_FPS cap / r)) in
  frame_interval (CAP_PROP_FPS cap) r = Some stride
  /\ exists run,
       frames_to_pdf_generator calc_hist compareHist cap job_id r t js
       = GenDone run
       /\ forall (k : nat) it,
            iterations run !! k = Some it ->
            it_index it = Z.of_nat k * stride
            /\ read_at cap (it_index it) = Some (it_frame it).
Proof.
  intros Hf Hr stride.
  assert (Hi : frame_interval (CAP_PROP_FPS cap) r = Some stride).
  { rewrite frame_interval_floor by (done || by apply Qlt_le_weak).
    rewrite effective_fps_nonzero; [done|].
    intros E. rewrite E in Hf. by apply Qlt_irrefl in Hf. }
  split; [done|].
  destruct (generator_finishes calc_hist compareHist cap job_id r t js)
    as [run Hrun]; [by apply Qlt_le_weak | done |].
  exists run. split; [done|]. intros k it Hk.
  by eapply generator_index.
Qed.

Lemma C8_stride_witness :
  frame_interval 30 1 = Some (Z.max 1 (Qfloor (30 / 1)))
  /\ exists run,
       frames_to_pdf_generator Demo.calc_hist Demo.compareHist Demo.talk
         "j" 1 (7 # 10) Demo.one_job = GenDone run
       /\ forall (k : nat) it,
            iterations run !! k = Some it ->
            it_index it = Z.of_nat k * Z.max 1 (Qfloor (30 / 1))
            /\ read_at Demo.talk (it_index it) = Some (it_frame it).
Proof.
  apply (C8_stride Demo.calc_hist Demo.compareHist Demo.talk
           "j" 1 (7 # 10) Demo.one_job); reflexivity.
Defined.

(** C9.  When the capture reports a frame rate of 0, line 66 takes 30 in
    its place; at the sampling rate of 1 that [create_pdf_task] passes the
    stride is then 30, and the generator reads the frames at the indices
    0, 30, 60, ... *)
Theorem C9_no_frame_rate {Frame Hist : Type}
    (calc_hist : Frame -> Hist) (compareHist : Hist -> Hist -> Q)
    (cap : VideoCapture Frame) (job_id : string) (t : Q)
    (js : gmap string job) :
  CAP_PROP_FPS cap == 0 ->
  effective_fps (CAP_PROP_FPS cap) = 30%Q
  /\ frame_interval (CAP_PROP_FPS cap) 1 = Some 30
  /\ exists run,
       frames_to_pdf_generator calc_hist compareHist cap job_id 1 t js
       = GenDone run
       /\ forall (k : nat) it,
            iterations run !! k = Some it ->
            it_index it = 30 * Z.of_nat k
            /\ read_at cap (it_index it) = Some (it_frame it).
Proof.
  intros H0.
  assert (He : effective_fps (CAP_PROP_FPS cap) = 30%Q)
    by by apply effective_fps_zero.
  assert (Hi : frame_interval (CAP_PROP_FPS cap) 1 = Some 30).
  { unfold frame_interval. by rewrite He. }
  split; [done|]. split; [done|].
  destruct (generator_finishes calc_hist compareHist cap job_id 1 t js)
    as [run Hrun]; [by rewrite H0 | done |].
  exists run. split; [done|]. intros k it Hk.
  destruct (generator_index _ _ _ _ _ _ _ _ _ _ _ Hrun Hi Hk) as [H1 H2].
  split; [lia | done].
Qed.

Lemma C9_no_frame_rate_witness :
  effective_fps (CAP_PROP_FPS Demo.talk_no_fps) = 30%Q
  /\ frame_interval (CAP_PROP_FPS Demo.talk_no_fps) 1 = Some 30
  /\ exists run,
       frames_to_pdf_generator Demo.calc_hist Demo.compareHist
         Demo.talk_no_fps "j" 1 (7 # 10) Demo.one_job = GenDone run
       /\ forall (k : nat) it,
            iterations run !! k = Some it ->
            it_index it = 30 * Z.of_nat k
            /\ read_at Demo.talk_no_fps (it_index it) = Some (it_frame it).
Proof.
  apply (C9_no_frame_rate Demo.calc_hist Demo.compareHist Demo.talk_no_fps
           "j" (7 # 10) Demo.one_job); reflexivity.
Defined.

(** ** The display filename: C3 *)

(** C3, the claim as it stands, at the title [a_b]: the code keeps the
    underscore, which [\w] matches, where the words of the claim delete
    every code point that is not alphanumeric, whitespace or hyphen. *)
Lemma C3_counterexample_underscore :
  safe_filename ascii_alnum ascii_space (lit "a_b") = lit "a_b.pdf"
  /\ spec_filename ascii_alnum ascii_space (lit "a_b") = lit "ab.pdf"
  /\ safe_filename ascii_alnum ascii_space (lit "a_b")
     <> spec_filename ascii_alnum ascii_space (lit "a_b").
Proof. split; [reflexivity|]. split; [reflexivity|]. discriminate. Qed.

(** The order of trimming and collapsing matters as well: the code trims
    first. *)
Example trim_before_collapse :
  safe_filename ascii_alnum ascii_space (lit " a ") = lit "a.pdf"
  /\ spec_filename ascii_alnum ascii_space (lit " a ") = lit "-a-.pdf".
Proof. split; reflexivity. Qed.

(** Line 162 tests the name after line 161 has appended the extension, so
    the default name is never taken. *)
Example only_punctuation_gives_extension :
  safe_filename ascii_alnum ascii_space (lit "!!!") = lit ".pdf".
Proof. reflexivity. Qed.

(** C3, amended.  For a title of which something is left, the filename is
    a stem followed by [.pdf].  The stem is what these three steps give:
    delete every code point that is not a word character (alphanumeric or
    underscore), whitespace or a hyphen; trim the whitespace at both ends;
    cut what is left into its maximal runs and replace every run of
    whitespace and hyphens by one hyphen.  Such a trimming and such a
    cutting exist, and whichever one takes, the result is the stem.  It
    follows that every code point of the stem is a hyphen or a word
    character of the title that is neither whitespace nor a hyphen, that
    the stem has no two hyphens in a row, that its word characters are
    those of the title, in order, and that whitespace around the title
    changes nothing. *)
Theorem C3_safe_filename (isalnum isspace : N -> bool) (title : pystr) :
  stem isalnum isspace title <> [] ->
  safe_filename isalnum isspace title
  = stem isalnum isspace title ++ lit ".pdf"
  /\ (exists (ws1 core ws2 : pystr) (runs : list (bool * pystr)),
        trimmed isspace (List.filter (kept isalnum isspace) title)
          ws1 core ws2
        /\ maximal_runs isspace runs core
        /\ stem isalnum isspace title = replace_runs runs)
  /\ (forall (ws1 core ws2 : pystr) (runs : list (bool * pystr)),
        trimmed isspace (List.filter (kept isalnum isspace) title)
          ws1 core ws2 ->
        maximal_runs isspace runs core ->
        stem isalnum isspace title = replace_runs runs)
  /\ Forall (λ c, c = hyphen
                  \/ (re_word isalnum c = true /\ isspace c = false
                      /\ c <> hyphen))
            (stem isalnum isspace title)
  /\ (forall i : nat,
        stem isalnum isspace title !! i = Some hyphen ->
        stem isalnum isspace title !! S i <> Some hyphen)
  /\ List.filter (λ c, negb (sep isspace c)) (stem isalnum isspace title)
     = List.filter (λ c, re_word isalnum c && negb (sep isspace c)) title
  /\ (forall ws1 ws2 : pystr,
        Forall (λ c, isspace c = true) ws1 ->
        Forall (λ c, isspace c = true) ws2 ->
        safe_filename isalnum isspace (ws1 ++ title ++ ws2)
        = safe_filename isalnum isspace title).
Proof.
  intros _. split; [apply safe_filename_stem|].
  split; [apply stem_runs_exist|].
  split; [apply stem_runs|]. split.
  { eapply Forall_impl; [apply stem_chars|]. intros c [-> | [Hw Hs]].
    - by left.
    - right. split; [done|]. split.
      + unfold sep in Hs. by apply orb_false_elim in Hs as [_ Hs].
      + by eapply not_sep_not_hyphen. }
  split; [apply sub_runs_single|]. split; [apply stem_word_chars|].
  intros ws1 ws2 H1 H2. by rewrite !safe_filename_stem, stem_trim.
Qed.

Lemma C3_safe_filename_witness :
  safe_filename ascii_alnum ascii_space (lit "  Intro to  Rocq - part 2! ")
  = lit "Intro-to-Rocq-part-2.pdf"
  /\ stem ascii_alnum ascii_space (lit "  Intro to  Rocq - part 2! ")
     = replace_runs
         [(false, lit "Intro"); (true, lit " "); (false, lit "to");
          (true, lit "  "); (false, lit "Rocq"); (true, lit " - ");
          (false, lit "part"); (true, lit " "); (false, lit "2")].
Proof.
  destruct (C3_safe_filename ascii_alnum ascii_space
              (lit "  Intro to  Rocq - part 2! ")) as (H1 & _ & H3 & _);
    [discriminate|].
  split; [exact H1|].
  apply (H3 (lit "  ") (lit "Intro to  Rocq - part 2") (lit " ")).
  - repeat split.
  - split; reflexivity.
Defined.

(** A run of whitespace and hyphens, however long or mixed, gives one
    hyphen. *)
Example runs_become_hyphens :
  safe_filename ascii_alnum ascii_space (lit "a - -  b--c") = lit "a-b-c.pdf".
Proof. reflexivity. Qed.

(** ** Download progress *)

Section HookFacts.

Variable isspace : N -> bool.
Variable py_float : pystr -> option Q.
Variable job_id : string.

Local Abbreviation hook := (progress_hook isspace py_float job_id).
Local Abbreviation value := (hook_write isspace py_float job_id).

Lemma progress_hook_lookup d js id :
  hook d js !! id
  = match value d js with
    | Some v =>
        if decide (job_id = id)
        then (λ j, set_stage "Downloading Video" (set_progress v j))
               <$> js !! id
        else js !! id
    | None => js !! id
    end.
Proof.
  unfold progress_hook. destruct (value d js) as [v|]; [|done].
  rewrite lookup_alter. by case_decide; subst.
Qed.

Lemma progress_hook_present d js :
  is_Some (hook d js !! job_id) <-> is_Some (js !! job_id).
Proof.
  rewrite progress_hook_lookup. destruct (value d js); [|done].
  rewrite decide_True by done. by rewrite fmap_is_Some.
Qed.

(** A percentage that [float] rejects is not applied. *)
Lemma progress_hook_unparsable d js :
  py_float (percent_str isspace d) = None -> hook d js = js.
Proof.
  intros H. unfold progress_hook, hook_write. rewrite H.
  case_decide; [|done]. by destruct (js !! job_id).
Qed.

(** Each assignment stores half of the reported percentage. *)
Lemma hook_writes_reported ds js :
  is_Some (js !! job_id) ->
  hook_writes isspace py_float job_id ds js
  = map (λ p, p / 2)%Q (reported isspace py_float ds).
Proof.
  revert js. induction ds as [|d ds IH]; intros js Hjs; [done|].
  cbn [hook_writes]. rewrite IH by by apply progress_hook_present.
  unfold reported.
  change (omap ?f (d :: ds))
    with (match f d with Some y => y :: omap f ds | None => omap f ds end).
  unfold hook_write. destruct Hjs as [j ->].
  case_decide; [|done]. by destruct (py_float (percent_str isspace d)).
Qed.

Lemma run_hooks_store (P : gmap string job -> Prop) ds js :
  (forall d js, d ∈ ds -> P js -> P (hook d js)) ->
  P js -> P (run_hooks isspace py_float job_id ds js).
Proof.
  revert js. induction ds as [|d ds IH]; intros js HP Hjs; [done|].
  simpl. apply IH.
  - intros d' js' Hd. apply HP. by right.
  - apply HP; [by left | done].
Qed.

End HookFacts.

Lemma half_le (x y : Q) : (x <= y)%Q <-> (x / 2 <= y / 2)%Q.
Proof.
  unfold Qdiv. change (/ 2)%Q with (1 # 2)%Q. split; intros H; lra.
Qed.

Lemma half_lt (x y : Q) : (x < y)%Q <-> (x / 2 < y / 2)%Q.
Proof.
  unfold Qdiv. change (/ 2)%Q with (1 # 2)%Q. split; intros H; lra.
Qed.

Lemma nondecreasing_map (f : Q -> Q) (l : list Q) :
  (forall x y, (x <= y)%Q -> (f x <= f y)%Q) ->
  nondecreasing l -> nondecreasing (map f l).
Proof.
  intros Hf Hl i x y Hx Hy.
  change (map f l) with (f <$> l) in Hx, Hy.
  rewrite list_lookup_fmap in Hx, Hy.
  destruct (l !! i) as [x0|] eqn:Ex; [|done].
  destruct (l !! S i) as [y0|] eqn:Ey; [|done].
  injection Hx as <-. injection Hy as <-. apply Hf. by eapply Hl.
Qed.

Lemma nondecreasing_halves (l : list Q) :
  nondecreasing l <-> nondecreasing (map (λ p, p / 2)%Q l).
Proof.
  split.
  - apply nondecreasing_map. intros x y H. by apply half_le in H.
  - intros H i x y Hx Hy. apply half_le.
    apply (H i); change (map ?f l) with (f <$> l);
      rewrite list_lookup_fmap; [by rewrite Hx | by rewrite Hy].
Qed.

(** ** Analysis progress *)

Section AnalysisFacts.

Context {Frame Hist : Type}.
Variable calc_hist : Frame -> Hist.
Variable compareHist : Hist -> Hist -> Q.

Lemma analysis_value_bounds (fc total : Z) :
  0 <= fc < total ->
  (50 <= 50 + analysis_progress fc total / 2
   /\ 50 + analysis_progress fc total / 2 < 100)%Q.
Proof.
  intros H. destruct (analysis_progress_bounds fc total H) as [H0 H1].
  unfold Qdiv. change (/ 2)%Q with (1 # 2)%Q. split; lra.
Qed.

Lemma analysis_value_below (fc total : Z) :
  fc < total -> (50 + analysis_progress fc total / 2 < 100)%Q.
Proof.
  intros H. pose proof (analysis_progress_below fc total H) as H1.
  unfold Qdiv. change (/ 2)%Q with (1 # 2)%Q. lra.
Qed.

(** The [k]-th value written by a finished run. *)
Lemma generator_write_at cap job_id r t js run interval (k : nat) v :
  frames_to_pdf_generator calc_hist compareHist cap job_id r t js
  = GenDone run ->
  frame_interval (CAP_PROP_FPS cap) r = Some interval ->
  analysis_writes run !! k = Some v ->
  let total := py_int (CAP_PROP_FRAME_COUNT cap) in
  v = (50 + analysis_progress (Z.of_nat k * interval) total / 2)%Q
  /\ Z.of_nat k * interval < total.
Proof.
  intros Hrun Hi Hv total.
  apply generator_done in Hrun
    as [[_ ->] | (_ & i & fuel & Hi' & Hloop)]; [done|].
  rewrite Hi in Hi'. injection Hi' as <-.
  unfold analysis_writes in Hv.
  rewrite (gen_loop_writes _ _ _ _ _ _ _ _ _ _ _ _ _ _ _ Hloop) in Hv.
  destruct (js !! job_id); [|done].
  change (map ?f ?l) with (f <$> l) in Hv.
  rewrite list_lookup_fmap in Hv.
  destruct (iterations run !! k) as [it|] eqn:Hk; [|done].
  injection Hv as <-.
  destruct (gen_loop_index _ _ _ _ _ _ _ _ _ _ _ _ _ _ _ _ _ Hloop Hk)
    as (H1 & H2 & _).
  fold total in H2. rewrite H1 in *.
  by replace (0 + Z.of_nat k * interval) with (Z.of_nat k * interval)
    in * by lia.
Qed.

Lemma generator_writes_bounds cap job_id r t js run :
  (0 <= CAP_PROP_FPS cap)%Q -> (0 < r)%Q ->
  frames_to_pdf_generator calc_hist compareHist cap job_id r t js
  = GenDone run ->
  Forall (λ v, 50 <= v /\ v < 100)%Q (analysis_writes run).
Proof.
  intros Hf Hr Hrun. apply Forall_lookup. intros k v Hv.
  destruct (frame_interval (CAP_PROP_FPS cap) r) as [interval|] eqn:Hi.
  - destruct (generator_write_at _ _ _ _ _ _ _ _ _ Hrun Hi Hv) as [-> Hlt].
    apply analysis_value_bounds.
    pose proof (frame_interval_positive _ _ _ Hf Hr Hi). nia.
  - by rewrite frame_interval_floor in Hi.
Qed.

Lemma generator_writes_increase cap job_id r t js run (k : nat) x y :
  (0 <= CAP_PROP_FPS cap)%Q -> (0 < r)%Q ->
  frames_to_pdf_generator calc_hist compareHist cap job_id r t js
  = GenDone run ->
  analysis_writes run !! k = Some x ->
  analysis_writes run !! S k = Some y ->
  (x < y)%Q.
Proof.
  intros Hf Hr Hrun Hx Hy.
  destruct (frame_interval (CAP_PROP_FPS cap) r) as [interval|] eqn:Hi;
    [|by rewrite frame_interval_floor in Hi].
  pose proof (frame_interval_positive _ _ _ Hf Hr Hi) as Hpos.
  destruct (generator_write_at _ _ _ _ _ _ _ _ _ Hrun Hi Hx) as [-> Hlx].
  destruct (generator_write_at _ _ _ _ _ _ _ _ _ Hrun Hi Hy) as [-> Hly].
  assert (Hm : (analysis_progress (Z.of_nat k * interval)
                  (py_int (CAP_PROP_FRAME_COUNT cap))
                < analysis_progress (Z.of_nat (S k) * interval)
                    (py_int (CAP_PROP_FRAME_COUNT cap)))%Q).
  { apply analysis_progress_mono; nia. }
  apply half_lt in Hm. lra.
Qed.

(** Every value line 85 assigns is below 100, whatever the stride. *)
Lemma generator_store_below cap job_id r t js run :
  frames_to_pdf_generator calc_hist compareHist cap job_id r t js
  = GenDone run ->
  (forall id j, js !! id = Some j -> (progress j < 100)%Q) ->
  forall id j, jobs_after run !! id = Some j -> (progress j < 100)%Q.
Proof.
  intros Hrun.
  apply generator_done in Hrun
    as [[_ ->] | (_ & i & fuel & _ & Hloop)]; [done|].
  intros Hinit.
  eapply (gen_loop_store calc_hist compareHist cap job_id t i _
           (λ js, forall id j, js !! id = Some j -> (progress j < 100)%Q));
    [|exact Hloop | exact Hinit].
  intros fc js0 Hlt Hjs id j. rewrite apply_write_lookup.
  unfold analysis_write. destruct (js0 !! job_id) as [j0|] eqn:E;
    [|apply Hjs].
  case_decide as Hid; [|apply Hjs]. subst id. rewrite E. simpl.
  intros [= <-]. simpl. by apply analysis_value_below.
Qed.

(** Fields other than the progress and the stage are not touched. *)
Lemma generator_store_status cap job_id r t js run id :
  frames_to_pdf_generator calc_hist compareHist cap job_id r t js
  = GenDone run ->
  status <$> jobs_after run !! id = status <$> js !! id.
Proof.
  intros Hrun.
  apply generator_done in Hrun
    as [[_ ->] | (_ & i & fuel & _ & Hloop)]; [done|].
  eapply (gen_loop_store calc_hist compareHist cap job_id t i _
           (λ js', status <$> js' !! id = status <$> js !! id));
    [|exact Hloop | done].
  intros fc js0 Hlt Hjs. rewrite apply_write_lookup.
  destruct (analysis_write _ _ _ _); [|done].
  case_decide; [|done]. rewrite <- Hjs. by destruct (js0 !! id).
Qed.

End AnalysisFacts.

(** ** Progress in the two phases: C4 *)

Example decimal_float_examples :
  decimal_float (lit "80.0") = Some (800 # 10)
  /\ decimal_float (lit "100") = Some (100 # 1)
  /\ decimal_float (lit "N/A") = None.
Proof. repeat split. Qed.

(** C4, the claim as it stands, at a download whose hook is called with
    80.0% and then with 20.0%: the values written are 40 and then 10. *)
Lemma C4_counterexample_download_order :
  hook_writes ascii_space decimal_float "j"
    [Demo.downloading "80.0%"; Demo.downloading "20.0%"] Demo.one_job
  = [800 # 20; 200 # 20]
  /\ ~ nondecreasing
         (hook_writes ascii_space decimal_float "j"
            [Demo.downloading "80.0%"; Demo.downloading "20.0%"]
            Demo.one_job).
Proof.
  split; [reflexivity|]. intros H.
  specialize (H 0%nat (800 # 20) (200 # 20) eq_refl eq_refl).
  revert H. by compute.
Qed.

(** C4, amended.  A value written in the download phase is half of the
    percentage the hook reports: it lies in [0,50] when the reported
    percentages lie in [0,100], and the written values never go down
    exactly when the reported percentages never do.  A percentage that
    [float] rejects leaves the job store as it is.  The values a finished
    generator writes in the analysis phase lie in [50,100] and never go
    down. *)
Theorem C4_progress_phases {Frame Hist : Type}
    (isspace : N -> bool) (py_float : pystr -> option Q)
    (calc_hist : Frame -> Hist) (compareHist : Hist -> Hist -> Q)
    (job_id : string) (ds : list hook_dict) (js0 : gmap string job)
    (cap : VideoCapture Frame) (r t : Q) (js1 : gmap string job)
    (run : gen_run Frame) :
  is_Some (js0 !! job_id) ->
  Forall (λ p, 0 <= p /\ p <= 100)%Q (reported isspace py_float ds) ->
  (0 <= CAP_PROP_FPS cap)%Q -> (0 < r)%Q ->
  frames_to_pdf_generator calc_hist compareHist cap job_id r t js1
  = GenDone run ->
  hook_writes isspace py_float job_id ds js0
  = map (λ p, p / 2)%Q (reported isspace py_float ds)
  /\ Forall (λ v, 0 <= v /\ v <= 50)%Q
            (hook_writes isspace py_float job_id ds js0)
  /\ (nondecreasing (reported isspace py_float ds)
      <-> nondecreasing (hook_writes isspace py_float job_id ds js0))
  /\ (forall d js,
        py_float (percent_str isspace d) = None ->
        progress_hook isspace py_float job_id d js = js)
  /\ Forall (λ v, 50 <= v /\ v <= 100)%Q (analysis_writes run)
  /\ nondecreasing (analysis_writes run).
Proof.
  intros Hjob Hrep Hf Hr Hrun.
  rewrite (hook_writes_reported _ _ _ _ _ Hjob).
  split; [done|]. split.
  { apply List.Forall_map. eapply Forall_impl; [exact Hrep|].
    intros p [H0 H1]. cbv beta. unfold Qdiv. change (/ 2)%Q with (1 # 2)%Q.
    split; lra. }
  split; [apply nondecreasing_halves|].
  split; [intros d js; apply progress_hook_unparsable|]. split.
  - eapply Forall_impl;
      [by eapply (generator_writes_bounds calc_hist compareHist)|].
    intros v [H0 H1]. cbv beta in *. split; lra.
  - intros k x y Hx Hy. apply Qlt_le_weak.
    by eapply (generator_writes_increase calc_hist compareHist).
Qed.

Lemma C4_progress_phases_witness :
  hook_writes ascii_space decimal_float "j"
    (hook_calls Demo.good_download) Demo.one_job
  = map (λ p, p / 2)%Q
        (reported ascii_space decimal_float (hook_calls Demo.good_download))
  /\ Forall (λ v, 0 <= v /\ v <= 50)%Q
            (hook_writes ascii_space decimal_float "j"
               (hook_calls Demo.good_download) Demo.one_job)
  /\ (nondecreasing
        (reported ascii_space decimal_float (hook_calls Demo.good_download))
      <-> nondecreasing
            (hook_writes ascii_space decimal_float "j"
               (hook_calls Demo.good_download) Demo.one_job))
  /\ (forall d js,
        decimal_float (percent_str ascii_space d) = None ->
        progress_hook ascii_space decimal_float "j" d js = js)
  /\ Forall (λ v, 50 <= v /\ v <= 100)%Q
            (analysis_writes (Demo.run_of Demo.talk))
  /\ nondecreasing (analysis_writes (Demo.run_of Demo.talk)).
Proof.
  apply (C4_progress_phases ascii_space decimal_float
           Demo.calc_hist Demo.compareHist "j"
           (hook_calls Demo.good_download) Demo.one_job
           Demo.talk 1 (7 # 10) Demo.one_job (Demo.run_of Demo.talk)).
  - by eexists.
  - repeat constructor; discriminate.
  - discriminate.
  - reflexivity.
  - reflexivity.
Defined.

Example hook_ignores_text :
  progress_hook ascii_space decimal_float "j"
    (Demo.downloading "Unknown %") Demo.one_job = Demo.one_job.
Proof. reflexivity. Qed.

(** ** The assembler: C7 *)

Section AssemblerFacts.

Context {Frame : Type}.
Variable imwrite : Frame -> bool.
Variable image_size : Frame -> positive * positive.
Variable tempfile_name : nat -> string.

Local Abbreviation loop := (save_loop imwrite image_size tempfile_name).

(** A frame that is not encoded costs nothing but its temporary file,
    which is removed before the next frame is taken. *)
Lemma save_loop_skip frame rest k pages n fs :
  imwrite frame = false ->
  loop (frame :: rest) k pages n fs
  = loop rest (S k) pages n
      (({[ tempfile_name k ]} ∪ fs) ∖ {[ tempfile_name k ]}).
Proof. intros H. simpl. by rewrite H. Qed.

Lemma save_loop_page frame rest k pages n fs :
  imwrite frame = true ->
  loop (frame :: rest) k pages n fs
  = loop rest (S k) (pages ++ [place image_size frame]) (n + 1)
      (({[ tempfile_name k ]} ∪ fs) ∖ {[ tempfile_name k ]}).
Proof. intros H. simpl. by rewrite H. Qed.

Lemma save_loop_pages frames k pages n fs :
  (loop frames k pages n fs).1.1
  = pages ++ map (place image_size) (List.filter imwrite frames).
Proof.
  revert k pages n fs. induction frames as [|frame rest IH];
    intros k pages n fs; simpl.
  { by rewrite app_nil_r. }
  destruct (imwrite frame); rewrite IH; [|done].
  by rewrite <- app_assoc.
Qed.

Lemma save_loop_count frames k pages n fs :
  (loop frames k pages n fs).1.2
  = n + Z.of_nat (length (List.filter imwrite frames)).
Proof.
  revert k pages n fs. induction frames as [|frame rest IH];
    intros k pages n fs; simpl; [lia|].
  destruct (imwrite frame); rewrite IH; simpl; lia.
Qed.

Lemma save_loop_files frames k pages n fs p :
  p ∈ (loop frames k pages n fs).2
  <-> p ∈ fs
      /\ forall i : nat, (i < length frames)%nat ->
                         p <> tempfile_name (k + i).
Proof.
  revert k pages n fs. induction frames as [|frame rest IH];
    intros k pages n fs; simpl.
  { split; [intros H; split; [done | lia] | by intros [H _]]. }
  assert (Hshift :
    (p <> tempfile_name k
     /\ forall i : nat, (i < length rest)%nat ->
                        p <> tempfile_name (S k + i))
    <-> forall i : nat, (i < S (length rest))%nat ->
                        p <> tempfile_name (k + i)).
  { split.
    - intros [H0 Hrest] [|i] Hi.
      + by rewrite Nat.add_0_r.
      + rewrite Nat.add_succ_r. apply Hrest. lia.
    - intros Hall. split.
      + specialize (Hall 0%nat). rewrite Nat.add_0_r in Hall.
        apply Hall. lia.
      + intros i Hi. specialize (Hall (S i)).
        rewrite Nat.add_succ_r in Hall. apply Hall. lia. }
  destruct (imwrite frame);
    rewrite IH, elem_of_difference, elem_of_union, elem_of_singleton,
      <- Hshift; tauto.
Qed.

End AssemblerFacts.

(** C7.  The document holds one page for each frame that [imwrite]
    encoded, in the order of the frames: a frame it did not encode adds no
    page and the frames after it are still processed.  The call succeeds
    as soon as one frame was encoded, whatever the number of frames that
    were not; and no temporary file of any frame, encoded or not, is left
    behind. *)
Theorem C7_failed_frames_skipped {Frame : Type}
    (imwrite : Frame -> bool) (image_size : Frame -> positive * positive)
    (tempfile_name : nat -> string) (frames : list Frame)
    (output_pdf : string) (fs : gset string) :
  let res := save_frames_to_pdf imwrite image_size tempfile_name
               frames output_pdf fs in
  let encoded := List.filter imwrite frames in
  success res = bool_decide (encoded <> [])
  /\ document res
     = (if success res then Some (map (place image_size) encoded) else None)
  /\ (forall k : nat, (k < length frames)%nat ->
        tempfile_name k <> output_pdf -> tempfile_name k ∉ files_after res)
  /\ (forall frame rest k pages n fs',
        imwrite frame = false ->
        save_loop imwrite image_size tempfile_name (frame :: rest) k pages n fs'
        = save_loop imwrite image_size tempfile_name rest (S k) pages n
            (({[ tempfile_name k ]} ∪ fs') ∖ {[ tempfile_name k ]})).
Proof.
  intros res encoded. subst res. unfold save_frames_to_pdf.
  pose proof (save_loop_pages imwrite image_size tempfile_name frames 0 [] 0 fs)
    as Hp.
  pose proof (save_loop_count imwrite image_size tempfile_name frames 0 [] 0 fs)
    as Hc.
  pose proof (save_loop_files imwrite image_size tempfile_name frames 0 [] 0 fs)
    as Hfs.
  destruct (save_loop _ _ _ frames 0 [] 0 fs) as [[pages n] fs'].
  simpl in Hp, Hc, Hfs. fold encoded in Hp, Hc. subst pages n.
  assert (Hk : forall k : nat, (k < length frames)%nat ->
                 tempfile_name k ∉ fs').
  { intros k Hlt Hin. apply Hfs in Hin as [_ Hin]. by apply (Hin k). }
  destruct encoded as [|e rest] eqn:E.
  - simpl. split; [done|].
    split; [done|]. split; [by intros k Hlt _; apply Hk|].
    by apply save_loop_skip.
  - destruct (Z.ltb_spec 0 (0 + Z.of_nat (length (e :: rest))));
      [|simpl in *; lia].
    simpl. split; [done|]. split; [done|].
    split; [|by apply save_loop_skip].
    intros k Hlt Hne. specialize (Hk k Hlt).
    rewrite elem_of_union, elem_of_singleton. by intros [H' | H'].
Qed.

Example one_frame_not_encoded :
  let res := save_frames_to_pdf Demo.imwrite Demo.image_size
               Demo.tempfile_name [1%nat; 13%nat; 2%nat] "/ws/output.pdf" ∅ in
  success res = true
  /\ (map page_image <$> document res) = Some [1%nat; 2%nat]
  /\ elements (files_after res) = ["/ws/output.pdf"%string].
Proof. repeat split. Qed.

(** ** Files and directories *)

Lemma prefix_append (a b : string) : String.prefix a (a ++ b) = true.
Proof.
  induction a as [|c a IH]; [by destruct b|].
  change (String.prefix (String c a) (String c (a ++ b)) = true).
  simpl. by destruct (ascii_dec c c).
Qed.

Lemma append_assoc (a b c : string) :
  ((a ++ b) ++ c = a ++ (b ++ c))%string.
Proof.
  induction a as [|x a IH]; [reflexivity|].
  change (String x ((a ++ b) ++ c) = String x (a ++ (b ++ c)))%string.
  by f_equal.
Qed.

Lemma inside_path_join (d name : string) : inside d (path_join d name) = true.
Proof.
  unfold inside, path_join. rewrite <- append_assoc. apply prefix_append.
Qed.

Lemma path_join_nonempty (d name : string) : path_join d name <> ""%string.
Proof. unfold path_join. by destruct d. Qed.

Lemma remove_tree_dirs d w : d ∉ dirs (remove_tree d w).
Proof. simpl. rewrite elem_of_difference, elem_of_singleton. tauto. Qed.

Lemma remove_tree_files d w p :
  inside d p = true -> p ∉ files (remove_tree d w).
Proof. simpl. rewrite elem_of_filter. intros H [H' _]. congruence. Qed.

Lemma rmtree_ignore_errors_jobs d w :
  jobs (rmtree_ignore_errors d w) = jobs w.
Proof. unfold rmtree_ignore_errors, rmtree. by case_decide. Qed.

Lemma rmtree_ignore_errors_dirs d w : d ∉ dirs (rmtree_ignore_errors d w).
Proof.
  unfold rmtree_ignore_errors, rmtree.
  case_decide; [apply remove_tree_dirs | done].
Qed.

Lemma rmtree_ignore_errors_files d w p :
  d ∈ dirs w -> inside d p = true -> p ∉ files (rmtree_ignore_errors d w).
Proof.
  intros Hd Hp. unfold rmtree_ignore_errors, rmtree.
  rewrite decide_True by done. by apply remove_tree_files.
Qed.

(** ** The job store under the steps of the task *)

Lemma below_100_alter (f : job -> job) (id : string) (js : gmap string job) :
  (forall j, progress (f j) = progress j) ->
  below_100 js -> below_100 (alter f id js).
Proof.
  intros Hf Hjs id' j. rewrite lookup_alter. case_decide; [|apply Hjs].
  subst id'. destruct (js !! id) as [j0|] eqn:E; [|done].
  intros [= <-]. rewrite Hf. by eapply Hjs.
Qed.

Lemma below_100_insert (id : string) (j : job) (js : gmap string job) :
  (progress j < 100)%Q -> below_100 js -> below_100 (<[id := j]> js).
Proof.
  intros Hj Hjs id' j'. rewrite lookup_insert. case_decide; [|apply Hjs].
  by intros [= <-].
Qed.

Lemma below_100_delete (id : string) (js : gmap string job) :
  below_100 js -> below_100 (delete id js).
Proof.
  intros Hjs id' j'. rewrite lookup_delete. case_decide; [done | apply Hjs].
Qed.

Lemma fail_task_lookup job_id dir w id :
  jobs (fail_task job_id dir w) !! id
  = if decide (job_id = id) then set_status failed <$> jobs w !! id
    else jobs w !! id.
Proof.
  unfold fail_task. rewrite rmtree_ignore_errors_jobs. simpl.
  rewrite lookup_alter. by case_decide; subst.
Qed.

Lemma fail_task_below job_id dir w :
  below_100 (jobs w) -> below_100 (jobs (fail_task job_id dir w)).
Proof.
  intros H. unfold fail_task. rewrite rmtree_ignore_errors_jobs. simpl.
  by apply below_100_alter.
Qed.

(** Line 172 changes the status and lines 173-175 add the result; the
    progress stays as the last assignment left it. *)
Lemma complete_task_progress job_id output_pdf dir name w id :
  progress <$> jobs (complete_task job_id output_pdf dir name w) !! id
  = progress <$> jobs w !! id.
Proof.
  unfold complete_task. simpl. rewrite lookup_alter.
  case_decide; [|done]. subst. by destruct (jobs w !! id).
Qed.

Lemma complete_task_below job_id output_pdf dir name w :
  below_100 (jobs w) ->
  below_100 (jobs (complete_task job_id output_pdf dir name w)).
Proof. intros H. unfold complete_task. simpl. by apply below_100_alter. Qed.

Section DownloadFacts.

Variable isspace : N -> bool.
Variable py_float : pystr -> option Q.

Lemma run_hooks_present job_id ds js :
  is_Some (run_hooks isspace py_float job_id ds js !! job_id)
  <-> is_Some (js !! job_id).
Proof.
  revert js. induction ds as [|d ds IH]; intros js; [done|].
  simpl. by rewrite IH, progress_hook_present.
Qed.

Lemma hook_write_reported job_id d ds js v :
  d ∈ ds ->
  hook_write isspace py_float job_id d js = Some v ->
  exists p, p ∈ reported isspace py_float ds /\ v = (p / 2)%Q.
Proof.
  intros Hd. unfold hook_write. case_decide as Hs; [|done].
  destruct (js !! job_id); [|done].
  destruct (py_float (percent_str isspace d)) as [p|] eqn:Hp; [|done].
  intros [= <-]. exists p. split; [|done].
  unfold reported. apply list_elem_of_omap. exists d. split; [done|].
  by rewrite decide_True.
Qed.

Lemma run_hooks_below job_id ds js :
  Forall (λ p, p <= 100)%Q (reported isspace py_float ds) ->
  below_100 js -> below_100 (run_hooks isspace py_float job_id ds js).
Proof.
  intros Hrep. apply run_hooks_store. intros d js0 Hd Hjs id j.
  rewrite progress_hook_lookup.
  destruct (hook_write _ _ _ d js0) as [v|] eqn:Hv; [|apply Hjs].
  case_decide; [|apply Hjs]. subst id.
  destruct (js0 !! job_id); [|done]. intros [= <-]. simpl.
  destruct (hook_write_reported _ _ _ _ _ Hd Hv) as (p & Hp & ->).
  rewrite Forall_forall in Hrep. specialize (Hrep p Hp). simpl in Hrep.
  unfold Qdiv. change (/ 2)%Q with (1 # 2)%Q. lra.
Qed.

Lemma download_video_jobs run dir job_id w :
  jobs (download_video isspace py_float run dir job_id w).2
  = run_hooks isspace py_float job_id (hook_calls run) (jobs w).
Proof. unfold download_video. by destruct (info run) as [[ext title]|]. Qed.

Lemma download_video_dirs run dir job_id w :
  dirs (download_video isspace py_float run dir job_id w).2 = dirs w.
Proof. unfold download_video. by destruct (info run) as [[ext title]|]. Qed.

Lemma download_video_files run dir job_id w :
  files (download_video isspace py_float run dir job_id w).2
  = list_to_set (path_join dir <$> left_behind run) ∪ files w.
Proof. unfold download_video. by destruct (info run) as [[ext title]|]. Qed.

Lemma download_video_result run dir job_id w :
  (download_video isspace py_float run dir job_id w).1
  = (λ '(ext, title), (path_join dir ("video." ++ ext), title))
      <$> info run.
Proof. unfold download_video. by destruct (info run) as [[ext title]|]. Qed.

End DownloadFacts.

(** ** A capture without frames *)

Lemma generator_no_frame {Frame Hist : Type}
    (calc_hist : Frame -> Hist) (compareHist : Hist -> Hist -> Q)
    (cap : VideoCapture Frame) (job_id : string) (t : Q)
    (js : gmap string job) :
  no_frame cap ->
  frames_to_pdf_generator calc_hist compareHist cap job_id 1 t js
  = GenDone (GenRun [] None js).
Proof.
  intros Hno. unfold frames_to_pdf_generator.
  destruct (isOpened cap) eqn:Ho; cbn [negb]; [|done].
  destruct (frame_interval_one (CAP_PROP_FPS cap)) as [interval ->].
  cbv zeta. cbn [gen_loop].
  destruct (Z.ltb_spec 0 (py_int (CAP_PROP_FRAME_COUNT cap))); [|done].
  destruct Hno as [Hno | [Hno | Hno]]; [congruence | lia | by rewrite Hno].
Qed.

(** ** The background task *)

Section TaskFacts.

Variable isalnum : N -> bool.
Variable isspace : N -> bool.
Variable py_float : pystr -> option Q.
Context {Frame Hist : Type}.
Variable calc_hist : Frame -> Hist.
Variable compareHist : Hist -> Hist -> Q.
Variable imwrite : Frame -> bool.
Variable image_size : Frame -> positive * positive.

Local Abbreviation task :=
  (create_pdf_task isalnum isspace py_float calc_hist compareHist
     imwrite image_size).
Local Abbreviation downloaded := (after_download isspace py_float).

Lemma after_download_dirs (env : task_env Frame) job_id w :
  dirs (downloaded env job_id w) = {[ env_temp_dir env ]} ∪ dirs w.
Proof. unfold after_download. by rewrite download_video_dirs. Qed.

Lemma after_download_present (env : task_env Frame) job_id w :
  is_Some (jobs (downloaded env job_id w) !! job_id)
  <-> is_Some (jobs w !! job_id).
Proof.
  unfold after_download. rewrite download_video_jobs, run_hooks_present.
  simpl. rewrite lookup_alter, decide_True by done. apply fmap_is_Some.
Qed.

Lemma after_download_below (env : task_env Frame) job_id w :
  Forall (λ p, p <= 100)%Q
         (reported isspace py_float (hook_calls (env_download env))) ->
  below_100 (jobs w) -> below_100 (jobs (downloaded env job_id w)).
Proof.
  intros Hc Hw. unfold after_download. rewrite download_video_jobs.
  apply run_hooks_below; [done|]. simpl. by apply below_100_alter.
Qed.

(** However the task ends, no stored progress reaches 100. *)
Lemma create_pdf_task_below (env : task_env Frame) job_id w w' :
  Forall (λ p, p <= 100)%Q
         (reported isspace py_float (hook_calls (env_download env))) ->
  below_100 (jobs w) ->
  task env job_id w = Finished w' \/ task env job_id w = Crashed w' ->
  below_100 (jobs w').
Proof.
  intros Hc Hw. unfold create_pdf_task. cbv zeta.
  change (jobs (mkdtemp (env_temp_dir env) w)) with (jobs w).
  destruct (jobs w !! job_id) as [j|] eqn:Hj;
    [|by intros [[=] | [= <-]]].
  pose proof (after_download_below env job_id w Hc Hw) as H2.
  unfold after_download in H2.
  destruct (download_video _ _ _ _ _ _) as [res w2]. simpl in H2.
  destruct res as [[video_path title]|];
    [|intros [[= <-] | [=]]; by apply fail_task_below].
  case_decide; [intros [[= <-] | [=]]; by apply fail_task_below|].
  destruct (frames_to_pdf_generator _ _ _ _ _ _ _) as [r| |] eqn:Hgen.
  - pose proof (generator_store_below _ _ _ _ _ _ _ _ Hgen H2) as H3.
    destruct (success _); intros [[= <-] | [=]].
    + by apply complete_task_below.
    + by apply fail_task_below.
  - intros [[= <-] | [=]]. by apply fail_task_below.
  - by intros [[=] | [=]].
Qed.

(** The task on a video without frames. *)
Lemma create_pdf_task_no_frame (env : task_env Frame) job_id w ext title :
  is_Some (jobs w !! job_id) ->
  info (env_download env) = Some (ext, title) ->
  no_frame (env_capture env
              (path_join (env_temp_dir env) ("video." ++ ext))) ->
  task env job_id w
  = Finished (fail_task job_id (env_temp_dir env) (downloaded env job_id w)).
Proof.
  intros [j Hj] Hinfo Hno. unfold create_pdf_task, after_download.
  cbv zeta. change (jobs (mkdtemp (env_temp_dir env) w)) with (jobs w).
  rewrite Hj.
  pose proof (download_video_result isspace py_float (env_download env)
                (env_temp_dir env) job_id
                (with_jobs (alter (set_status processing) job_id (jobs w))
                   (mkdtemp (env_temp_dir env) w))) as Hres.
  destruct (download_video _ _ _ _ _ _) as [res w2].
  rewrite Hinfo in Hres. simpl in Hres. subst res.
  rewrite decide_False by apply path_join_nonempty.
  rewrite generator_no_frame by done.
  by destruct w2.
Qed.

End TaskFacts.

(** ** A video without frames: C5 *)

(** C5.  When the download succeeded and the capture gives no frame, the
    generator yields nothing, the assembler returns [False] without
    writing a document, and the task ends with the job marked as failed
    and its directory, with the document path inside, removed. *)
Theorem C5_no_frames_fails {Frame Hist : Type}
    (isalnum isspace : N -> bool) (py_float : pystr -> option Q)
    (calc_hist : Frame -> Hist) (compareHist : Hist -> Hist -> Q)
    (imwrite : Frame -> bool) (image_size : Frame -> positive * positive)
    (env : task_env Frame) (job_id : string) (w : world)
    (ext : string) (title : pystr) :
  is_Some (jobs w !! job_id) ->
  info (env_download env) = Some (ext, title) ->
  no_frame (env_capture env (path_join (env_temp_dir env) ("video." ++ ext))) ->
  let cap := env_capture env (path_join (env_temp_dir env) ("video." ++ ext)) in
  let output_pdf := path_join (env_temp_dir env) "output.pdf" in
  (forall js,
     exists r,
       frames_to_pdf_generator calc_hist compareHist cap job_id 1 (7 # 10) js
       = GenDone r
       /\ sampled r = [] /\ emitted r = [])
  /\ (forall fs,
        save_frames_to_pdf imwrite image_size (env_tempfile_name env) []
          output_pdf fs
        = Saved false None fs)
  /\ exists w',
       create_pdf_task isalnum isspace py_float calc_hist compareHist
         imwrite image_size env job_id w = Finished w'
       /\ (status <$> (jobs w' !! job_id)) = Some failed
       /\ (env_temp_dir env ∉ dirs w')
       /\ (output_pdf ∉ files w').
Proof.
  intros Hjob Hinfo Hno cap output_pdf. split.
  { intros js. eexists. split; [by apply generator_no_frame | done]. }
  split; [done|].
  eexists. split; [by eapply create_pdf_task_no_frame|]. split.
  - rewrite fail_task_lookup, decide_True by done.
    apply (after_download_present isspace py_float env) in Hjob
      as [j' ->]. done.
  - split; [apply rmtree_ignore_errors_dirs|].
    apply rmtree_ignore_errors_files; [|apply inside_path_join].
    simpl. rewrite after_download_dirs. apply elem_of_union_l.
    by apply elem_of_singleton.
Qed.

Lemma C5_no_frames_fails_witness :
  exists w',
    Demo.task Demo.env_broken "j" (convert "j" initial_world) = Finished w'
    /\ (status <$> (jobs w' !! "j"%string)) = Some failed
    /\ ("/dev/shm/ws2"%string ∉ dirs w')
    /\ ("/dev/shm/ws2/output.pdf"%string ∉ files w').
Proof.
  apply (C5_no_frames_fails ascii_alnum ascii_space decimal_float
           Demo.calc_hist Demo.compareHist Demo.imwrite Demo.image_size
           Demo.env_broken "j" (convert "j" initial_world)
           "mp4" (lit "Intro to Rocq")).
  - by eexists.
  - reflexivity.
  - by left.
Defined.

(** ** Retrieval: C6 *)

Lemma download_view_not_complete (job : option job) (w : world) :
  (forall j, job = Some j -> status j <> complete) ->
  download_view job w = (NotFound404, None).
Proof.
  intros H. unfold download_view. destruct job as [j|]; [|done].
  case_decide as Hc; [|done]. by destruct (H j eq_refl).
Qed.

Lemma download_view_sends (job : option job) (w : world) path name d :
  download_view job w = (SendFile path name, d) ->
  exists j dir,
    job = Some j /\ status j = complete /\ filepath j = Some path
    /\ temp_dir j = Some dir /\ d = Some dir /\ path ∈ files w
    /\ name = default (lit "slides.pdf") (filename j).
Proof.
  unfold download_view. destruct job as [j|]; [|done].
  case_decide as Hc; [|done].
  destruct (filepath j) as [p|] eqn:Hp, (temp_dir j) as [dir|] eqn:Hd;
    try done.
  case_decide as Hin; [|done]. intros [= <- <- <-].
  exists j, dir. by repeat split.
Qed.

Lemma download_view_complete (j : job) (w : world) path dir :
  status j = complete -> filepath j = Some path -> temp_dir j = Some dir ->
  path ∈ files w ->
  download_view (Some j) w
  = (SendFile path (default (lit "slides.pdf") (filename j)), Some dir).
Proof.
  intros Hs Hp Hd Hin. unfold download_view.
  by rewrite Hp, Hd, !decide_True.
Qed.

Lemma download_not_complete (q : bool) (job_id : string) (w : world) :
  (forall j, jobs w !! job_id = Some j -> status j <> complete) ->
  download q job_id w = (NotFound404, w).
Proof.
  intros H. unfold download.
  by rewrite (download_view_not_complete _ _ H).
Qed.

Lemma download_sends (q : bool) (job_id : string) (w : world) path name :
  (download q job_id w).1 = SendFile path name ->
  exists j, jobs w !! job_id = Some j /\ status j = complete
            /\ filepath j = Some path /\ path ∈ files w.
Proof.
  unfold download. cbn [fst].
  destruct (download_view (jobs w !! job_id) w) as [r d] eqn:E.
  cbn [fst]. intros ->.
  apply download_view_sends in E as (j & dir & H1 & H2 & H3 & _ & _ & H6 & _).
  eauto.
Qed.

Lemma cleanup_removes (job_id dir : string) (w : world) :
  dir ∈ dirs w ->
  cleanup job_id dir w
  = with_jobs (delete job_id (jobs w)) (remove_tree dir w).
Proof. intros H. unfold cleanup, rmtree. by rewrite decide_True. Qed.

Lemma cleanup_raises (job_id dir : string) (w : world) :
  dir ∉ dirs w -> rmtree dir w = None /\ cleanup job_id dir w = w.
Proof. intros H. unfold cleanup, rmtree. by rewrite decide_False. Qed.

Lemma download_complete (q : bool) (job_id : string) (w : world) (j : job)
    path dir :
  jobs w !! job_id = Some j ->
  status j = complete -> filepath j = Some path -> temp_dir j = Some dir ->
  path ∈ files w -> dir ∈ dirs w ->
  download q job_id w
  = (SendFile path (default (lit "slides.pdf") (filename j)),
     with_jobs (delete job_id (jobs w)) (remove_tree dir w)).
Proof.
  intros Hj Hs Hp Hd Hin Hdir. unfold download.
  rewrite Hj, (download_view_complete j w path dir) by done.
  cbn [fst snd after_request runs_cleanup]. by rewrite cleanup_removes.
Qed.

(** C6, the claim as it stands, at the retrieval of the finished job of
    the small instance: the directory is removed and the record deleted
    after the document was opened and before its body is sent, not after
    the transfer. *)
Lemma C6_counterexample_cleanup_before_transfer :
  download_effects false "j" Demo.done_world
  = [Opened "/dev/shm/ws1/output.pdf"; TreeRemoved "/dev/shm/ws1";
     JobDeleted "j"; BodySent "/dev/shm/ws1/output.pdf"].
Proof. vm_compute. reflexivity. Qed.

(** C6, amended.  A retrieval answers with the document only for a job
    whose record is found complete and whose document is on disk; a job
    that is absent or not complete gets 404.  For a complete job with its
    document and its directory in place, the retrieval opens the
    document, then removes the directory and deletes the record, and only
    then is the body sent.  Afterwards the directory and the files in it
    are gone and so is the record: a later retrieval answers 404 and a
    status query answers not-found.  A second retrieval that overlaps the
    first, its view having run before the first cleanup, answers with the
    same document; its own cleanup finds the directory gone, the removal
    raises, the error is absorbed, and nothing changes. *)
Theorem C6_retrieve_once (q : bool) (job_id : string) (w : world) (j : job)
    (path dir : string) :
  jobs w !! job_id = Some j ->
  status j = complete ->
  filepath j = Some path ->
  temp_dir j = Some dir ->
  path ∈ files w ->
  dir ∈ dirs w ->
  let name := default (lit "slides.pdf") (filename j) in
  let w' := (download q job_id w).2 in
  (download q job_id w).1 = SendFile path name
  /\ download_effects q job_id w
     = [Opened path; TreeRemoved dir; JobDeleted job_id; BodySent path]
  /\ (dir ∉ dirs w')
  /\ (forall p, inside dir p = true -> p ∉ files w')
  /\ jobs w' !! job_id = None
  /\ (forall q', download q' job_id w' = (NotFound404, w'))
  /\ status_route job_id w' = StatusNotFound
  /\ download_overlapping q job_id w
     = (SendFile path name, SendFile path name, w')
  /\ rmtree dir w' = None
  /\ cleanup_effects job_id dir w' = [RemovalRaised dir]
  /\ cleanup job_id dir w' = w'
  /\ (forall job0 w0 p n d,
        download_view job0 w0 = (SendFile p n, d) ->
        exists j0, job0 = Some j0 /\ status j0 = complete
                   /\ filepath j0 = Some p /\ p ∈ files w0)
  /\ (forall job0 w0,
        (forall j0, job0 = Some j0 -> status j0 <> complete) ->
        download_view job0 w0 = (NotFound404, None))
  /\ (forall q' id w0 p n,
        (download q' id w0).1 = SendFile p n ->
        exists j0, jobs w0 !! id = Some j0 /\ status j0 = complete
                   /\ filepath j0 = Some p /\ p ∈ files w0)
  /\ (forall q' id w0,
        (forall j0, jobs w0 !! id = Some j0 -> status j0 <> complete) ->
        download q' id w0 = (NotFound404, w0)).
Proof.
  intros Hj Hs Hp Hd Hin Hdir name w'.
  pose proof (download_complete q job_id w j path dir Hj Hs Hp Hd Hin Hdir)
    as Hdl.
  pose proof (download_view_complete j w path dir Hs Hp Hd Hin) as Hview.
  fold name in Hdl, Hview.
  subst w'. rewrite Hdl. cbn [fst snd].
  set (w' := with_jobs (delete job_id (jobs w)) (remove_tree dir w)).
  assert (Hgone : jobs w' !! job_id = None) by apply lookup_delete_eq.
  assert (Hnodir : dir ∉ dirs w') by apply remove_tree_dirs.
  destruct (cleanup_raises job_id dir w' Hnodir) as [Hraise Hsame].
  split; [done|]. split.
  { unfold download_effects, cleanup_effects, rmtree.
    rewrite Hj, Hview. cbn [fst snd runs_cleanup].
    rewrite decide_True by done. cbn [jobs remove_tree].
    by rewrite Hj. }
  split; [done|].
  split; [intros p Hins; by apply remove_tree_files|].
  split; [done|].
  split; [intros q'; apply download_not_complete; intros j0; by rewrite Hgone|].
  split; [unfold status_route; by rewrite Hgone|].
  split.
  { unfold download_overlapping. rewrite Hj, Hview.
    cbn [fst snd after_request runs_cleanup].
    rewrite (cleanup_removes job_id dir w Hdir). fold w'.
    by rewrite Hsame. }
  split; [done|].
  split; [unfold cleanup_effects; by rewrite Hraise|].
  split; [done|].
  split.
  { intros job0 w0 p n d H.
    apply download_view_sends in H as (j0 & d0 & H1 & H2 & H3 & _ & _ & H6 & _).
    eauto. }
  split; [apply download_view_not_complete|].
  split; [intros q' id w0 p n; apply download_sends|].
  intros q'. apply download_not_complete.
Qed.

Lemma C6_retrieve_once_witness :
  (download true "j" Demo.done_world).1
  = SendFile "/dev/shm/ws1/output.pdf" (lit "Intro-to-Rocq.pdf")
  /\ download_effects true "j" Demo.done_world
     = [Opened "/dev/shm/ws1/output.pdf"; TreeRemoved "/dev/shm/ws1";
        JobDeleted "j"; BodySent "/dev/shm/ws1/output.pdf"]
  /\ ("/dev/shm/ws1"%string ∉ dirs (download true "j" Demo.done_world).2)
  /\ (forall q',
        download q' "j" (download true "j" Demo.done_world).2
        = (NotFound404, (download true "j" Demo.done_world).2))
  /\ status_route "j" (download true "j" Demo.done_world).2 = StatusNotFound.
Proof.
  destruct (C6_retrieve_once true "j" Demo.done_world Demo.done_job
              "/dev/shm/ws1/output.pdf" "/dev/shm/ws1")
    as (H1 & H2 & H3 & _ & _ & H6 & H7 & _);
    [reflexivity | reflexivity | reflexivity | reflexivity | | | ].
  - vm_compute. reflexivity.
  - vm_compute. reflexivity.
  - exact (conj H1 (conj H2 (conj H3 (conj H6 H7)))).
Defined.

Example retrieve_before_complete :
  download true "j" (convert "j" initial_world)
  = (NotFound404, convert "j" initial_world).
Proof. reflexivity. Qed.

(** A record read between line 172 and line 173 is complete and has no
    path yet: line 226 raises, before anything is registered. *)
Example retrieve_half_written :
  download_view (Some (Job complete (175 # 2) "Analyzing Video for Slides"
                         None None None)) Demo.done_world
  = (KeyError500, None).
Proof. reflexivity. Qed.

(** A complete job whose document is not on disk: [send_file] raises.
    The registered cleanup runs on the error response, and not at all
    when exceptions are propagated. *)
Example retrieve_missing_document :
  let w := World {[ "k"%string := Demo2.other_job ]}
                 {[ "/dev/shm/old"%string ]} ∅ in
  (download false "k" w).1 = NoDocument500
  /\ jobs (download false "k" w).2 !! "k"%string = None
  /\ download true "k" w = (NoDocument500, w).
Proof. repeat split. Qed.

(** ** Stored progress *)

Lemma cleanup_jobs_subset (job_id dir : string) (w : world) id j :
  jobs (cleanup job_id dir w) !! id = Some j -> jobs w !! id = Some j.
Proof.
  unfold cleanup, rmtree. case_decide; [|done]. simpl.
  rewrite lookup_delete. by case_decide.
Qed.

(** A retrieval adds no record and changes none. *)
Lemma download_jobs_subset (q : bool) (job_id : string) (w : world) id j :
  jobs (download q job_id w).2 !! id = Some j -> jobs w !! id = Some j.
Proof.
  unfold download, after_request.
  destruct (download_view (jobs w !! job_id) w) as [r [dir|]];
    cbn [fst snd]; [|done].
  destruct (runs_cleanup q r); [apply cleanup_jobs_subset | done].
Qed.

Section ServiceFacts.

Variable isalnum : N -> bool.
Variable isspace : N -> bool.
Variable py_float : pystr -> option Q.
Context {Frame Hist : Type}.
Variable calc_hist : Frame -> Hist.
Variable compareHist : Hist -> Hist -> Q.
Variable imwrite : Frame -> bool.
Variable image_size : Frame -> positive * positive.

Lemma download_below q job_id w :
  below_100 (jobs w) -> below_100 (jobs (download q job_id w).2).
Proof.
  intros Hw id j Hj. apply download_jobs_subset in Hj. by eapply Hw.
Qed.

Lemma perform_below (a : action Frame) w w' :
  within_contract isspace py_float a ->
  below_100 (jobs w) ->
  perform isalnum isspace py_float calc_hist compareHist imwrite
    image_size a w = Some w' ->
  below_100 (jobs w').
Proof.
  intros Hc Hw. destruct a as [id | env id | id | q id]; simpl.
  - intros [= <-]. simpl. by apply below_100_insert.
  - destruct (create_pdf_task _ _ _ _ _ _ _ env id w) as [w1 | w1 |] eqn:E;
      [| |done]; intros [= <-];
      eapply create_pdf_task_below; eauto.
  - by intros [= <-].
  - intros [= <-]. by apply download_below.
Qed.

Lemma run_below (acts : list (action Frame)) w w' :
  Forall (within_contract isspace py_float) acts ->
  below_100 (jobs w) ->
  run isalnum isspace py_float calc_hist compareHist imwrite image_size
    acts w = Some w' ->
  below_100 (jobs w').
Proof.
  intros Hc. revert w. induction Hc as [|a acts Ha Hacts IH]; intros w Hw.
  { by intros [= <-]. }
  simpl. destruct (perform _ _ _ _ _ _ _ a w) as [w1|] eqn:E; [|done].
  apply IH. by eapply perform_below.
Qed.

End ServiceFacts.

Lemma generator_writes_below {Frame Hist : Type}
    (calc_hist : Frame -> Hist) (compareHist : Hist -> Hist -> Q)
    (cap : VideoCapture Frame) (job_id : string) (r t : Q)
    (js : gmap string job) (run : gen_run Frame) :
  frames_to_pdf_generator calc_hist compareHist cap job_id r t js
  = GenDone run ->
  Forall (λ v, v < 100)%Q (analysis_writes run).
Proof.
  intros Hrun. apply Forall_lookup. intros k v Hv.
  destruct (generator_done _ _ _ _ _ _ _ _ Hrun)
    as [[_ ->] | (_ & i & fuel & Hi & _)]; [done|].
  destruct (generator_write_at _ _ _ _ _ _ _ _ _ _ _ Hrun Hi Hv) as [-> Hlt].
  by apply analysis_value_below.
Qed.

(** * Further properties *)

(** ** The generator as a function of the sampled frames *)

Section SlidesFacts.

Context {Frame Hist : Type}.
Variable calc_hist : Frame -> Hist.
Variable compareHist : Hist -> Hist -> Q.

Local Abbreviation generator :=
  (frames_to_pdf_generator calc_hist compareHist).
Local Abbreviation kept_slides := (slides calc_hist compareHist).
Local Abbreviation change := (changed calc_hist compareHist).

Lemma omap_cons {A B} (f : A -> option B) (x : A) (l : list A) :
  omap f (x :: l)
  = match f x with Some y => y :: omap f l | None => omap f l end.
Proof. reflexivity. Qed.

(** The loop entered with a frame held. *)
Lemma gen_loop_slides_held cap job_id t interval total fuel f0 fc js
    its lg' js' :
  gen_loop calc_hist compareHist cap job_id t interval total fuel
    (Some f0) (Some (calc_hist f0)) fc js = Some (its, lg', js') ->
  omap it_emitted its ++ option_list lg'
  = kept_slides t (f0 :: map it_frame its).
Proof.
  revert fuel f0 fc js. induction its as [|it rest IH];
    intros fuel f0 fc js Hloop.
  - by apply gen_loop_inv in Hloop as (-> & _).
  - apply gen_loop_inv in Hloop
      as (fuel' & -> & Hlt & Hread & Hidx & Hw & He & Hrec).
    rewrite omap_cons, He. specialize (IH _ _ _ _ Hrec).
    cbn [map slides step4]. fold (change t f0 (it_frame it)).
    destruct (change t f0 (it_frame it)); cbn [app]; by rewrite IH.
Qed.

(** The loop entered with nothing held, as the generator enters it. *)
Lemma gen_loop_slides cap job_id t interval total fuel fc js its lg' js' :
  gen_loop calc_hist compareHist cap job_id t interval total fuel
    None None fc js = Some (its, lg', js') ->
  omap it_emitted its ++ option_list lg' = kept_slides t (map it_frame its).
Proof.
  intros Hloop. destruct its as [|it rest].
  - by apply gen_loop_inv in Hloop as (-> & _).
  - apply gen_loop_inv in Hloop
      as (fuel' & -> & Hlt & Hread & Hidx & Hw & He & Hrec).
    rewrite omap_cons, He. cbn [step4].
    by apply gen_loop_slides_held in Hrec.
Qed.

(** The frames read do not depend on the threshold, on the job or on the
    job store. *)
Lemma gen_loop_sampled cap interval total fc
    fuel1 job1 t1 lg1 ph1 js1 its1 lg1' js1'
    fuel2 job2 t2 lg2 ph2 js2 its2 lg2' js2' :
  gen_loop calc_hist compareHist cap job1 t1 interval total fuel1
    lg1 ph1 fc js1 = Some (its1, lg1', js1') ->
  gen_loop calc_hist compareHist cap job2 t2 interval total fuel2
    lg2 ph2 fc js2 = Some (its2, lg2', js2') ->
  map it_frame its1 = map it_frame its2.
Proof.
  revert fuel1 fuel2 fc lg1 ph1 js1 lg2 ph2 js2 its2.
  induction its1 as [|it1 rest1 IH];
    intros fuel1 fuel2 fc lg1 ph1 js1 lg2 ph2 js2 its2 H1 H2.
  - apply gen_loop_inv in H1 as (_ & _ & Hstop).
    destruct its2 as [|it2 rest2]; [done|].
    apply gen_loop_inv in H2 as (_ & _ & Hlt & Hread & _).
    destruct Hstop as [Hstop | Hstop]; [lia | congruence].
  - apply gen_loop_inv in H1
      as (fuel1' & -> & Hlt1 & Hread1 & _ & _ & _ & Hrec1).
    destruct its2 as [|it2 rest2].
    + apply gen_loop_inv in H2 as (_ & _ & Hstop).
      destruct Hstop as [Hstop | Hstop]; [lia | congruence].
    + apply gen_loop_inv in H2
        as (fuel2' & -> & Hlt2 & Hread2 & _ & _ & _ & Hrec2).
      assert (Hf : it_frame it1 = it_frame it2) by congruence.
      cbn [map]. rewrite Hf in *. f_equal. by eapply IH.
Qed.

Lemma generator_sampled cap r job1 t1 js1 run1 job2 t2 js2 run2 :
  generator cap job1 r t1 js1 = GenDone run1 ->
  generator cap job2 r t2 js2 = GenDone run2 ->
  sampled run1 = sampled run2.
Proof.
  intros H1 H2. unfold sampled.
  apply generator_done in H1 as [[Ho1 ->] | (Ho1 & i1 & f1 & Hi1 & Hl1)];
    apply generator_done in H2 as [[Ho2 ->] | (Ho2 & i2 & f2 & Hi2 & Hl2)];
    try done; try congruence.
  rewrite Hi1 in Hi2. injection Hi2 as <-. by eapply gen_loop_sampled.
Qed.

Lemma generator_slides cap job_id r t js run :
  generator cap job_id r t js = GenDone run ->
  emitted run = kept_slides t (sampled run).
Proof.
  intros Hrun. unfold emitted, sampled.
  apply generator_done in Hrun
    as [[_ ->] | (_ & i & fuel & _ & Hloop)]; [done|].
  by eapply gen_loop_slides.
Qed.

(** Facts about [slides] alone. *)
Lemma slides_unfold t (f g : Frame) rest :
  kept_slides t (f :: g :: rest)
  = if change t f g then f :: kept_slides t (g :: rest)
    else kept_slides t (g :: rest).
Proof. reflexivity. Qed.

Lemma slides_nonempty t (g : Frame) rest : kept_slides t (g :: rest) <> [].
Proof.
  revert g. induction rest as [|h rest IH]; intros g; [done|].
  rewrite slides_unfold. destruct (change t g h); [done | apply IH].
Qed.

Lemma slides_sublist t (fs : list Frame) : kept_slides t fs `sublist_of` fs.
Proof.
  induction fs as [|f [|g rest] IH]; [done | done |].
  rewrite slides_unfold. destruct (change t f g).
  - by apply sublist_skip.
  - by apply sublist_cons.
Qed.

Lemma slides_last t (fs : list Frame) : last (kept_slides t fs) = last fs.
Proof.
  induction fs as [|f [|g rest] IH]; [done | done |].
  rewrite slides_unfold, last_cons_cons, <- IH.
  destruct (change t f g); [|done].
  rewrite last_cons. destruct (last (kept_slides t (g :: rest))) eqn:E; [done|].
  apply last_None in E. by apply slides_nonempty in E.
Qed.

Lemma slides_unchanged t (fs : list Frame) :
  (forall (k : nat) f g,
     fs !! k = Some f -> fs !! S k = Some g -> change t f g = false) ->
  kept_slides t fs = option_list (last fs).
Proof.
  induction fs as [|f [|g rest] IH]; intros H; [done | done |].
  rewrite slides_unfold, last_cons_cons, (H 0%nat f g) by done.
  apply IH. intros k f' g' Hf Hg. by apply (H (S k)).
Qed.

Lemma slides_all_changed t (fs : list Frame) :
  (forall (k : nat) f g,
     fs !! k = Some f -> fs !! S k = Some g -> change t f g = true) ->
  kept_slides t fs = fs.
Proof.
  induction fs as [|f [|g rest] IH]; intros H; [done | done |].
  rewrite slides_unfold, (H 0%nat f g) by done. f_equal.
  apply IH. intros k f' g' Hf Hg. by apply (H (S k)).
Qed.

Lemma changed_mono t1 t2 (f g : Frame) :
  (t1 <= t2)%Q -> change t1 f g = true -> change t2 f g = true.
Proof.
  unfold changed. rewrite !Qltb_lt. intros Ht H.
  eapply Qlt_le_trans; eauto.
Qed.

Lemma slides_mono t1 t2 (fs : list Frame) :
  (t1 <= t2)%Q -> kept_slides t1 fs `sublist_of` kept_slides t2 fs.
Proof.
  intros Ht. induction fs as [|f [|g rest] IH]; [done | done |].
  rewrite !slides_unfold. destruct (change t1 f g) eqn:E1.
  - rewrite (changed_mono t1 t2 f g Ht E1). by apply sublist_skip.
  - destruct (change t2 f g); [by apply sublist_cons | done].
Qed.

End SlidesFacts.

(** X1.  The frames a finished generator yields are the sampled frames
    that are followed by a scene change, in order, and then the last
    sampled frame. *)
Theorem generator_yields_slides {Frame Hist : Type}
    (calc_hist : Frame -> Hist) (compareHist : Hist -> Hist -> Q)
    (cap : VideoCapture Frame) (job_id : string) (r t : Q)
    (js : gmap string job) (run : gen_run Frame) :
  frames_to_pdf_generator calc_hist compareHist cap job_id r t js
  = GenDone run ->
  emitted run = slides calc_hist compareHist t (sampled run).
Proof. apply generator_slides. Qed.

Lemma generator_yields_slides_witness :
  emitted (Demo2.run_at Demo2.lecture "j" (7 # 10) Demo.one_job)
  = slides Demo.calc_hist Demo.compareHist (7 # 10)
      (sampled (Demo2.run_at Demo2.lecture "j" (7 # 10) Demo.one_job)).
Proof.
  apply (generator_yields_slides Demo.calc_hist Demo.compareHist
           Demo2.lecture "j" 1 (7 # 10) Demo.one_job).
  reflexivity.
Defined.

Example lecture_slides :
  sampled (Demo2.run_at Demo2.lecture "j" (7 # 10) Demo.one_job)
  = [1; 1; 2; 3]%nat
  /\ emitted (Demo2.run_at Demo2.lecture "j" (7 # 10) Demo.one_job)
     = [1; 2; 3]%nat.
Proof. split; reflexivity. Qed.

(** X2.  If no sampled frame differs from the one before it by a score
    below the threshold, line 97 yields nothing and the generator yields
    exactly the last sampled frame. *)
Theorem generator_without_change {Frame Hist : Type}
    (calc_hist : Frame -> Hist) (compareHist : Hist -> Hist -> Q)
    (cap : VideoCapture Frame) (job_id : string) (r t : Q)
    (js : gmap string job) (run : gen_run Frame) :
  frames_to_pdf_generator calc_hist compareHist cap job_id r t js
  = GenDone run ->
  (forall (k : nat) f g,
     sampled run !! k = Some f -> sampled run !! S k = Some g ->
     (t <= compareHist (calc_hist f) (calc_hist g))%Q) ->
  emitted run = option_list (last (sampled run))
  /\ omap it_emitted (iterations run) = [].
Proof.
  intros Hrun Hsame.
  assert (He : emitted run = option_list (last (sampled run))).
  { rewrite (generator_slides _ _ _ _ _ _ _ _ Hrun).
    apply slides_unchanged. intros k f g Hf Hg.
    specialize (Hsame k f g Hf Hg). unfold changed.
    destruct (Qltb _ t) eqn:E; [|done].
    apply Qltb_lt in E. by apply Qlt_not_le in E. }
  split; [done|].
  unfold emitted in He. rewrite (generator_flush _ _ _ _ _ _ _ _ Hrun) in He.
  destruct (omap it_emitted (iterations run)) as [|x l]; [done|].
  apply (f_equal length) in He. rewrite length_app in He.
  destruct (last (sampled run)); simpl in He; lia.
Qed.

Lemma generator_without_change_witness :
  emitted (Demo2.run_at Demo2.frozen "j" (7 # 10) Demo.one_job)
  = option_list
      (last (sampled (Demo2.run_at Demo2.frozen "j" (7 # 10) Demo.one_job)))
  /\ omap it_emitted
       (iterations (Demo2.run_at Demo2.frozen "j" (7 # 10) Demo.one_job))
     = [].
Proof.
  apply (generator_without_change Demo.calc_hist Demo.compareHist
           Demo2.frozen "j" 1 (7 # 10) Demo.one_job).
  - reflexivity.
  - intros [|[|[|k]]] f g; vm_compute; intros Hf Hg; try discriminate;
      injection Hf as <-; injection Hg as <-; discriminate.
Defined.

(** X3.  If every sampled frame differs from the one before it by a score
    below the threshold, the generator yields every sampled frame, once and
    in order. *)
Theorem generator_all_changes {Frame Hist : Type}
    (calc_hist : Frame -> Hist) (compareHist : Hist -> Hist -> Q)
    (cap : VideoCapture Frame) (job_id : string) (r t : Q)
    (js : gmap string job) (run : gen_run Frame) :
  frames_to_pdf_generator calc_hist compareHist cap job_id r t js
  = GenDone run ->
  (forall (k : nat) f g,
     sampled run !! k = Some f -> sampled run !! S k = Some g ->
     (compareHist (calc_hist f) (calc_hist g) < t)%Q) ->
  emitted run = sampled run.
Proof.
  intros Hrun Hdiff. rewrite (generator_slides _ _ _ _ _ _ _ _ Hrun).
  apply slides_all_changed. intros k f g Hf Hg.
  apply Qltb_lt. by eapply Hdiff.
Qed.

Lemma generator_all_changes_witness :
  emitted (Demo2.run_at Demo2.flipping "j" (7 # 10) Demo.one_job)
  = sampled (Demo2.run_at Demo2.flipping "j" (7 # 10) Demo.one_job).
Proof.
  apply (generator_all_changes Demo.calc_hist Demo.compareHist
           Demo2.flipping "j" 1 (7 # 10) Demo.one_job).
  - reflexivity.
  - intros [|[|[|k]]] f g; vm_compute; intros Hf Hg; try discriminate;
      injection Hf as <-; injection Hg as <-; reflexivity.
Defined.

(** X4.  The yielded frames are a subsequence of the sampled frames: no
    frame is yielded that was not sampled, none is yielded out of order,
    and the last frame yielded is the last one sampled. *)
Theorem generator_yields_subsequence {Frame Hist : Type}
    (calc_hist : Frame -> Hist) (compareHist : Hist -> Hist -> Q)
    (cap : VideoCapture Frame) (job_id : string) (r t : Q)
    (js : gmap string job) (run : gen_run Frame) :
  frames_to_pdf_generator calc_hist compareHist cap job_id r t js
  = GenDone run ->
  emitted run `sublist_of` sampled run
  /\ last (emitted run) = last (sampled run).
Proof.
  intros Hrun. rewrite (generator_slides _ _ _ _ _ _ _ _ Hrun).
  split; [apply slides_sublist | apply slides_last].
Qed.

Lemma generator_yields_subsequence_witness :
  emitted (Demo2.run_at Demo2.lecture "j" (7 # 10) Demo.one_job)
    `sublist_of` sampled (Demo2.run_at Demo2.lecture "j" (7 # 10) Demo.one_job)
  /\ last (emitted (Demo2.run_at Demo2.lecture "j" (7 # 10) Demo.one_job))
     = last (sampled (Demo2.run_at Demo2.lecture "j" (7 # 10) Demo.one_job)).
Proof.
  apply (generator_yields_subsequence Demo.calc_hist Demo.compareHist
           Demo2.lecture "j" 1 (7 # 10) Demo.one_job).
  reflexivity.
Defined.

(** X5.  Raising the threshold never loses a slide: on the same video and
    at the same sampling rate, what is yielded at a threshold is a
    subsequence of what is yielded at any higher threshold. *)
Theorem generator_threshold_monotone {Frame Hist : Type}
    (calc_hist : Frame -> Hist) (compareHist : Hist -> Hist -> Q)
    (cap : VideoCapture Frame) (job_id : string) (r t1 t2 : Q)
    (js : gmap string job) (run1 run2 : gen_run Frame) :
  (t1 <= t2)%Q ->
  frames_to_pdf_generator calc_hist compareHist cap job_id r t1 js
  = GenDone run1 ->
  frames_to_pdf_generator calc_hist compareHist cap job_id r t2 js
  = GenDone run2 ->
  emitted run1 `sublist_of` emitted run2.
Proof.
  intros Ht H1 H2.
  rewrite (generator_slides _ _ _ _ _ _ _ _ H1),
    (generator_slides _ _ _ _ _ _ _ _ H2),
    (generator_sampled _ _ _ _ _ _ _ _ _ _ _ _ H1 H2).
  by apply slides_mono.
Qed.

Lemma generator_threshold_monotone_witness :
  emitted (Demo2.run_at Demo2.lecture "j" 0 Demo.one_job)
    `sublist_of` emitted (Demo2.run_at Demo2.lecture "j" (7 # 10) Demo.one_job).
Proof.
  apply (generator_threshold_monotone Demo.calc_hist Demo.compareHist
           Demo2.lecture "j" 1 0 (7 # 10) Demo.one_job);
    [discriminate | reflexivity | reflexivity].
Defined.

(** X6.  Progress reporting has no influence on the result: the sampled
    and the yielded frames are the same whatever the job identifier and
    whatever the job store holds. *)
Theorem generator_ignores_store {Frame Hist : Type}
    (calc_hist : Frame -> Hist) (compareHist : Hist -> Hist -> Q)
    (cap : VideoCapture Frame) (r t : Q)
    (job1 job2 : string) (js1 js2 : gmap string job)
    (run1 run2 : gen_run Frame) :
  frames_to_pdf_generator calc_hist compareHist cap job1 r t js1
  = GenDone run1 ->
  frames_to_pdf_generator calc_hist compareHist cap job2 r t js2
  = GenDone run2 ->
  sampled run1 = sampled run2 /\ emitted run1 = emitted run2.
Proof.
  intros H1 H2.
  pose proof (generator_sampled _ _ _ _ _ _ _ _ _ _ _ _ H1 H2) as Hs.
  split; [done|].
  by rewrite (generator_slides _ _ _ _ _ _ _ _ H1),
    (generator_slides _ _ _ _ _ _ _ _ H2), Hs.
Qed.

Lemma generator_ignores_store_witness :
  sampled (Demo2.run_at Demo2.lecture "j" (7 # 10) Demo.one_job)
  = sampled (Demo2.run_at Demo2.lecture "gone" (7 # 10) ∅)
  /\ emitted (Demo2.run_at Demo2.lecture "j" (7 # 10) Demo.one_job)
     = emitted (Demo2.run_at Demo2.lecture "gone" (7 # 10) ∅).
Proof.
  apply (generator_ignores_store Demo.calc_hist Demo.compareHist
           Demo2.lecture 1 (7 # 10) "j" "gone" Demo.one_job ∅);
    reflexivity.
Defined.

(** ** Where sampling stops, and what the job store holds afterwards *)

Section SamplingFacts.

Context {Frame Hist : Type}.
Variable calc_hist : Frame -> Hist.
Variable compareHist : Hist -> Hist -> Q.

Lemma analysis_update_twice (v1 v2 : Q) (j : job) :
  analysis_update v2 (analysis_update v1 j) = analysis_update v2 j.
Proof. reflexivity. Qed.

(** The store when the loop is left: the record of the job carries the
    last assignment, every other record is as before. *)
Lemma gen_loop_final cap job_id t interval total fuel lg ph fc js
    its lg' js' (id : string) :
  gen_loop calc_hist compareHist cap job_id t interval total fuel
    lg ph fc js = Some (its, lg', js') ->
  js' !! id
  = if decide (job_id = id)
    then match last its with
         | Some it =>
             analysis_update
               (50 + analysis_progress (it_index it) total / 2)%Q
               <$> js !! id
         | None => js !! id
         end
    else js !! id.
Proof.
  revert fuel lg ph fc js. induction its as [|it rest IH];
    intros fuel lg ph fc js Hloop.
  - apply gen_loop_inv in Hloop as (_ & -> & _). by case_decide.
  - apply gen_loop_inv in Hloop
      as (fuel' & -> & Hlt & Hread & Hidx & Hw & He & Hrec).
    rewrite (IH _ _ _ _ _ Hrec), last_cons, apply_write_lookup, Hw.
    unfold analysis_write. case_decide as Hid; [subst id|].
    + destruct (js !! job_id) as [j|] eqn:Hj.
      * destruct (last rest); cbn [fmap option_fmap option_map];
          [by rewrite analysis_update_twice | by rewrite Hidx].
      * by destruct (last rest).
    + by destruct (js !! job_id).
Qed.

Lemma generator_stop cap job_id r t js run interval :
  frames_to_pdf_generator calc_hist compareHist cap job_id r t js
  = GenDone run ->
  isOpened cap = true ->
  frame_interval (CAP_PROP_FPS cap) r = Some interval ->
  let next := Z.of_nat (length (iterations run)) * interval in
  py_int (CAP_PROP_FRAME_COUNT cap) <= next \/ read_at cap next = None.
Proof.
  intros Hrun Ho Hi.
  apply generator_done in Hrun
    as [[Ho' _] | (_ & i & fuel & Hi' & Hloop)]; [congruence|].
  rewrite Hi in Hi'. injection Hi' as <-.
  apply gen_loop_stop in Hloop. simpl in Hloop. exact Hloop.
Qed.

Lemma generator_final cap job_id r t js run (id : string) :
  frames_to_pdf_generator calc_hist compareHist cap job_id r t js
  = GenDone run ->
  jobs_after run !! id
  = if decide (job_id = id)
    then match last (iterations run) with
         | Some it =>
             analysis_update
               (50 + analysis_progress (it_index it)
                       (py_int (CAP_PROP_FRAME_COUNT cap)) / 2)%Q
               <$> js !! id
         | None => js !! id
         end
    else js !! id.
Proof.
  intros Hrun.
  apply generator_done in Hrun
    as [[_ ->] | (_ & i & fuel & _ & Hloop)]; [by case_decide|].
  by eapply gen_loop_final.
Qed.

End SamplingFacts.

(** X7.  Sampling stops exactly at the first multiple of the stride that
    is not below the frame count or at which the read fails: every earlier
    multiple was read, and the number of sampled frames is at most the
    frame count. *)
Theorem sampling_stops_at_first_gap {Frame Hist : Type}
    (calc_hist : Frame -> Hist) (compareHist : Hist -> Hist -> Q)
    (cap : VideoCapture Frame) (job_id : string) (r t : Q)
    (js : gmap string job) (run : gen_run Frame) (stride : Z) :
  frames_to_pdf_generator calc_hist compareHist cap job_id r t js
  = GenDone run ->
  isOpened cap = true ->
  frame_interval (CAP_PROP_FPS cap) r = Some stride ->
  1 <= stride ->
  let total := py_int (CAP_PROP_FRAME_COUNT cap) in
  let n := length (sampled run) in
  (total <= Z.of_nat n * stride \/ read_at cap (Z.of_nat n * stride) = None)
  /\ (forall (k : nat) f,
        sampled run !! k = Some f ->
        Z.of_nat k * stride < total
        /\ read_at cap (Z.of_nat k * stride) = Some f)
  /\ Z.of_nat n <= Z.max 0 total.
Proof.
  intros Hrun Ho Hi Hs total n.
  assert (Hn : n = length (iterations run)).
  { subst n. unfold sampled. by rewrite length_map. }
  assert (Hread : forall (k : nat) f,
            sampled run !! k = Some f ->
            Z.of_nat k * stride < total
            /\ read_at cap (Z.of_nat k * stride) = Some f).
  { intros k f Hk. unfold sampled in Hk.
    change (map it_frame ?l) with (it_frame <$> l) in Hk.
    rewrite list_lookup_fmap in Hk.
    destruct (iterations run !! k) as [it|] eqn:Hit; [|done].
    injection Hk as <-.
    destruct (generator_index _ _ _ _ _ _ _ _ _ _ _ Hrun Hi Hit) as [H1 H2].
    rewrite <- H1. split; [|done].
    apply generator_done in Hrun
      as [[Ho' _] | (_ & i & fuel & Hi' & Hloop)]; [congruence|].
    by destruct (gen_loop_index _ _ _ _ _ _ _ _ _ _ _ _ _ _ _ _ _ Hloop Hit)
      as (_ & H3 & _). }
  split.
  { rewrite Hn. by eapply generator_stop. }
  split; [done|].
  destruct n as [|m] eqn:En; [lia|].
  destruct (lookup_lt_is_Some_2 (sampled run) m) as [f Hf]; [lia|].
  destruct (Hread m f Hf) as [Hlt _]. nia.
Qed.

Lemma sampling_stops_at_first_gap_witness :
  sampled (Demo2.run_at Demo2.truncated "j" (7 # 10) Demo.one_job)
  = [1; 2]%nat
  /\ (5 <= Z.of_nat 2 * 1 \/ read_at Demo2.truncated (Z.of_nat 2 * 1) = None).
Proof.
  split; [reflexivity|].
  destruct (sampling_stops_at_first_gap Demo.calc_hist Demo.compareHist
              Demo2.truncated "j" 1 (7 # 10) Demo.one_job
              (Demo2.run_at Demo2.truncated "j" (7 # 10) Demo.one_job) 1)
    as [H _]; [reflexivity | reflexivity | reflexivity | lia |].
  exact H.
Defined.

(** X8.  After a finished run the job store differs from the one before it
    at most in the record of the job, and there only in the progress and
    the stage: if a frame was sampled they hold the value computed for the
    last sampled index and the analysis stage; if none was, or if the job
    is not in the store, the store is as before. *)
Theorem generator_store_effect {Frame Hist : Type}
    (calc_hist : Frame -> Hist) (compareHist : Hist -> Hist -> Q)
    (cap : VideoCapture Frame) (job_id : string) (r t : Q)
    (js : gmap string job) (run : gen_run Frame) :
  frames_to_pdf_generator calc_hist compareHist cap job_id r t js
  = GenDone run ->
  (forall id, id <> job_id -> jobs_after run !! id = js !! id)
  /\ (iterations run = [] -> jobs_after run = js)
  /\ (js !! job_id = None -> jobs_after run = js)
  /\ (forall j it,
        js !! job_id = Some j -> last (iterations run) = Some it ->
        jobs_after run !! job_id
        = Some (Job (status j)
                    (50 + analysis_progress (it_index it)
                            (py_int (CAP_PROP_FRAME_COUNT cap)) / 2)%Q
                    "Analyzing Video for Slides"
                    (filepath j) (temp_dir j) (filename j))).
Proof.
  intros Hrun.
  pose proof (λ id, generator_final calc_hist compareHist cap job_id r t js
                      run id Hrun) as Hfinal.
  split.
  { intros id Hne. by rewrite Hfinal, decide_False. }
  split.
  { intros Hnil. apply map_eq. intros id. rewrite Hfinal, Hnil.
    by case_decide. }
  split.
  { intros Hnone. apply map_eq. intros id. rewrite Hfinal.
    case_decide; [subst id|done]. rewrite Hnone.
    by destruct (last (iterations run)). }
  intros j it Hj Hlast. by rewrite Hfinal, decide_True, Hlast, Hj.
Qed.

Lemma generator_store_effect_witness :
  jobs_after (Demo2.run_at Demo2.lecture "j" (7 # 10) (jobs Demo2.two_jobs))
    !! "k"%string
  = Some Demo2.other_job.
Proof.
  destruct (generator_store_effect Demo.calc_hist Demo.compareHist
              Demo2.lecture "j" 1 (7 # 10) (jobs Demo2.two_jobs)
              (Demo2.run_at Demo2.lecture "j" (7 # 10) (jobs Demo2.two_jobs)))
    as [H _]; [reflexivity|].
  rewrite (H "k"%string); [reflexivity | discriminate].
Defined.

(** ** The progress hook and the download as a whole *)

Section HookEffect.

Variable isspace : N -> bool.
Variable py_float : pystr -> option Q.
Variable job_id : string.

Lemma reported_cons d ds :
  reported isspace py_float (d :: ds)
  = match (if decide (d_status d = "downloading"%string)
           then py_float (percent_str isspace d) else None) with
    | Some p => p :: reported isspace py_float ds
    | None => reported isspace py_float ds
    end.
Proof. reflexivity. Qed.

(** The store after a sequence of hook calls. *)
Lemma run_hooks_final ds js (id : string) :
  run_hooks isspace py_float job_id ds js !! id
  = if decide (job_id = id)
    then match last (reported isspace py_float ds) with
         | Some p => downloading_update p <$> js !! id
         | None => js !! id
         end
    else js !! id.
Proof.
  revert js. induction ds as [|d ds IH]; intros js.
  { simpl. by case_decide. }
  cbn [run_hooks]. rewrite IH, progress_hook_lookup, reported_cons.
  unfold hook_write. case_decide as Hid; [subst id|].
  - destruct (decide (d_status d = "downloading"%string)) as [Hd|Hd];
      [|done].
    destruct (js !! job_id) as [j|] eqn:Hj.
    + destruct (py_float (percent_str isspace d)) as [p|]; [|done].
      rewrite last_cons.
      by destruct (last (reported isspace py_float ds)).
    + destruct (py_float (percent_str isspace d)) as [p|]; [|done].
      rewrite last_cons.
      by destruct (last (reported isspace py_float ds)).
  - destruct (decide (d_status d = "downloading"%string)); [|done].
    destruct (js !! job_id); [|done].
    by destruct (py_float (percent_str isspace d)).
Qed.

End HookEffect.

(** X9.  A call of the progress hook never adds or removes a job and never
    touches another job's record; in the record of its own job it leaves
    the status and the result keys alone.  It changes nothing at all when
    the status of the call is not ['downloading'] or when the job is not in
    the store. *)
Theorem progress_hook_footprint (isspace : N -> bool)
    (py_float : pystr -> option Q) (job_id : string) (d : hook_dict)
    (js : gmap string job) :
  let js' := progress_hook isspace py_float job_id d js in
  (forall id, id <> job_id -> js' !! id = js !! id)
  /\ (forall id, is_Some (js' !! id) <-> is_Some (js !! id))
  /\ (forall j j',
        js !! job_id = Some j -> js' !! job_id = Some j' ->
        status j' = status j /\ filepath j' = filepath j
        /\ temp_dir j' = temp_dir j /\ filename j' = filename j)
  /\ (d_status d <> "downloading"%string -> js' = js)
  /\ (js !! job_id = None -> js' = js).
Proof.
  intros js'. subst js'. split.
  { intros id Hne. rewrite progress_hook_lookup.
    destruct (hook_write _ _ _ _ _); [|done]. by rewrite decide_False. }
  split.
  { intros id. rewrite progress_hook_lookup.
    destruct (hook_write _ _ _ _ _); [|done].
    case_decide; [|done]. by rewrite fmap_is_Some. }
  split.
  { intros j j' Hj. rewrite progress_hook_lookup.
    destruct (hook_write _ _ _ _ _).
    - rewrite decide_True, Hj by done. by intros [= <-].
    - rewrite Hj. by intros [= <-]. }
  split.
  - intros Hd. unfold progress_hook, hook_write. by rewrite decide_False.
  - intros Hj. unfold progress_hook, hook_write. rewrite Hj.
    by case_decide.
Qed.

(** X10.  Over a whole download, whatever yt-dlp reports and whether it
    fails or not, the job store changes at most in the progress and the
    stage of the job of the task.  No job is added or removed and no other
    record is touched; the store is as before when the job is not in it or
    when no percentage was reported; otherwise the record of the job keeps
    its status and its result keys and ends with half of the last
    percentage reported, not of the highest, and with the download
    stage. *)
Theorem download_video_store_effect (isspace : N -> bool)
    (py_float : pystr -> option Q) (run : download_run)
    (output_dir job_id : string) (w : world) :
  let res := download_video isspace py_float run output_dir job_id w in
  let percents := reported isspace py_float (hook_calls run) in
  (forall id, id <> job_id -> jobs res.2 !! id = jobs w !! id)
  /\ (forall id, is_Some (jobs res.2 !! id) <-> is_Some (jobs w !! id))
  /\ (jobs w !! job_id = None -> jobs res.2 = jobs w)
  /\ (percents = [] -> jobs res.2 = jobs w)
  /\ (forall j p,
        jobs w !! job_id = Some j -> last percents = Some p ->
        jobs res.2 !! job_id
        = Some (Job (status j) (p / 2)%Q "Downloading Video"
                    (filepath j) (temp_dir j) (filename j))).
Proof.
  intros res percents. subst res percents.
  pose proof (λ id, run_hooks_final isspace py_float job_id (hook_calls run)
                      (jobs w) id) as Hfinal.
  rewrite download_video_jobs. split.
  { intros id Hne. by rewrite Hfinal, decide_False. }
  split.
  { intros id. rewrite Hfinal. case_decide; [|done].
    destruct (last _); [|done]. by rewrite fmap_is_Some. }
  split.
  { intros Hnone. apply map_eq. intros id. rewrite Hfinal.
    case_decide; [subst id|done]. rewrite Hnone. by destruct (last _). }
  split.
  { intros Hnil. apply map_eq. intros id. rewrite Hfinal, Hnil.
    by case_decide. }
  intros j p Hj Hlast. by rewrite Hfinal, decide_True, Hlast, Hj.
Qed.

Lemma download_video_store_effect_witness :
  jobs (download_video ascii_space decimal_float
          (DownloadRun [Demo.downloading "80.0%"; Demo.downloading "20.0%"]
                       None [])
          "/dev/shm/ws" "j" (convert "j" initial_world)).2 !! "j"%string
  = Some (Job pending ((200 # 10) / 2) "Downloading Video" None None None).
Proof.
  destruct (download_video_store_effect ascii_space decimal_float
              (DownloadRun [Demo.downloading "80.0%";
                            Demo.downloading "20.0%"] None [])
              "/dev/shm/ws" "j" (convert "j" initial_world))
    as (_ & _ & _ & _ & H).
  apply (H Demo.fresh_job (200 # 10)%Q); reflexivity.
Defined.

(** ** The display filename *)

(** X11.  Every title gets a filename that is its stem followed by
    [.pdf]: the name is never empty, and the default name of line 162 is
    given only to a title whose stem is [video-slides] itself; a title of
    which nothing is left gets [.pdf].  Every code point of the name is
    alphanumeric or one of [-], [_], [.], [p], [d], [f]. *)
Theorem safe_filename_shape (isalnum isspace : N -> bool) (title : pystr) :
  safe_filename isalnum isspace title
  = stem isalnum isspace title ++ lit ".pdf"
  /\ (4 <= length (safe_filename isalnum isspace title))%nat
  /\ (stem isalnum isspace title = [] ->
      safe_filename isalnum isspace title = lit ".pdf")
  /\ (safe_filename isalnum isspace title = lit "video-slides.pdf"
      <-> stem isalnum isspace title = lit "video-slides")
  /\ Forall (λ c, isalnum c = true \/ In c (lit "-_.pdf"))
            (safe_filename isalnum isspace title).
Proof.
  rewrite safe_filename_stem. split; [done|]. split.
  { rewrite length_app. simpl. lia. }
  split; [by intros ->|]. split.
  { split; [|by intros ->].
    change (lit "video-slides.pdf") with (lit "video-slides" ++ lit ".pdf").
    by intros H%app_inv_tail. }
  apply Forall_app. split.
  - eapply Forall_impl; [apply stem_chars|]. intros c [-> | [Hw _]].
    + right. by left.
    + unfold re_word in Hw. apply orb_true_iff in Hw as [Hw | Hw];
        [by left|]. apply N.eqb_eq in Hw as ->. right. right. by left.
  - repeat constructor; right; simpl; tauto.
Qed.

(** ** Pages and files of the assembler *)

(** X12.  A page carries its frame at x = y = 10 with width 190, which
    with the right margin fills the page width of 210; its height keeps
    the aspect ratio of the image: height times image width equals 190
    times image height. *)
Theorem place_keeps_aspect_ratio {Frame : Type}
    (image_size : Frame -> positive * positive) (frame : Frame) :
  let p := place image_size frame in
  let img_w := inject_Z (Z.pos (image_size frame).1) in
  let img_h := inject_Z (Z.pos (image_size frame).2) in
  page_image p = frame
  /\ page_x p = 10%Q /\ page_y p = 10%Q
  /\ (page_w p == 190)%Q
  /\ (page_x p + page_w p + margin == pdf_w)%Q
  /\ (page_h p * img_w == 190 * img_h)%Q
  /\ (0 < page_h p)%Q.
Proof.
  unfold place. destruct (image_size frame) as [w h]. cbn [fst snd].
  cbv zeta. cbn [page_image page_x page_y page_w page_h].
  assert (Hw : (0 < inject_Z (Z.pos w))%Q) by reflexivity.
  assert (Hh : (0 < inject_Z (Z.pos h))%Q) by reflexivity.
  split; [done|]. split; [done|]. split; [done|].
  split; [reflexivity|]. split; [reflexivity|].
  assert (Hq : ((pdf_w - 2 * margin) / (inject_Z (Z.pos w) / inject_Z (Z.pos h))
                == 190 * inject_Z (Z.pos h) / inject_Z (Z.pos w))%Q).
  { unfold pdf_w, margin. field. split; intros E; rewrite E in *;
      by apply Qlt_irrefl in Hw || by apply Qlt_irrefl in Hh. }
  split.
  - rewrite Hq. field. intros E. rewrite E in Hw. by apply Qlt_irrefl in Hw.
  - rewrite Hq. apply Qlt_shift_div_l; [done|]. rewrite Qmult_0_l.
    apply Qmult_lt_0_compat; [reflexivity | done].
Qed.

Lemma save_frames_to_pdf_disk {Frame : Type}
    (imwrite : Frame -> bool) (image_size : Frame -> positive * positive)
    (tempfile_name : nat -> string) (frames : list Frame)
    (output_pdf : string) (fs : gset string) :
  let res := save_frames_to_pdf imwrite image_size tempfile_name
               frames output_pdf fs in
  (forall p,
     p ∈ files_after res
     <-> (success res = true /\ p = output_pdf)
         \/ (p ∈ fs
             /\ forall k : nat, (k < length frames)%nat ->
                                p <> tempfile_name k))
  /\ (success res = true <-> exists f, In f frames /\ imwrite f = true)
  /\ (forall pages, document res = Some pages ->
        length pages = length (List.filter imwrite frames)).
Proof.
  intros res. subst res. unfold save_frames_to_pdf.
  pose proof (save_loop_pages imwrite image_size tempfile_name frames 0 [] 0 fs)
    as Hp.
  pose proof (save_loop_count imwrite image_size tempfile_name frames 0 [] 0 fs)
    as Hc.
  pose proof (save_loop_files imwrite image_size tempfile_name frames 0 [] 0 fs)
    as Hfs.
  destruct (save_loop _ _ _ frames 0 [] 0 fs) as [[pages n] fs'].
  cbn [fst snd] in Hp, Hc, Hfs. subst pages n.
  assert (Hex : 0 < 0 + Z.of_nat (length (List.filter imwrite frames))
                <-> exists f, In f frames /\ imwrite f = true).
  { split.
    - intros Hpos. destruct (List.filter imwrite frames) as [|f l] eqn:E;
        [simpl in Hpos; lia|].
      exists f. apply List.filter_In. rewrite E. by left.
    - intros (f & Hin & Hf).
      assert (Hin' : In f (List.filter imwrite frames))
        by by apply List.filter_In.
      destruct (List.filter imwrite frames); [done | simpl; lia]. }
  destruct (Z.ltb_spec 0 (0 + Z.of_nat (length (List.filter imwrite frames))))
    as [Hpos | Hnone]; cbn [success document files_after].
  - split.
    { intros p. rewrite elem_of_union, elem_of_singleton, Hfs.
      setoid_rewrite Nat.add_0_l. tauto. }
    split; [by rewrite <- Hex|].
    intros pages [= <-]. cbn [app]. by rewrite length_map.
  - split.
    { intros p. rewrite Hfs. setoid_rewrite Nat.add_0_l.
      split; [tauto | by intros [[? _] | ?]]. }
    split; [|done]. rewrite <- Hex. split; [done | lia].
Qed.

(** X13.  After a call of the assembler the files on disk are those from
    before that do not carry the name of one of its temporary files, and
    the document if and only if the call succeeded; the document has as
    many pages as frames were encoded. *)
Theorem save_frames_to_pdf_files {Frame : Type}
    (imwrite : Frame -> bool) (image_size : Frame -> positive * positive)
    (tempfile_name : nat -> string) (frames : list Frame)
    (output_pdf : string) (fs : gset string) :
  let res := save_frames_to_pdf imwrite image_size tempfile_name
               frames output_pdf fs in
  (forall p,
     p ∈ files_after res
     <-> (success res = true /\ p = output_pdf)
         \/ (p ∈ fs
             /\ forall k : nat, (k < length frames)%nat ->
                                p <> tempfile_name k))
  /\ (success res = true <-> exists f, In f frames /\ imwrite f = true)
  /\ (forall pages, document res = Some pages ->
        length pages = length (List.filter imwrite frames)).
Proof.
  apply save_frames_to_pdf_disk.
Qed.

(** ** The task as a whole *)

Lemma rmtree_ignore_errors_files_iff d w p :
  d ∈ dirs w ->
  p ∈ files (rmtree_ignore_errors d w)
  <-> p ∈ files w /\ inside d p = false.
Proof.
  intros Hd. unfold rmtree_ignore_errors, rmtree.
  rewrite decide_True by done. simpl. rewrite elem_of_filter. tauto.
Qed.

Lemma rmtree_ignore_errors_other d w d' :
  d' <> d -> d' ∈ dirs (rmtree_ignore_errors d w) <-> d' ∈ dirs w.
Proof.
  intros Hne. unfold rmtree_ignore_errors, rmtree.
  case_decide; [|done]. simpl.
  rewrite elem_of_difference, elem_of_singleton. tauto.
Qed.

Lemma fail_task_released job_id dir w :
  dir ∈ dirs w ->
  let w' := fail_task job_id dir w in
  (dir ∉ dirs w')
  /\ (forall p, inside dir p = true -> p ∉ files w')
  /\ (forall p, inside dir p = false -> p ∈ files w' <-> p ∈ files w)
  /\ (forall d, d <> dir -> d ∈ dirs w' <-> d ∈ dirs w).
Proof.
  intros Hd w'. subst w'. unfold fail_task. split.
  { apply rmtree_ignore_errors_dirs. }
  split.
  { intros p Hp. by apply rmtree_ignore_errors_files. }
  split.
  { intros p Hp. rewrite rmtree_ignore_errors_files_iff by done.
    simpl. tauto. }
  intros d Hne. by rewrite rmtree_ignore_errors_other.
Qed.

Lemma complete_task_lookup job_id output_pdf dir name w id :
  jobs (complete_task job_id output_pdf dir name w) !! id
  = if decide (job_id = id)
    then (λ j, Job complete (progress j) (stage j) (Some output_pdf)
                   (Some dir) (Some name)) <$> jobs w !! id
    else jobs w !! id.
Proof.
  unfold complete_task. simpl. rewrite lookup_alter.
  case_decide; [|done]. subst. by destruct (jobs w !! id).
Qed.

Section TaskOutcome.

Variable isalnum : N -> bool.
Variable isspace : N -> bool.
Variable py_float : pystr -> option Q.
Context {Frame Hist : Type}.
Variable calc_hist : Frame -> Hist.
Variable compareHist : Hist -> Hist -> Q.
Variable imwrite : Frame -> bool.
Variable image_size : Frame -> positive * positive.

Local Abbreviation task :=
  (create_pdf_task isalnum isspace py_float calc_hist compareHist
     imwrite image_size).
Local Abbreviation downloaded := (after_download isspace py_float).

Lemma after_download_lookup (env : task_env Frame) job_id w id :
  jobs (downloaded env job_id w) !! id
  = if decide (job_id = id)
    then match last (reported isspace py_float
                       (hook_calls (env_download env))) with
         | Some p =>
             downloading_update p <$> (set_status processing <$> jobs w !! id)
         | None => set_status processing <$> jobs w !! id
         end
    else jobs w !! id.
Proof.
  unfold after_download. rewrite download_video_jobs, run_hooks_final.
  simpl. rewrite lookup_alter. by case_decide; subst.
Qed.

Lemma after_download_files (env : task_env Frame) job_id w p :
  p ∈ files (downloaded env job_id w)
  <-> p ∈ files w
      \/ exists name,
           name ∈ left_behind (env_download env)
           /\ p = path_join (env_temp_dir env) name.
Proof.
  unfold after_download. rewrite download_video_files.
  rewrite elem_of_union, elem_of_list_to_set, list_elem_of_fmap.
  cbn [files mkdtemp with_jobs]. split.
  - intros [(name & -> & H) | H]; [right; eauto | by left].
  - intros [H | (name & H & ->)]; [by right | left; eauto].
Qed.

(** The task, with the state after the download named. *)
Lemma create_pdf_task_unfold (env : task_env Frame) job_id w :
  is_Some (jobs w !! job_id) ->
  task env job_id w
  = let dir := env_temp_dir env in
    let w2 := downloaded env job_id w in
    match info (env_download env) with
    | None => Finished (fail_task job_id dir w2)
    | Some (ext, title) =>
        match frames_to_pdf_generator calc_hist compareHist
                (env_capture env (path_join dir ("video." ++ ext)))
                job_id 1 (7 # 10) (jobs w2) with
        | GenNoExit => Hung
        | GenZeroDivision => Finished (fail_task job_id dir w2)
        | GenDone r =>
            let out := path_join dir "output.pdf" in
            let res := save_frames_to_pdf imwrite image_size
                         (env_tempfile_name env) (emitted r) out (files w2) in
            let w3 := World (jobs_after r) (dirs w2) (files_after res) in
            if success res
            then Finished (complete_task job_id out dir
                             (safe_filename isalnum isspace title) w3)
            else Finished (fail_task job_id dir w3)
        end
    end.
Proof.
  intros [j Hj]. unfold create_pdf_task, after_download. cbv zeta.
  change (jobs (mkdtemp (env_temp_dir env) w)) with (jobs w). rewrite Hj.
  pose proof (download_video_result isspace py_float (env_download env)
                (env_temp_dir env) job_id
                (with_jobs (alter (set_status processing) job_id (jobs w))
                   (mkdtemp (env_temp_dir env) w))) as Hres.
  destruct (download_video _ _ _ _ _ _) as [res w2]. cbn [fst snd] in *.
  destruct (info (env_download env)) as [[ext title]|];
    simpl in Hres; subst res; [|done].
  by rewrite decide_False by apply path_join_nonempty.
Qed.

(** What a task that returns leaves for its own job. *)
Lemma create_pdf_task_own (env : task_env Frame) job_id w w' :
  is_Some (jobs w !! job_id) ->
  task env job_id w = Finished w' ->
  let dir := env_temp_dir env in
  let out := path_join dir "output.pdf" in
  exists j',
    jobs w' !! job_id = Some j'
    /\ ((status j' = failed
         /\ (dir ∉ dirs w')
         /\ (forall p, inside dir p = true -> p ∉ files w'))
        \/ (status j' = complete
            /\ filepath j' = Some out /\ temp_dir j' = Some dir
            /\ (exists title,
                  snd <$> info (env_download env) = Some title
                  /\ filename j' = Some (safe_filename isalnum isspace title))
            /\ dir ∈ dirs w' /\ out ∈ files w')).
Proof.
  intros Hjob. rewrite create_pdf_task_unfold by done. cbv zeta.
  pose proof (after_download_dirs isspace py_float env job_id w) as Hdirs.
  pose proof (proj2 (after_download_present isspace py_float env job_id w)
                Hjob) as [j2 Hj2].
  assert (Hin : env_temp_dir env ∈ dirs (downloaded env job_id w)).
  { rewrite Hdirs. apply elem_of_union_l. by apply elem_of_singleton. }
  assert (Hfail : forall wX,
            dirs wX = dirs (downloaded env job_id w) ->
            is_Some (jobs wX !! job_id) ->
            exists j',
              jobs (fail_task job_id (env_temp_dir env) wX) !! job_id
              = Some j'
              /\ status j' = failed
              /\ (env_temp_dir env
                    ∉ dirs (fail_task job_id (env_temp_dir env) wX))
              /\ (forall p, inside (env_temp_dir env) p = true ->
                    p ∉ files (fail_task job_id (env_temp_dir env) wX))).
  { intros wX HdX [jX HjX].
    destruct (fail_task_released job_id (env_temp_dir env) wX)
      as (H1 & H2 & _); [by rewrite HdX|].
    exists (set_status failed jX).
    rewrite fail_task_lookup, decide_True, HjX by done. eauto. }
  destruct (info (env_download env)) as [[ext title]|].
  2: { intros [= <-]. destruct (Hfail _ eq_refl (ex_intro _ _ Hj2))
         as (j' & H1 & H2 & H3 & H4). exists j'. split; [done|]. by left. }
  destruct (frames_to_pdf_generator _ _ _ _ _ _ _) as [r| |] eqn:Hgen;
    [| |done].
  2: { intros [= <-]. destruct (Hfail _ eq_refl (ex_intro _ _ Hj2))
         as (j' & H1 & H2 & H3 & H4). exists j'. split; [done|]. by left. }
  pose proof (generator_final _ _ _ _ _ _ _ _ job_id Hgen) as Hfin.
  rewrite decide_True, Hj2 in Hfin by done.
  assert (Hj3 : is_Some (jobs_after r !! job_id)).
  { rewrite Hfin. by destruct (last (iterations r)). }
  destruct (success _) eqn:Hsucc; intros [= <-].
  - destruct Hj3 as [j3 Hj3]. eexists. split.
    { rewrite complete_task_lookup, decide_True by done. simpl.
      by rewrite Hj3. }
    right. simpl. split; [done|]. split; [done|]. split; [done|].
    split; [by exists title|]. split; [done|].
    apply save_frames_to_pdf_disk. by left.
  - destruct (Hfail (World (jobs_after r) (dirs (downloaded env job_id w))
                       (files_after
                          (save_frames_to_pdf imwrite image_size
                             (env_tempfile_name env) (emitted r)
                             (path_join (env_temp_dir env) "output.pdf")
                             (files (downloaded env job_id w))))))
      as (j' & H1 & H2 & H3 & H4); [done | done |].
    exists j'. split; [done|]. by left.
Qed.

(** What it leaves for everything else. *)
Lemma create_pdf_task_others (env : task_env Frame) job_id w w' :
  task env job_id w = Finished w' \/ task env job_id w = Crashed w' ->
  let dir := env_temp_dir env in
  (forall id, id <> job_id -> jobs w' !! id = jobs w !! id)
  /\ (forall d, d <> dir -> d ∈ dirs w' <-> d ∈ dirs w)
  /\ (forall p,
        inside dir p = false ->
        (forall k, p <> env_tempfile_name env k) ->
        p ∈ files w' <-> p ∈ files w).
Proof.
  intros Hout dir.
  destruct (jobs w !! job_id) as [j|] eqn:Hj.
  2: { unfold create_pdf_task in Hout. cbv zeta in Hout.
       change (jobs (mkdtemp (env_temp_dir env) w)) with (jobs w) in Hout.
       rewrite Hj in Hout. destruct Hout as [[=] | [= <-]].
       split; [done|]. split; [|done]. intros d Hne. simpl.
       rewrite elem_of_union, elem_of_singleton. tauto. }
  rewrite create_pdf_task_unfold in Hout by eauto. cbv zeta in Hout.
  pose proof (after_download_dirs isspace py_float env job_id w) as Hdirs.
  assert (Hin : env_temp_dir env ∈ dirs (downloaded env job_id w)).
  { rewrite Hdirs. apply elem_of_union_l. by apply elem_of_singleton. }
  assert (Hjobs2 : forall id, id <> job_id ->
            jobs (downloaded env job_id w) !! id = jobs w !! id).
  { intros id Hne. by rewrite after_download_lookup, decide_False. }
  assert (Hdirs2 : forall d, d <> dir ->
            d ∈ dirs (downloaded env job_id w) <-> d ∈ dirs w).
  { intros d Hne. rewrite Hdirs, elem_of_union, elem_of_singleton. tauto. }
  assert (Hfiles2 : forall p, inside dir p = false ->
            p ∈ files (downloaded env job_id w) <-> p ∈ files w).
  { intros p Hp. rewrite after_download_files. split; [|by left].
    intros [H | (name & _ & ->)]; [done|].
    subst dir. by rewrite inside_path_join in Hp. }
  assert (Hfail : forall wX,
            dirs wX = dirs (downloaded env job_id w) ->
            (forall id, id <> job_id -> jobs wX !! id = jobs w !! id) ->
            (forall p, inside dir p = false ->
               (forall k, p <> env_tempfile_name env k) ->
               p ∈ files wX <-> p ∈ files w) ->
            (forall id, id <> job_id ->
               jobs (fail_task job_id dir wX) !! id = jobs w !! id)
            /\ (forall d, d <> dir ->
                  d ∈ dirs (fail_task job_id dir wX) <-> d ∈ dirs w)
            /\ (forall p, inside dir p = false ->
                  (forall k, p <> env_tempfile_name env k) ->
                  p ∈ files (fail_task job_id dir wX) <-> p ∈ files w)).
  { intros wX HdX HjX HfX.
    destruct (fail_task_released job_id dir wX) as (_ & _ & H3 & H4);
      [by rewrite HdX|].
    split.
    { intros id Hne. rewrite fail_task_lookup, decide_False by done.
      by apply HjX. }
    split.
    { intros d Hne. by rewrite H4, HdX, Hdirs2. }
    intros p Hp Hk. by rewrite H3, HfX. }
  destruct (info (env_download env)) as [[ext title]|].
  2: { destruct Hout as [[= <-] | [=]]. apply Hfail; [done | done |].
       intros p Hp _. by apply Hfiles2. }
  destruct (frames_to_pdf_generator _ _ _ _ _ _ _) as [r| |] eqn:Hgen.
  3: { by destruct Hout as [[=] | [=]]. }
  2: { destruct Hout as [[= <-] | [=]]. apply Hfail; [done | done |].
       intros p Hp _. by apply Hfiles2. }
  assert (Hjobs3 : forall id, id <> job_id ->
            jobs_after r !! id = jobs w !! id).
  { intros id Hne.
    rewrite (generator_final _ _ _ _ _ _ _ _ id Hgen), decide_False by done.
    by apply Hjobs2. }
  assert (Hfiles3 : forall p, inside dir p = false ->
            (forall k, p <> env_tempfile_name env k) ->
            p ∈ files_after
                  (save_frames_to_pdf imwrite image_size
                     (env_tempfile_name env) (emitted r)
                     (path_join (env_temp_dir env) "output.pdf")
                     (files (downloaded env job_id w)))
            <-> p ∈ files w).
  { intros p Hp Hk.
    destruct (save_frames_to_pdf_disk imwrite image_size
                (env_tempfile_name env) (emitted r)
                (path_join (env_temp_dir env) "output.pdf")
                (files (downloaded env job_id w))) as [Hdisk _].
    rewrite Hdisk, Hfiles2 by done. split.
    - intros [[_ ->] | [H _]]; [|done].
      subst dir. by rewrite inside_path_join in Hp.
    - intros H. right. split; [done|]. intros k _. apply Hk. }
  destruct (success _); destruct Hout as [[= <-] | [=]].
  - split.
    { intros id Hne. rewrite complete_task_lookup, decide_False by done.
      by apply Hjobs3. }
    split; [done|]. done.
  - by apply Hfail.
Qed.

End TaskOutcome.

Section TaskTheorems.

Variable isalnum : N -> bool.
Variable isspace : N -> bool.
Variable py_float : pystr -> option Q.
Context {Frame Hist : Type}.
Variable calc_hist : Frame -> Hist.
Variable compareHist : Hist -> Hist -> Q.
Variable imwrite : Frame -> bool.
Variable image_size : Frame -> positive * positive.

Local Abbreviation task :=
  (create_pdf_task isalnum isspace py_float calc_hist compareHist
     imwrite image_size).
Local Abbreviation downloaded := (after_download isspace py_float).
Local Abbreviation service :=
  (run isalnum isspace py_float calc_hist compareHist imwrite image_size).

Lemma create_pdf_task_finishes (env : task_env Frame) job_id w :
  is_Some (jobs w !! job_id) ->
  (forall path, (0 <= CAP_PROP_FPS (env_capture env path))%Q) ->
  exists w', task env job_id w = Finished w'.
Proof.
  intros Hjob Hfps. rewrite create_pdf_task_unfold by done. cbv zeta.
  destruct (info (env_download env)) as [[ext title]|]; [|eauto].
  destruct (generator_finishes calc_hist compareHist
              (env_capture env
                 (path_join (env_temp_dir env) ("video." ++ ext)))
              job_id 1 (7 # 10) (jobs (downloaded env job_id w)))
    as [r ->]; [apply Hfps | done |].
  destruct (success _); eauto.
Qed.

Lemma create_pdf_task_missing (env : task_env Frame) job_id w :
  jobs w !! job_id = None ->
  task env job_id w = Crashed (mkdtemp (env_temp_dir env) w).
Proof.
  intros Hj. unfold create_pdf_task. cbv zeta.
  change (jobs (mkdtemp (env_temp_dir env) w)) with (jobs w).
  by rewrite Hj.
Qed.

End TaskTheorems.

(** X14.  When the download fails the task returns with the job marked as
    failed: the record keeps half of the last percentage reported (or its
    old progress), the directory of the task is gone with every file in it,
    and the files outside it are as before. *)
Theorem task_download_failure {Frame Hist : Type}
    (isalnum isspace : N -> bool) (py_float : pystr -> option Q)
    (calc_hist : Frame -> Hist) (compareHist : Hist -> Hist -> Q)
    (imwrite : Frame -> bool) (image_size : Frame -> positive * positive)
    (env : task_env Frame) (job_id : string) (w : world) (j : job) :
  jobs w !! job_id = Some j ->
  info (env_download env) = None ->
  let dir := env_temp_dir env in
  let percents := reported isspace py_float (hook_calls (env_download env)) in
  exists w',
    create_pdf_task isalnum isspace py_float calc_hist compareHist
      imwrite image_size env job_id w = Finished w'
    /\ jobs w' !! job_id
       = Some (Job failed
                 (match last percents with
                  | Some p => p / 2 | None => progress j end)%Q
                 (match last percents with
                  | Some _ => "Downloading Video" | None => stage j end)
                 (filepath j) (temp_dir j) (filename j))
    /\ (dir ∉ dirs w')
    /\ (forall p, inside dir p = true -> p ∉ files w')
    /\ (forall p, inside dir p = false -> p ∈ files w' <-> p ∈ files w).
Proof.
  intros Hj Hinfo dir percents. subst dir. eexists. split.
  { rewrite create_pdf_task_unfold by eauto. cbv zeta. by rewrite Hinfo. }
  pose proof (after_download_dirs isspace py_float env job_id w) as Hdirs.
  destruct (fail_task_released job_id (env_temp_dir env)
              (after_download isspace py_float env job_id w))
    as (H1 & H2 & H3 & _).
  { rewrite Hdirs. apply elem_of_union_l. by apply elem_of_singleton. }
  split.
  { rewrite fail_task_lookup, decide_True, after_download_lookup,
      decide_True, Hj by done.
    fold percents. by destruct (last percents). }
  split; [done|]. split; [done|].
  intros p Hp. rewrite H3, after_download_files by done.
  split; [|by left]. intros [H | (name & _ & ->)]; [done|].
  by rewrite inside_path_join in Hp.
Qed.

Lemma task_download_failure_witness :
  exists w',
    Demo.task Demo2.env_no_video "j" (convert "j" initial_world) = Finished w'
    /\ jobs w' !! "j"%string
       = Some (Job failed ((125 # 10) / 2) "Downloading Video" None None None)
    /\ ("/dev/shm/ws3"%string ∉ dirs w').
Proof.
  destruct (task_download_failure ascii_alnum ascii_space decimal_float
              Demo.calc_hist Demo.compareHist Demo.imwrite Demo.image_size
              Demo2.env_no_video "j" (convert "j" initial_world)
              Demo.fresh_job) as (w' & H1 & H2 & H3 & _);
    [reflexivity | reflexivity |].
  exists w'. split; [exact H1|]. split; [exact H2 | exact H3].
Defined.

(** X15.  When the download succeeds and the generator yields at least
    one frame that is encoded, the task returns with the job complete: the
    record names the document inside the directory of the task, that
    directory and the sanitized title; directory and document exist; and a
    retrieval of the job answers with that document under that name. *)
Theorem task_success {Frame Hist : Type}
    (isalnum isspace : N -> bool) (py_float : pystr -> option Q)
    (calc_hist : Frame -> Hist) (compareHist : Hist -> Hist -> Q)
    (imwrite : Frame -> bool) (image_size : Frame -> positive * positive)
    (env : task_env Frame) (job_id : string) (w : world)
    (ext : string) (title : pystr) (r : gen_run Frame) :
  is_Some (jobs w !! job_id) ->
  info (env_download env) = Some (ext, title) ->
  frames_to_pdf_generator calc_hist compareHist
    (env_capture env (path_join (env_temp_dir env) ("video." ++ ext)))
    job_id 1 (7 # 10)
    (jobs (after_download isspace py_float env job_id w)) = GenDone r ->
  (exists f, In f (emitted r) /\ imwrite f = true) ->
  let dir := env_temp_dir env in
  let out := path_join dir "output.pdf" in
  let name := safe_filename isalnum isspace title in
  exists w' j',
    create_pdf_task isalnum isspace py_float calc_hist compareHist
      imwrite image_size env job_id w = Finished w'
    /\ jobs w' !! job_id = Some j'
    /\ status j' = complete
    /\ filepath j' = Some out /\ temp_dir j' = Some dir
    /\ filename j' = Some name
    /\ dir ∈ dirs w' /\ out ∈ files w'
    /\ (forall q, (download q job_id w').1 = SendFile out name).
Proof.
  intros Hjob Hinfo Hgen Henc dir out name.
  pose proof (proj2 (after_download_present isspace py_float env job_id w)
                Hjob) as [j2 Hj2].
  pose proof (generator_final _ _ _ _ _ _ _ _ job_id Hgen) as Hfin.
  rewrite decide_True, Hj2 in Hfin by done.
  assert (Hj3 : is_Some (jobs_after r !! job_id)).
  { rewrite Hfin. by destruct (last (iterations r)). }
  destruct Hj3 as [j3 Hj3].
  set (res := save_frames_to_pdf imwrite image_size (env_tempfile_name env)
                (emitted r) out
                (files (after_download isspace py_float env job_id w))).
  set (w3 := World (jobs_after r)
               (dirs (after_download isspace py_float env job_id w))
               (files_after res)).
  destruct (save_frames_to_pdf_disk imwrite image_size
              (env_tempfile_name env) (emitted r) out
              (files (after_download isspace py_float env job_id w)))
    as (Hdisk & Hsucc & _).
  fold res in Hdisk, Hsucc. apply Hsucc in Henc.
  exists (complete_task job_id out dir name w3),
    (Job complete (progress j3) (stage j3) (Some out) (Some dir) (Some name)).
  assert (Hlook : jobs (complete_task job_id out dir name w3) !! job_id
                  = Some (Job complete (progress j3) (stage j3) (Some out)
                            (Some dir) (Some name))).
  { rewrite complete_task_lookup, decide_True by done. simpl.
    by rewrite Hj3. }
  split.
  { rewrite create_pdf_task_unfold by done. cbv zeta.
    rewrite Hinfo, Hgen. fold dir out res. by rewrite Henc. }
  split; [exact Hlook|]. split; [done|]. split; [done|]. split; [done|].
  split; [done|]. split.
  { simpl. rewrite after_download_dirs. apply elem_of_union_l.
    by apply elem_of_singleton. }
  assert (Hout : out ∈ files (complete_task job_id out dir name w3)).
  { simpl. apply Hdisk. by left. }
  split; [exact Hout|].
  intros q. unfold download. rewrite Hlook.
  by rewrite (download_view_complete _ _ out dir).
Qed.

Lemma task_success_witness :
  exists w' j',
    Demo.task Demo.env_ok "j" (convert "j" initial_world) = Finished w'
    /\ jobs w' !! "j"%string = Some j'
    /\ status j' = complete
    /\ filepath j' = Some "/dev/shm/ws1/output.pdf"%string
    /\ (forall q,
          (download q "j" w').1
          = SendFile "/dev/shm/ws1/output.pdf" (lit "Intro-to-Rocq.pdf")).
Proof.
  destruct (task_success ascii_alnum ascii_space decimal_float
              Demo.calc_hist Demo.compareHist Demo.imwrite Demo.image_size
              Demo.env_ok "j" (convert "j" initial_world)
              "mp4" (lit "Intro to Rocq") Demo2.ok_run)
    as (w' & j' & H1 & H2 & H3 & H4 & _ & _ & _ & _ & H9).
  - by eexists.
  - reflexivity.
  - reflexivity.
  - exists 1%nat. split; [by left | reflexivity].
  - exists w', j'. split; [exact H1|]. split; [exact H2|].
    split; [exact H3|]. split; [exact H4 | exact H9].
Defined.

(** X16.  A task for a job in the store, on captures whose frame rate is
    not negative, always returns, and when it returns the job is either
    failed, with its directory and everything in it removed, or complete,
    with directory and document in place and the three result keys set. *)
Theorem task_ends_failed_or_complete {Frame Hist : Type}
    (isalnum isspace : N -> bool) (py_float : pystr -> option Q)
    (calc_hist : Frame -> Hist) (compareHist : Hist -> Hist -> Q)
    (imwrite : Frame -> bool) (image_size : Frame -> positive * positive)
    (env : task_env Frame) (job_id : string) (w : world) :
  is_Some (jobs w !! job_id) ->
  (forall path, (0 <= CAP_PROP_FPS (env_capture env path))%Q) ->
  let dir := env_temp_dir env in
  let out := path_join dir "output.pdf" in
  exists w' j',
    create_pdf_task isalnum isspace py_float calc_hist compareHist
      imwrite image_size env job_id w = Finished w'
    /\ jobs w' !! job_id = Some j'
    /\ ((status j' = failed
         /\ (dir ∉ dirs w')
         /\ (forall p, inside dir p = true -> p ∉ files w'))
        \/ (status j' = complete
            /\ filepath j' = Some out /\ temp_dir j' = Some dir
            /\ is_Some (filename j')
            /\ dir ∈ dirs w' /\ out ∈ files w')).
Proof.
  intros Hjob Hfps dir out.
  destruct (create_pdf_task_finishes isalnum isspace py_float calc_hist
              compareHist imwrite image_size env job_id w Hjob Hfps)
    as [w' Hw'].
  destruct (create_pdf_task_own isalnum isspace py_float calc_hist
              compareHist imwrite image_size env job_id w w' Hjob Hw')
    as (j' & Hj' & Hcases).
  exists w', j'. split; [done|]. split; [done|].
  destruct Hcases as [H | (H1 & H2 & H3 & (t & _ & H4) & H5 & H6)];
    [by left|].
  right. rewrite H4. eauto 10.
Qed.

Lemma task_ends_failed_or_complete_witness :
  exists w' j',
    Demo.task Demo2.env_unlucky "j" (convert "j" initial_world) = Finished w'
    /\ jobs w' !! "j"%string = Some j'
    /\ ((status j' = failed
         /\ ("/dev/shm/ws4"%string ∉ dirs w')
         /\ (forall p, inside "/dev/shm/ws4" p = true -> p ∉ files w'))
        \/ (status j' = complete
            /\ filepath j' = Some "/dev/shm/ws4/output.pdf"%string
            /\ temp_dir j' = Some "/dev/shm/ws4"%string
            /\ is_Some (filename j')
            /\ "/dev/shm/ws4"%string ∈ dirs w'
            /\ "/dev/shm/ws4/output.pdf"%string ∈ files w')).
Proof.
  apply (task_ends_failed_or_complete ascii_alnum ascii_space decimal_float
           Demo.calc_hist Demo.compareHist Demo.imwrite Demo.image_size
           Demo2.env_unlucky "j" (convert "j" initial_world)).
  - by eexists.
  - intros path. discriminate.
Defined.

Example unlucky_job_fails :
  match Demo.task Demo2.env_unlucky "j" (convert "j" initial_world) with
  | Finished w' => status <$> (jobs w' !! "j"%string)
  | _ => None
  end = Some failed.
Proof. reflexivity. Qed.

(** X17.  A task touches nothing that belongs to another job: the records
    of other jobs, the directories other than its own, and every file that
    is neither inside its directory nor carries the name of one of its
    temporary files are after the task as they were before it. *)
Theorem task_leaves_others_alone {Frame Hist : Type}
    (isalnum isspace : N -> bool) (py_float : pystr -> option Q)
    (calc_hist : Frame -> Hist) (compareHist : Hist -> Hist -> Q)
    (imwrite : Frame -> bool) (image_size : Frame -> positive * positive)
    (env : task_env Frame) (job_id : string) (w w' : world) :
  create_pdf_task isalnum isspace py_float calc_hist compareHist
    imwrite image_size env job_id w = Finished w'
  \/ create_pdf_task isalnum isspace py_float calc_hist compareHist
       imwrite image_size env job_id w = Crashed w' ->
  let dir := env_temp_dir env in
  (forall id, id <> job_id -> jobs w' !! id = jobs w !! id)
  /\ (forall d, d <> dir -> d ∈ dirs w' <-> d ∈ dirs w)
  /\ (forall p,
        inside dir p = false ->
        (forall k, p <> env_tempfile_name env k) ->
        p ∈ files w' <-> p ∈ files w).
Proof. apply create_pdf_task_others. Qed.

Lemma task_leaves_others_alone_witness :
  exists w',
    Demo.task Demo.env_ok "j" Demo2.two_jobs = Finished w'
    /\ jobs w' !! "k"%string = Some Demo2.other_job
    /\ "/dev/shm/old"%string ∈ dirs w'.
Proof.
  destruct (Demo.task Demo.env_ok "j" Demo2.two_jobs) as [w' | w' |] eqn:E;
    [|vm_compute in E; discriminate E..].
  exists w'. split; [reflexivity|].
  destruct (task_leaves_others_alone ascii_alnum ascii_space decimal_float
              Demo.calc_hist Demo.compareHist Demo.imwrite Demo.image_size
              Demo.env_ok "j" Demo2.two_jobs w' (or_introl E))
    as (H1 & H2 & _).
  split.
  - rewrite H1 by discriminate. reflexivity.
  - apply H2; [discriminate|]. vm_compute. reflexivity.
Defined.

(** X19.  A conversion never leaves its directory behind once the job has
    been asked for: after [convert], the task and one retrieval, the
    directory of the task and every file in it are gone, whether the job
    failed (then the record stays, as failed) or completed (then the
    record is gone too). *)
Theorem workspace_released_after_retrieval {Frame Hist : Type}
    (isalnum isspace : N -> bool) (py_float : pystr -> option Q)
    (calc_hist : Frame -> Hist) (compareHist : Hist -> Hist -> Q)
    (imwrite : Frame -> bool) (image_size : Frame -> positive * positive)
    (env : task_env Frame) (job_id : string) (w : world) :
  (forall path, (0 <= CAP_PROP_FPS (env_capture env path))%Q) ->
  let dir := env_temp_dir env in
  exists w2,
    create_pdf_task isalnum isspace py_float calc_hist compareHist
      imwrite image_size env job_id (convert job_id w) = Finished w2
    /\ forall q,
         (dir ∉ dirs (download q job_id w2).2)
         /\ (forall p, inside dir p = true ->
                       p ∉ files (download q job_id w2).2)
         /\ (jobs (download q job_id w2).2 !! job_id = None
             \/ (status <$> (jobs (download q job_id w2).2 !! job_id))
                = Some failed).
Proof.
  intros Hfps dir.
  assert (Hjob : is_Some (jobs (convert job_id w) !! job_id)).
  { simpl. rewrite lookup_insert_eq. eauto. }
  destruct (create_pdf_task_finishes isalnum isspace py_float calc_hist
              compareHist imwrite image_size env job_id _ Hjob Hfps)
    as [w2 Hw2].
  destruct (create_pdf_task_own isalnum isspace py_float calc_hist
              compareHist imwrite image_size env job_id _ w2 Hjob Hw2)
    as (j' & Hj' & Hcases).
  exists w2. split; [done|]. intros q.
  destruct Hcases as [(Hs & Hd & Hf) | (Hs & Hp & Hd & _ & Hin & Hout)].
  - rewrite download_not_complete.
    + cbn [snd]. split; [done|]. split; [done|]. right. rewrite Hj'.
      simpl. by rewrite Hs.
    + intros j0. rewrite Hj'. intros [= <-]. by rewrite Hs.
  - rewrite (download_complete q job_id w2 j' _ _ Hj' Hs Hp Hd Hout Hin).
    cbn [snd].
    split; [apply remove_tree_dirs|].
    split; [intros p Hins; by apply remove_tree_files|].
    left. simpl. apply lookup_delete_eq.
Qed.

Lemma workspace_released_after_retrieval_witness :
  exists w2,
    Demo.task Demo.env_ok "j" (convert "j" initial_world) = Finished w2
    /\ forall q,
         ("/dev/shm/ws1"%string ∉ dirs (download q "j" w2).2)
         /\ (forall p, inside "/dev/shm/ws1" p = true ->
                       p ∉ files (download q "j" w2).2)
         /\ (jobs (download q "j" w2).2 !! "j"%string = None
             \/ (status <$> (jobs (download q "j" w2).2 !! "j"%string))
                = Some failed).
Proof.
  apply (workspace_released_after_retrieval ascii_alnum ascii_space
           decimal_float Demo.calc_hist Demo.compareHist Demo.imwrite
           Demo.image_size Demo.env_ok "j" initial_world).
  intros path. discriminate.
Defined.

(** ** Stored progress: C10 *)

(** The record a run that sampled a frame leaves for its job carries the
    value computed for the last sampled index. *)
Lemma generator_final_progress {Frame Hist : Type}
    (calc_hist : Frame -> Hist) (compareHist : Hist -> Hist -> Q)
    (cap : VideoCapture Frame) (job_id : string) (r t : Q)
    (js : gmap string job) (run : gen_run Frame) (j : job) :
  frames_to_pdf_generator calc_hist compareHist cap job_id r t js
  = GenDone run ->
  iterations run <> [] ->
  jobs_after run !! job_id = Some j ->
  (progress j < 100)%Q.
Proof.
  intros Hrun Hne.
  rewrite (generator_final _ _ _ _ _ _ _ _ job_id Hrun), decide_True by done.
  destruct (last (iterations run)) as [it|] eqn:Hlast;
    [|by apply last_None in Hlast].
  destruct (js !! job_id) as [j0|]; [|done]. intros [= <-]. simpl.
  apply analysis_value_below.
  apply generator_done in Hrun
    as [[_ ->] | (_ & i & fuel & _ & Hloop)]; [done|].
  rewrite last_lookup in Hlast.
  by destruct (gen_loop_index _ _ _ _ _ _ _ _ _ _ _ _ _ _ _ _ _ Hloop Hlast)
    as (_ & H & _).
Qed.

Section ProgressFacts.

Variable isalnum : N -> bool.
Variable isspace : N -> bool.
Variable py_float : pystr -> option Q.
Context {Frame Hist : Type}.
Variable calc_hist : Frame -> Hist.
Variable compareHist : Hist -> Hist -> Q.
Variable imwrite : Frame -> bool.
Variable image_size : Frame -> positive * positive.

Local Abbreviation task :=
  (create_pdf_task isalnum isspace py_float calc_hist compareHist
     imwrite image_size).
Local Abbreviation service :=
  (run isalnum isspace py_float calc_hist compareHist imwrite image_size).

(** A task leaves its job failed or with a value of the analysis, whatever
    the download reported. *)
Lemma create_pdf_task_progress (env : task_env Frame) job_id w w' :
  below_100_unless_failed (jobs w) ->
  task env job_id w = Finished w' \/ task env job_id w = Crashed w' ->
  below_100_unless_failed (jobs w').
Proof.
  intros Hw Hout id j Hj Hs.
  pose proof (create_pdf_task_others isalnum isspace py_float calc_hist
                compareHist imwrite image_size env job_id w w' Hout)
    as (Hothers & _).
  destruct (decide (id = job_id)) as [->|Hne];
    [|rewrite Hothers in Hj by done; by eapply Hw].
  destruct (jobs w !! job_id) as [j0|] eqn:Hj0.
  2: { rewrite create_pdf_task_missing in Hout by done.
       destruct Hout as [[=] | [= <-]]. simpl in Hj. congruence. }
  rewrite create_pdf_task_unfold in Hout by eauto. cbv zeta in Hout.
  assert (Hfail : forall wX,
            jobs (fail_task job_id (env_temp_dir env) wX) !! job_id = Some j ->
            False).
  { intros wX. rewrite fail_task_lookup, decide_True by done.
    destruct (jobs wX !! job_id) as [jX|]; [|done].
    intros [= <-]. by apply Hs. }
  destruct (info (env_download env)) as [[ext title]|].
  2: { destruct Hout as [[= <-] | [=]]. by destruct (Hfail _ Hj). }
  destruct (frames_to_pdf_generator _ _ _ _ _ _ _) as [r| |] eqn:Hgen.
  3: { by destruct Hout as [[=] | [=]]. }
  2: { destruct Hout as [[= <-] | [=]]. by destruct (Hfail _ Hj). }
  destruct (success _) eqn:Hsucc; destruct Hout as [[= <-] | [=]].
  2: { by destruct (Hfail _ Hj). }
  rewrite complete_task_lookup, decide_True in Hj by done. cbn [jobs] in Hj.
  destruct (jobs_after r !! job_id) as [j3|] eqn:Hj3; [|done].
  injection Hj as <-. cbn [progress].
  eapply (generator_final_progress calc_hist compareHist);
    [exact Hgen | | exact Hj3].
  apply save_frames_to_pdf_disk in Hsucc as (f & Hf & _).
  pose proof (generator_emitted_length _ _ _ _ _ _ _ _ Hgen) as Hlen.
  unfold sampled in Hlen. rewrite length_map in Hlen.
  intros E. rewrite E in Hlen. destruct (emitted r); [done | simpl in Hlen; lia].
Qed.

Lemma perform_progress (a : action Frame) w w' :
  below_100_unless_failed (jobs w) ->
  perform isalnum isspace py_float calc_hist compareHist imwrite image_size
    a w = Some w' ->
  below_100_unless_failed (jobs w').
Proof.
  intros Hw. destruct a as [id | env id | id | q id]; simpl.
  - intros [= <-] id' j. simpl. rewrite lookup_insert.
    case_decide; [|apply Hw]. by intros [= <-].
  - destruct (create_pdf_task _ _ _ _ _ _ _ env id w) as [w1 | w1 |] eqn:E;
      [| |done]; intros [= <-];
      eapply create_pdf_task_progress; eauto.
  - by intros [= <-].
  - intros [= <-] id' j Hj. apply download_jobs_subset in Hj.
    by eapply Hw.
Qed.

Lemma run_progress (acts : list (action Frame)) w w' :
  below_100_unless_failed (jobs w) -> service acts w = Some w' ->
  below_100_unless_failed (jobs w').
Proof.
  revert w. induction acts as [|a acts IH]; intros w Hw.
  { by intros [= <-]. }
  simpl. destruct (perform _ _ _ _ _ _ _ a w) as [w1|] eqn:E; [|done].
  apply IH. by eapply perform_progress.
Qed.

End ProgressFacts.




Example complete_job_progress :
  (status <$> (jobs Demo.done_world !! "j"%string)) = Some complete
  /\ (progress <$> (jobs Demo.done_world !! "j"%string)) = Some (15000 # 180).
Proof. split; reflexivity. Qed.

(** A job whose download reported 250% and whose video then gave a slide
    is complete with the progress of the analysis. *)
Example overreport_then_complete :
  let env := TaskEnv "/dev/shm/ws6"
               (DownloadRun [Demo.downloading "250%"]
                  (Some ("mp4"%string, lit "Talk")) ["video.mp4"%string])
               (λ _, Demo.talk) Demo.tempfile_name in
  match Demo.task env "j" (convert "j" initial_world) with
  | Finished w' =>
      (λ j, (status j, progress j)) <$> (jobs w' !! "j"%string)
  | _ => None
  end = Some (complete, 15000 # 180).
Proof. reflexivity. Qed.
